(** * Covasa backend: stock-critical evaluation, stock movements, alert
    acknowledgement and bulk import

    A shallow embedding of
    - [src/controllers/inventario.controller.ts] (evaluator, inventory
      CRUD, stock movements, Excel import), and
    - the stock-alert controller ([listStockAlerts], [countStockAlerts],
      [ackStockAlert], [resolveStockAlert]), and
    - the CRM quotation list ([parseDate], [buildRange],
      [listCrmCotizaciones]),
    over an explicit relational store.

    Conventions of the embedding.
    - A Prisma table with a primary key is a [gmap] from the id (a string,
      as in the source) to the row; append-only tables that are never read
      back by key (notifications, stock movements) are lists, newest last.
    - [new Date()] is an input [now : Z] in milliseconds since the epoch.
    - [prisma.$transaction] is [transaction]: a body that throws leaves the
      store as it was.
    - The JavaScript coercions [String(raw ?? "")] and [Number(raw)] applied
      to a spreadsheet cell are taken as already performed: a text cell is
      a [string], a numeric cell a [JsNumber].
    - Strings are byte strings; [trim], [toLowerCase] and [toUpperCase]
      act on the ASCII range only, where they are the methods of
      [String.prototype]; [Js.isAscii] delimits that range in the
      statements that depend on it.
    - Integers are unbounded ([Z]); the 32-bit range of a Prisma [Int] is
      not modelled.  [Math.ceil(total / pageSize)] is the ceiling of the
      exact quotient, which is what the floating-point division gives for
      any row count below 2^31.
    - The table of quotations, whose schema is not at hand, is a list of
      rows of a parameter type, with its [createdAt] column and the
      database's evaluation of a [where] filter as parameters. *)

From Stdlib Require Import ZArith QArith Qround Ascii Bool Lia.
From stdpp Require Import gmap strings list fin_maps pretty sorting.

Local Open Scope Z_scope.

(** ** JavaScript string helpers (ASCII) *)

Module Js.

Definition isUpper (c : ascii) : bool :=
  let n := nat_of_ascii c in (65 <=? n)%nat && (n <=? 90)%nat.

Definition isLower (c : ascii) : bool :=
  let n := nat_of_ascii c in (97 <=? n)%nat && (n <=? 122)%nat.

Definition isDigit (c : ascii) : bool :=
  let n := nat_of_ascii c in (48 <=? n)%nat && (n <=? 57)%nat.

(** White space removed by [String.prototype.trim]: TAB, LF, VT, FF, CR and
    the space. *)
Definition isSpace (c : ascii) : bool :=
  let n := nat_of_ascii c in
  ((9 <=? n)%nat && (n <=? 13)%nat) || (n =? 32)%nat.

Definition lowerChar (c : ascii) : ascii :=
  if isUpper c then ascii_of_nat (nat_of_ascii c + 32) else c.

Definition upperChar (c : ascii) : ascii :=
  if isLower c then ascii_of_nat (nat_of_ascii c - 32) else c.

Fixpoint mapString (f : ascii -> ascii) (s : string) : string :=
  match s with
  | EmptyString => EmptyString
  | String c r => String (f c) (mapString f r)
  end.

(** [toLowerCase] and [toUpperCase] map the letters A-Z and a-z and leave
    every other byte as it is: the methods of [String.prototype] on text
    of the ASCII range. *)
Definition toLowerCase : string -> string := mapString lowerChar.
Definition toUpperCase : string -> string := mapString upperChar.

Fixpoint trimStart (s : string) : string :=
  match s with
  | String c r => if isSpace c then trimStart r else s
  | EmptyString => EmptyString
  end.

(** [trimEnd s] drops the trailing white space: a suffix is kept as soon as
    something other than white space follows. *)
Fixpoint trimEnd (s : string) : string :=
  match s with
  | EmptyString => EmptyString
  | String c r =>
      match trimEnd r with
      | EmptyString => if isSpace c then EmptyString else String c EmptyString
      | r' => String c r'
      end
  end.

(** [trim] strips the white space of [isSpace] at both ends:
    [String.prototype.trim] on text of the ASCII range. *)
Definition trim (s : string) : string := trimEnd (trimStart s).

(** [includes needle hay] is [hay.includes(needle)]. *)
Fixpoint includes (needle hay : string) : bool :=
  String.prefix needle hay ||
  match hay with
  | EmptyString => false
  | String _ r => includes needle r
  end.

Fixpoint allDigits (s : string) : bool :=
  match s with
  | EmptyString => true
  | String c r => isDigit c && allDigits r
  end.

(** [/^\d+$/.test(s)] *)
Definition isDigits1 (s : string) : bool :=
  negb (String.eqb s "") && allDigits s.

Fixpoint dropNonDigits (s : string) : string :=
  match s with
  | String c r => if isDigit c then s else dropNonDigits r
  | EmptyString => EmptyString
  end.

(** [stripPrefixCI p s] removes the prefix [p], compared without regard to
    ASCII case (the regex flag [i]). *)
Definition stripPrefixCI (p s : string) : option string :=
  let n := String.length p in
  if String.eqb (toLowerCase (String.substring 0 n s)) (toLowerCase p)
  then Some (String.substring n (String.length s - n) s)
  else None.

(** A JavaScript string is truthy unless it is empty. *)
Definition truthy (s : string) : bool := negb (String.eqb s "").

(** Text of the ASCII range.  On such text [trim], [toLowerCase] and
    [toUpperCase] above are the methods of [String.prototype]; on other
    text the methods do more (they also strip U+00A0 and the other
    Unicode white space, and map letters such as ñ or ſ), so a property
    that depends on their result outside ASCII is stated for ASCII text. *)
Definition isAsciiChar (c : ascii) : bool := (nat_of_ascii c <? 128)%nat.

Fixpoint isAscii (s : string) : bool :=
  match s with
  | EmptyString => true
  | String c r => isAsciiChar c && isAscii r
  end.

End Js.

(** ** JavaScript numbers

    The result of [Number(raw)]: not-a-number, an infinity, or a finite
    double, the latter represented by the rational it denotes. *)

Inductive JsNumber :=
| JsNaN
| JsInfinity (negative : bool)
| JsFinite (q : Q).

(** [Math.trunc] on a finite number: rounding towards zero. *)
Definition Qtrunc (q : Q) : Z :=
  if Qle_bool 0 q then Qfloor q else Qceiling q.

(** ** Data model (Prisma rows) *)

Definition Id := string.

Inductive AlertStatus := OPEN | ACK | RESOLVED.
Inductive TipoMovimientoStock := Entrada | Salida | Ajuste.

Global Instance AlertStatus_eq_dec : EqDecision AlertStatus.
Proof. solve_decision. Defined.
Global Instance TipoMovimientoStock_eq_dec : EqDecision TipoMovimientoStock.
Proof. solve_decision. Defined.

(** [ProductoTipo] is a Prisma enum; a value is its name. *)
Record Producto := {
  p_sku : option string;
  p_nombre : string;
  p_tipo : string;
  p_precioGeneral : Z;
  p_precioConDescto : Z;
  p_fotoUrl : option string;
  p_unidadMedida : string
}.

Record Inventario := {
  i_productoId : Id;
  i_codigo : option string;
  i_stock : Z;
  i_minimo : Z;
  i_ubicacion : option string
}.

(** Keyed by [inventarioId] (one rule per inventory at most). *)
Record StockCriticalRule := {
  r_enabled : bool;
  r_thresholdOverride : option Z;
  r_cooldownMinutes : option Z;
  r_lastNotifiedAt : option Z
}.

Record AlertMeta := {
  meta_productoId : Id;
  meta_productoNombre : string;
  meta_sku : option string
}.

Record StockAlert := {
  a_inventarioId : Id;
  a_threshold : Z;
  a_stockAtAlert : Z;
  a_status : AlertStatus;
  a_isActive : bool;
  a_openedAt : Z;
  a_lastSentAt : option Z;
  a_ackAt : option Z;
  a_resolvedAt : option Z;
  a_channel : option string;
  a_meta : option AlertMeta
}.

Record EcommerceNotificacion := {
  n_tipo : string;
  n_referenciaTabla : string;
  n_referenciaId : Id;
  n_titulo : string;
  n_detalle : string;
  n_leido : bool
}.

Record StockMovimiento := {
  m_inventarioId : Id;
  m_tipo : TipoMovimientoStock;
  m_cantidad : Z;
  m_nota : option string
}.

Record Store := {
  productos : gmap string Producto;
  inventarios : gmap string Inventario;
  rules : gmap string StockCriticalRule;
  alerts : gmap string StockAlert;
  notificaciones : list EcommerceNotificacion;
  movimientos : list StockMovimiento
}.

Definition emptyStore : Store :=
  {| productos := ∅; inventarios := ∅; rules := ∅; alerts := ∅;
     notificaciones := []; movimientos := [] |}.

(** Modelled from the spec: the default of the [id] columns is declared in
    the Prisma schema, which is not among the sources.  The id given to a
    new row is a non-empty string that is not yet a key of the table. *)
Definition freshId {A} (m : gmap string A) : Id :=
  fresh ({[ "" ]} ∪ dom m).

(** ** Errors and transactions *)

(** [ApiError = Error & { code?: string }] *)
Record ApiError := {
  e_message : string;
  e_code : option string
}.

Definition Tx (A : Type) : Type := Store -> ApiError + (A * Store).

(** [prisma.$transaction(body)]: commit on return, roll back on throw. *)
Definition transaction {A} (body : Tx A) (s : Store) : (ApiError + A) * Store :=
  match body s with
  | inl e => (inl e, s)
  | inr (a, s') => (inr a, s')
  end.

Definition throw {A} (e : ApiError) : Tx A := fun _ => inl e.

(** A property access on [null]: [inv.producto.nombre] when the joined
    product is missing. *)
Definition TypeError_null (prop : string) : ApiError :=
  {| e_message := "Cannot read properties of null (reading '" +:+ prop +:+ "')";
     e_code := None |}.

(** Store updates, one per table. *)
Definition withProductos (m : gmap string Producto) (s : Store) : Store :=
  {| productos := m; inventarios := inventarios s; rules := rules s;
     alerts := alerts s; notificaciones := notificaciones s;
     movimientos := movimientos s |}.

Definition withInventarios (m : gmap string Inventario) (s : Store) : Store :=
  {| productos := productos s; inventarios := m; rules := rules s;
     alerts := alerts s; notificaciones := notificaciones s;
     movimientos := movimientos s |}.

Definition withRules (m : gmap string StockCriticalRule) (s : Store) : Store :=
  {| productos := productos s; inventarios := inventarios s; rules := m;
     alerts := alerts s; notificaciones := notificaciones s;
     movimientos := movimientos s |}.

Definition withAlerts (m : gmap string StockAlert) (s : Store) : Store :=
  {| productos := productos s; inventarios := inventarios s; rules := rules s;
     alerts := m; notificaciones := notificaciones s;
     movimientos := movimientos s |}.

Definition pushNotificacion (n : EcommerceNotificacion) (s : Store) : Store :=
  {| productos := productos s; inventarios := inventarios s; rules := rules s;
     alerts := alerts s; notificaciones := notificaciones s ++ [n];
     movimientos := movimientos s |}.

Definition pushMovimiento (m : StockMovimiento) (s : Store) : Store :=
  {| productos := productos s; inventarios := inventarios s; rules := rules s;
     alerts := alerts s; notificaciones := notificaciones s;
     movimientos := movimientos s ++ [m] |}.

(** ** Prisma enum helpers *)

(** [isFleteTipo(tipo)]: [String(tipo ?? "").toLowerCase().includes("flet")] *)
Definition isFleteTipo (tipo : option string) : bool :=
  Js.includes "flet" (Js.toLowerCase (default "" tipo)).

(** ** The stock-critical evaluator *)

Definition DEFAULT_COOLDOWN_MINUTES : Z := 360.

Inductive Action := noop | created | resent | resolved.

Record EvalResult := {
  action : Action;
  alertId : option Id;
  reason : option string
}.

Definition noopResult (why : option string) : EvalResult :=
  {| action := noop; alertId := None; reason := why |}.

(** [a ?? b] on nullable values. *)
Definition coalesce {A} (a b : option A) : option A :=
  match a with Some x => Some x | None => b end.

(** [rule?.thresholdOverride ?? inv.minimo ?? 0]; the column [minimo] is
    [NOT NULL], so the last alternative is never taken. *)
Definition effectiveThreshold (rule : option StockCriticalRule) (inv : Inventario) : Z :=
  default 0 (coalesce (rule ≫= r_thresholdOverride) (Some (i_minimo inv))).

(** [rule?.cooldownMinutes ?? DEFAULT_COOLDOWN_MINUTES] *)
Definition effectiveCooldown (rule : option StockCriticalRule) : Z :=
  default DEFAULT_COOLDOWN_MINUTES (rule ≫= r_cooldownMinutes).

Definition isCritical (rule : option StockCriticalRule) (inv : Inventario) : bool :=
  i_stock inv <=? effectiveThreshold rule inv.

(** [rule?.lastNotifiedAt ?? activeAlert.lastSentAt ?? activeAlert.openedAt] *)
Definition lastNotified (rule : option StockCriticalRule) (a : StockAlert) : option Z :=
  coalesce (rule ≫= r_lastNotifiedAt)
           (coalesce (a_lastSentAt a) (Some (a_openedAt a))).

(** [!last || last.getTime() < now.getTime() - cooldownMinutes * 60 * 1000] *)
Definition canResend (last : option Z) (now cooldownMinutes : Z) : bool :=
  match last with
  | None => true
  | Some l => l <? now - cooldownMinutes * 60 * 1000
  end.

Definition activeFor (inventarioId : Id) (x : Id * StockAlert) : bool :=
  String.eqb (a_inventarioId x.2) inventarioId && a_isActive x.2.

(** [orderBy: { openedAt: "desc" }], first row: the candidate replaces the
    best so far only when it was opened strictly later. *)
Definition mostRecent (x : Id * StockAlert) (best : option (Id * StockAlert))
  : option (Id * StockAlert) :=
  match best with
  | None => Some x
  | Some y => if a_openedAt y.2 <? a_openedAt x.2 then Some x else Some y
  end.

(** [tx.stockAlert.findFirst({ where: { inventarioId, isActive: true },
    orderBy: { openedAt: "desc" } })] *)
Definition findFirstActive (inventarioId : Id) (m : gmap string StockAlert)
  : option (Id * StockAlert) :=
  foldr mostRecent None (List.filter (activeFor inventarioId) (map_to_list m)).

(** The [data] of [tx.stockAlert.create]; [openedAt] is left to its
    database default, taken to be the time of the call. *)
Definition newAlert (now : Z) (inventarioId : Id) (threshold : Z)
  (inv : Inventario) (p : Producto) : StockAlert :=
  {| a_inventarioId := inventarioId;
     a_threshold := threshold;
     a_stockAtAlert := i_stock inv;
     a_status := OPEN;
     a_isActive := true;
     a_openedAt := now;
     a_lastSentAt := Some now;
     a_ackAt := None;
     a_resolvedAt := None;
     a_channel := Some "system";
     a_meta := Some {| meta_productoId := i_productoId inv;
                       meta_productoNombre := p_nombre p;
                       meta_sku := p_sku p |} |}.

(** [data: { lastSentAt: now, stockAtAlert: inv.stock, threshold }] *)
Definition resendAlert (now : Z) (threshold stock : Z) (a : StockAlert) : StockAlert :=
  {| a_inventarioId := a_inventarioId a;
     a_threshold := threshold;
     a_stockAtAlert := stock;
     a_status := a_status a;
     a_isActive := a_isActive a;
     a_openedAt := a_openedAt a;
     a_lastSentAt := Some now;
     a_ackAt := a_ackAt a;
     a_resolvedAt := a_resolvedAt a;
     a_channel := a_channel a;
     a_meta := a_meta a |}.

(** [data: { status: "RESOLVED", isActive: false, resolvedAt: now }] *)
Definition closeAlert (now : Z) (a : StockAlert) : StockAlert :=
  {| a_inventarioId := a_inventarioId a;
     a_threshold := a_threshold a;
     a_stockAtAlert := a_stockAtAlert a;
     a_status := RESOLVED;
     a_isActive := false;
     a_openedAt := a_openedAt a;
     a_lastSentAt := a_lastSentAt a;
     a_ackAt := a_ackAt a;
     a_resolvedAt := Some now;
     a_channel := a_channel a;
     a_meta := a_meta a |}.

Definition stampRule (now : Z) (r : StockCriticalRule) : StockCriticalRule :=
  {| r_enabled := r_enabled r;
     r_thresholdOverride := r_thresholdOverride r;
     r_cooldownMinutes := r_cooldownMinutes r;
     r_lastNotifiedAt := Some now |}.

(** [if (rule) await tx.stockCriticalRule.update({ where: { inventarioId },
    data: { lastNotifiedAt: now } })] *)
Definition stampRuleIfAny (now : Z) (inventarioId : Id)
  (rule : option StockCriticalRule) (s : Store) : Store :=
  match rule with
  | Some r => withRules (<[inventarioId := stampRule now r]> (rules s)) s
  | None => s
  end.

Definition notificacion (titulo : string) (inventarioId : Id)
  (stock threshold : Z) : EcommerceNotificacion :=
  {| n_tipo := "STOCK_CRITICO";
     n_referenciaTabla := "Inventario";
     n_referenciaId := inventarioId;
     n_titulo := titulo;
     n_detalle := "Stock " +:+ pretty stock +:+ " (mínimo " +:+ pretty threshold +:+ ").";
     n_leido := false |}.

Definition evaluateStockCriticalTx (now : Z) (inventarioId : Id) : Tx EvalResult :=
  fun s =>
  match inventarios s !! inventarioId with
  | None => inr (noopResult (Some "inventario_not_found"), s)
  | Some inv =>
    let producto := productos s !! i_productoId inv in
    if isFleteTipo (p_tipo <$> producto)
    then inr (noopResult (Some "producto_es_flete"), s)
    else
    let rule := rules s !! inventarioId in
    if bool_decide (r_enabled <$> rule = Some false)
    then inr (noopResult (Some "rule_disabled"), s)
    else
    let threshold := effectiveThreshold rule inv in
    let cooldownMinutes := effectiveCooldown rule in
    let activeAlert := findFirstActive inventarioId (alerts s) in
    if isCritical rule inv then
      match activeAlert with
      | None =>
        match producto with
        | None => inl (TypeError_null "nombre")
        | Some p =>
          let id := freshId (alerts s) in
          let s1 := withAlerts (<[id := newAlert now inventarioId threshold inv p]> (alerts s)) s in
          let s2 := stampRuleIfAny now inventarioId rule s1 in
          let s3 := pushNotificacion
                      (notificacion ("Stock crítico: " +:+ p_nombre p)
                                    inventarioId (i_stock inv) threshold) s2 in
          inr ({| action := created; alertId := Some id; reason := None |}, s3)
        end
      | Some (id, a) =>
        let last := lastNotified rule a in
        if negb (canResend last now cooldownMinutes)
        then inr (noopResult (Some "cooldown"), s)
        else
        match producto with
        | None => inl (TypeError_null "nombre")
        | Some p =>
          let s1 := withAlerts (<[id := resendAlert now threshold (i_stock inv) a]> (alerts s)) s in
          let s2 := stampRuleIfAny now inventarioId rule s1 in
          let s3 := pushNotificacion
                      (notificacion ("Stock crítico (recordatorio): " +:+ p_nombre p)
                                    inventarioId (i_stock inv) threshold) s2 in
          inr ({| action := resent; alertId := Some id; reason := None |}, s3)
        end
      end
    else
      match activeAlert with
      | Some (id, a) =>
        inr ({| action := resolved; alertId := Some id; reason := None |},
             withAlerts (<[id := closeAlert now a]> (alerts s)) s)
      | None => inr (noopResult None, s)
      end
  end.

(** [prisma.$transaction((tx) => evaluateStockCriticalTx(tx, inventarioId))] *)
Definition evaluateStockCritical (now : Z) (inventarioId : Id) (s : Store)
  : (ApiError + EvalResult) * Store :=
  transaction (evaluateStockCriticalTx now inventarioId) s.

(** ** HTTP responses *)

Inductive Response (A : Type) :=
| Json (status : Z) (body : A)
| JsonError (status : Z) (error : string)
| NoContent (status : Z).

Arguments Json {A} status body.
Arguments JsonError {A} status error.
Arguments NoContent {A} status.

(** ** Stock-alert controller *)

(** [data: { status: "ACK", ackAt: new Date() }] *)
Definition ackAlert (now : Z) (a : StockAlert) : StockAlert :=
  {| a_inventarioId := a_inventarioId a;
     a_threshold := a_threshold a;
     a_stockAtAlert := a_stockAtAlert a;
     a_status := ACK;
     a_isActive := a_isActive a;
     a_openedAt := a_openedAt a;
     a_lastSentAt := a_lastSentAt a;
     a_ackAt := Some now;
     a_resolvedAt := a_resolvedAt a;
     a_channel := a_channel a;
     a_meta := a_meta a |}.

(** [data: { status: "RESOLVED", resolvedAt: new Date() }] *)
Definition markResolved (now : Z) (a : StockAlert) : StockAlert :=
  {| a_inventarioId := a_inventarioId a;
     a_threshold := a_threshold a;
     a_stockAtAlert := a_stockAtAlert a;
     a_status := RESOLVED;
     a_isActive := a_isActive a;
     a_openedAt := a_openedAt a;
     a_lastSentAt := a_lastSentAt a;
     a_ackAt := a_ackAt a;
     a_resolvedAt := Some now;
     a_channel := a_channel a;
     a_meta := a_meta a |}.

(** [POST /api/stock-alerts/:id/ack].  The body of the answer is the row
    read back ([same], possibly [null]) or the updated row. *)
Definition ackStockAlert (now : Z) (id : Id) (s : Store)
  : Response (option StockAlert) * Store :=
  match alerts s !! id with
  | None => (JsonError 404 "Alerta no encontrada", s)
  | Some current =>
    if negb (bool_decide (a_status current = OPEN))
    then (Json 200 (alerts s !! id), s)
    else
      let updated := ackAlert now current in
      (Json 200 (Some updated), withAlerts (<[id := updated]> (alerts s)) s)
  end.

(** [POST /api/stock-alerts/:id/resolve] *)
Definition resolveStockAlert (now : Z) (id : Id) (s : Store)
  : Response (option StockAlert) * Store :=
  match alerts s !! id with
  | None => (JsonError 404 "Alerta no encontrada", s)
  | Some current =>
    if bool_decide (a_status current = RESOLVED)
    then (Json 200 (alerts s !! id), s)
    else
      let updated := markResolved now current in
      (Json 200 (Some updated), withAlerts (<[id := updated]> (alerts s)) s)
  end.

(** ** Inventory controller *)

Definition mkError (msg code : string) : ApiError :=
  {| e_message := msg; e_code := Some code |}.

Definition PRODUCTO_NOT_FOUND : ApiError :=
  mkError "Producto no existe" "PRODUCTO_NOT_FOUND".
Definition PRODUCTO_ES_FLETE_inventario : ApiError :=
  mkError "No se puede manejar inventario para un flete" "PRODUCTO_ES_FLETE".
Definition INV_NOT_FOUND : ApiError :=
  mkError "Inventario no encontrado" "INV_NOT_FOUND".
Definition PRODUCTO_ES_FLETE : ApiError :=
  mkError "No se puede manejar stock para un flete" "PRODUCTO_ES_FLETE".
Definition STOCK_NEGATIVO : ApiError :=
  mkError "Stock insuficiente" "STOCK_NEGATIVO".

Definition hasCode (e : ApiError) (code : string) : bool :=
  bool_decide (e_code e = Some code).

(** [errorMessage(e, fallback)]: [e.message || fallback] (no error of this
    controller carries a [body]). *)
Definition errorMessage (e : ApiError) (fallback : string) : string :=
  if Js.truthy (e_message e) then e_message e else fallback.

(** [emptyToNull] *)
Definition emptyToNull (v : option string) : option string :=
  match v with
  | None => None
  | Some v => let s := Js.trim v in if String.eqb s "" then None else Some s
  end.

(** [assertProductoNoEsFlete] *)
Definition assertProductoNoEsFlete (productoId : Id) (s : Store) : option ApiError :=
  match productos s !! productoId with
  | None => Some PRODUCTO_NOT_FOUND
  | Some prod =>
    if isFleteTipo (Some (p_tipo prod)) then Some PRODUCTO_ES_FLETE_inventario
    else None
  end.

(** The request bodies, after zod has validated them. *)
Record InventarioCreateParsed := {
  c_productoId : Id;
  c_codigo : option string;
  c_stock : Z;
  c_minimo : Z;
  c_ubicacion : option string
}.

Record InventarioUpdateParsed := {
  up_codigo : option string;
  up_ubicacion : option string;
  up_stock : option Z;
  up_minimo : option Z
}.

(** The [data] of [prisma.inventario.update]: an absent field ([None]) is
    left as it is, [Some None] writes [null]. *)
Record InventarioUpdateData := {
  u_codigo : option (option string);
  u_ubicacion : option (option string);
  u_stock : option Z;
  u_minimo : option Z
}.

Record MovimientoCreateParsed := {
  mv_inventarioId : Id;
  mv_tipo : TipoMovimientoStock;
  mv_cantidad : Z;
  mv_nota : option string
}.

Definition normalizeInventarioCreate (body : InventarioCreateParsed) : Inventario :=
  {| i_productoId := c_productoId body;
     i_codigo := emptyToNull (c_codigo body);
     i_stock := c_stock body;
     i_minimo := c_minimo body;
     i_ubicacion := emptyToNull (c_ubicacion body) |}.

Definition normalizeInventarioUpdate (body : InventarioUpdateParsed) : InventarioUpdateData :=
  {| u_codigo := (fun v => emptyToNull (Some v)) <$> up_codigo body;
     u_ubicacion := (fun v => emptyToNull (Some v)) <$> up_ubicacion body;
     u_stock := up_stock body;
     u_minimo := up_minimo body |}.

Definition normalizeMovimientoBody (body : MovimientoCreateParsed) : MovimientoCreateParsed :=
  {| mv_inventarioId := mv_inventarioId body;
     mv_tipo := mv_tipo body;
     mv_cantidad := mv_cantidad body;
     mv_nota := emptyToNull (mv_nota body) |}.

Definition applyUpdate (data : InventarioUpdateData) (inv : Inventario) : Inventario :=
  {| i_productoId := i_productoId inv;
     i_codigo := default (i_codigo inv) (u_codigo data);
     i_stock := default (i_stock inv) (u_stock data);
     i_minimo := default (i_minimo inv) (u_minimo data);
     i_ubicacion := default (i_ubicacion inv) (u_ubicacion data) |}.

Definition setStock (stock : Z) (inv : Inventario) : Inventario :=
  {| i_productoId := i_productoId inv;
     i_codigo := i_codigo inv;
     i_stock := stock;
     i_minimo := i_minimo inv;
     i_ubicacion := i_ubicacion inv |}.

(** Modelled from the spec: the foreign keys of the alert and rule tables
    are declared in the Prisma schema, which is not among the sources.  A
    deleted inventory "cascades its movements and alerts" (the migration at
    hand has [ON DELETE CASCADE] for the movements); its rule, which is
    one-to-one with it, goes too. *)
Definition deleteInventarioRow (id : Id) (s : Store) : Store :=
  {| productos := productos s;
     inventarios := delete id (inventarios s);
     rules := delete id (rules s);
     alerts := filter (fun x => a_inventarioId x.2 ≠ id) (alerts s);
     notificaciones := notificaciones s;
     movimientos := List.filter (fun m => negb (String.eqb (m_inventarioId m) id))
                                (movimientos s) |}.

(** [touchedStockOrMin] *)
Definition touchedStockOrMin (data : InventarioUpdateData) : bool :=
  bool_decide (u_stock data ≠ None) || bool_decide (u_minimo data ≠ None).

(** The answer of the create and update end points:
    [{ ...inventario, stockCritical }]. *)
Record InventarioBody := {
  b_id : Id;
  b_inventario : Inventario;
  b_stockCritical : EvalResult
}.

(** [{ mov, inventario, stockCritical }] *)
Record MovimientoBody := {
  mb_mov : StockMovimiento;
  mb_inventario : Inventario;
  mb_stockCritical : EvalResult
}.

Section Controllers.

(** The constraints of the Prisma schema (unique indexes, foreign keys),
    which is not part of the sources at hand: [schemaCheck s] is the error
    the database raises when a write to the product or inventory tables
    would leave them as in [s], and [None] when it accepts the write. *)
Variable schemaCheck : Store -> option ApiError.

(** A checked write inside a transaction. *)
Definition checked (s' : Store) : ApiError + Store :=
  match schemaCheck s' with
  | Some e => inl e
  | None => inr s'
  end.

(** [POST /inventario] *)
Definition createInventario (now : Z) (parsed : InventarioCreateParsed) (s : Store)
  : Response InventarioBody * Store :=
  match assertProductoNoEsFlete (c_productoId parsed) s with
  | Some e =>
    if hasCode e "PRODUCTO_NOT_FOUND" then (JsonError 400 "productoId no existe", s)
    else (JsonError 400 "No se puede crear inventario para un flete", s)
  | None =>
    let data := normalizeInventarioCreate parsed in
    let id := freshId (inventarios s) in
    match checked (withInventarios (<[id := data]> (inventarios s)) s) with
    | inl e =>
      if hasCode e "PRODUCTO_NOT_FOUND" then (JsonError 400 "productoId no existe", s)
      else if hasCode e "PRODUCTO_ES_FLETE"
      then (JsonError 400 "No se puede crear inventario para un flete", s)
      else if hasCode e "P2003" then (JsonError 400 "productoId no existe", s)
      else if hasCode e "P2002"
      then (JsonError 409 "Inventario duplicado (productoId o código ya existe)", s)
      else (JsonError 500 (errorMessage e "Error al crear inventario"), s)
    | inr s1 =>
      match evaluateStockCritical now id s1 with
      | (inl e, s2) => (JsonError 500 (errorMessage e "Error al crear inventario"), s2)
      | (inr stockCritical, s2) =>
        (Json 201 {| b_id := id; b_inventario := data;
                     b_stockCritical := stockCritical |}, s2)
      end
    end
  end.

(** [PATCH /inventario/:id] *)
Definition updateInventario (now : Z) (id : Id) (parsed : InventarioUpdateParsed)
  (s : Store) : Response InventarioBody * Store :=
  if negb (Js.truthy id) then (JsonError 400 "ID inválido", s) else
  let data := normalizeInventarioUpdate parsed in
  match inventarios s !! id with
  | None => (JsonError 404 "Inventario no encontrado", s)
  | Some current =>
    match assertProductoNoEsFlete (i_productoId current) s with
    | Some e =>
      if hasCode e "PRODUCTO_ES_FLETE"
      then (JsonError 400 "No se puede editar inventario de un flete", s)
      else (JsonError 500 (errorMessage e "Error al actualizar inventario"), s)
    | None =>
      let actualizado := applyUpdate data current in
      match checked (withInventarios (<[id := actualizado]> (inventarios s)) s) with
      | inl e =>
        if hasCode e "PRODUCTO_ES_FLETE"
        then (JsonError 400 "No se puede editar inventario de un flete", s)
        else if hasCode e "P2025" then (JsonError 404 "Inventario no encontrado", s)
        else if hasCode e "P2002" then (JsonError 409 "Código de inventario ya existe", s)
        else (JsonError 500 (errorMessage e "Error al actualizar inventario"), s)
      | inr s1 =>
        if touchedStockOrMin data then
          match evaluateStockCritical now id s1 with
          | (inl e, s2) =>
            (JsonError 500 (errorMessage e "Error al actualizar inventario"), s2)
          | (inr stockCritical, s2) =>
            (Json 200 {| b_id := id; b_inventario := actualizado;
                         b_stockCritical := stockCritical |}, s2)
          end
        else
          (Json 200 {| b_id := id; b_inventario := actualizado;
                       b_stockCritical := noopResult None |}, s1)
      end
    end
  end.

(** [DELETE /inventario/:id] *)
Definition deleteInventario (id : Id) (s : Store) : Response unit * Store :=
  if negb (Js.truthy id) then (JsonError 400 "ID inválido", s) else
  match inventarios s !! id with
  | None => (JsonError 404 "Inventario no encontrado", s)
  | Some _ => (NoContent 204, deleteInventarioRow id s)
  end.

End Controllers.

(** ** Stock movements *)

(** The three assignments to [nuevoStock]. *)
Definition nuevoStock (tipo : TipoMovimientoStock) (stock cantidad : Z) : Z :=
  let n := stock in
  let n := if bool_decide (tipo = Entrada) then stock + cantidad else n in
  let n := if bool_decide (tipo = Salida) then stock - cantidad else n in
  let n := if bool_decide (tipo = Ajuste) then cantidad else n in
  n.

(** The body of the transaction of [createMovimientoStock]. *)
Definition createMovimientoStockTx (now : Z) (data : MovimientoCreateParsed)
  : Tx MovimientoBody :=
  fun s =>
  match inventarios s !! mv_inventarioId data with
  | None => inl INV_NOT_FOUND
  | Some inv =>
    if isFleteTipo (p_tipo <$> productos s !! i_productoId inv)
    then inl PRODUCTO_ES_FLETE
    else
    let n := nuevoStock (mv_tipo data) (i_stock inv) (mv_cantidad data) in
    if n <? 0 then inl STOCK_NEGATIVO
    else
    let mov := {| m_inventarioId := mv_inventarioId data;
                  m_tipo := mv_tipo data;
                  m_cantidad := mv_cantidad data;
                  m_nota := mv_nota data |} in
    let s1 := pushMovimiento mov s in
    let invUpdated := setStock n inv in
    let s2 := withInventarios (<[mv_inventarioId data := invUpdated]> (inventarios s1)) s1 in
    match evaluateStockCriticalTx now (mv_inventarioId data) s2 with
    | inl e => inl e
    | inr (stockCritical, s3) =>
      inr ({| mb_mov := mov; mb_inventario := invUpdated;
              mb_stockCritical := stockCritical |}, s3)
    end
  end.

(** [POST /inventario/movimientos] *)
Definition createMovimientoStock (now : Z) (parsed : MovimientoCreateParsed)
  (s : Store) : Response MovimientoBody * Store :=
  let data := normalizeMovimientoBody parsed in
  match transaction (createMovimientoStockTx now data) s with
  | (inr result, s') => (Json 201 result, s')
  | (inl e, s') =>
    if hasCode e "INV_NOT_FOUND" then (JsonError 404 "Inventario no encontrado", s')
    else if hasCode e "PRODUCTO_ES_FLETE"
    then (JsonError 400 "No se puede manejar stock para un flete", s')
    else if hasCode e "STOCK_NEGATIVO"
    then (JsonError 400 "Stock insuficiente para realizar la salida", s')
    else (JsonError 500 (errorMessage e "Error al crear movimiento de stock"), s')
  end.

(** ** Excel import *)

(** [normalizeSku] and [normalizeInvCode] differ in the prefix only. *)
Definition normalizeWithPrefix (pfx : string) (raw : string) : option string :=
  let s := Js.trim raw in
  if String.eqb s "" then None
  else if match Js.stripPrefixCI (pfx +:+ "-") s with
          | Some rest => Js.isDigits1 rest
          | None => false
          end
  then Some (Js.toUpperCase s)
  else if Js.isDigits1 s then Some (pfx +:+ "-" +:+ s)
  else match Js.stripPrefixCI pfx s with
       | Some rest =>
         let digits := Js.dropNonDigits rest in
         if Js.isDigits1 digits
         then Some (Js.toUpperCase (pfx +:+ "-" +:+ digits))
         else Some (Js.toUpperCase s)
       | None => Some (Js.toUpperCase s)
       end.

Definition normalizeSku : string -> option string := normalizeWithPrefix "SKU".
Definition normalizeInvCode : string -> option string := normalizeWithPrefix "INV".

(** [toInt(raw, def)] on [n = Number(raw)] *)
Definition toInt (n : JsNumber) (def : Z) : Z :=
  match n with
  | JsFinite q => Qtrunc q
  | _ => def
  end.

Definition toNonNegInt (raw : JsNumber) (def : Z) : Z :=
  let n := toInt raw def in if n <? 0 then def else n.

Definition toNonNegMoney (raw : JsNumber) (def : Z) : Z :=
  let n := toInt raw def in if n <? 0 then def else n.

(** [values.find(pred)] followed by a truthiness test of what was found. *)
Definition findTruthy (pred : string -> bool) (values : list string) : option string :=
  match List.find pred values with
  | Some v => if Js.truthy v then Some v else None
  | None => None
  end.

(** [mapTipoToPrismaEnum], over the values of the Prisma enum
    [ProductoTipo]. *)
Definition mapTipoToPrismaEnum (PRODUCTO_TIPO_VALUES : list string) (raw : string)
  : option string :=
  let s := Js.trim raw in
  if String.eqb s "" then None else
  let lower := Js.toLowerCase s in
  match findTruthy (fun v => String.eqb v s) PRODUCTO_TIPO_VALUES with
  | Some exact => Some exact
  | None =>
    match findTruthy (fun v => String.eqb (Js.toLowerCase v) lower) PRODUCTO_TIPO_VALUES with
    | Some ciExact => Some ciExact
    | None =>
      if Js.includes "flet" lower
      then List.find (fun v => Js.includes "flet" (Js.toLowerCase v)) PRODUCTO_TIPO_VALUES
      else if Js.includes "prod" lower
      then List.find (fun v => negb (Js.includes "flet" (Js.toLowerCase v))) PRODUCTO_TIPO_VALUES
      else None
    end
  end.

(** A row of the sheet after [normalizeHeaderKey], each cell coerced the
    way [parseImportRow] reads it. *)
Record RawRow := {
  raw_sku : string;
  raw_codigo : string;
  raw_nombre : string;
  raw_tipo : string;
  raw_precio : JsNumber;
  raw_stock : JsNumber;
  raw_minimo : JsNumber;
  raw_fotourl : string
}.

Record ImportRow := {
  row_sku : string;
  row_codigo : option string;
  row_nombre : string;
  row_tipo : string;
  row_precio : Z;
  row_stock : Z;
  row_minimo : Z;
  row_fotoUrl : option string
}.

(** [!x] for a nullable string. *)
Definition falsy (x : option string) : bool :=
  match x with
  | None => true
  | Some v => negb (Js.truthy v)
  end.

Definition parseImportRow (PRODUCTO_TIPO_VALUES : list string) (obj : RawRow)
  : string + ImportRow :=
  let sku := normalizeSku (raw_sku obj) in
  let codigo := normalizeInvCode (raw_codigo obj) in
  let nombre := Js.trim (raw_nombre obj) in
  let tipo := mapTipoToPrismaEnum PRODUCTO_TIPO_VALUES (raw_tipo obj) in
  let precio := toNonNegMoney (raw_precio obj) 0 in
  let stock := toNonNegInt (raw_stock obj) 0 in
  let minimo := toNonNegInt (raw_minimo obj) 0 in
  let fotoUrl := let f := Js.trim (raw_fotourl obj) in
                 if Js.truthy f then Some f else None in
  if falsy sku then inl "sku es obligatorio"
  else if negb (Js.truthy nombre) then inl "nombre es obligatorio"
  else if falsy tipo
  then inl ("tipo inválido. Valores permitidos: "
            +:+ String.concat ", " PRODUCTO_TIPO_VALUES)
  else if negb (isFleteTipo tipo) && falsy codigo
  then inl "codigo es obligatorio para Producto (INV-xxx)"
  else inr {| row_sku := default "" sku;
              row_codigo := codigo;
              row_nombre := nombre;
              row_tipo := default "" tipo;
              row_precio := precio;
              row_stock := stock;
              row_minimo := minimo;
              row_fotoUrl := fotoUrl |}.

Record ImportFlags := {
  productoCreated : bool;
  productoUpdated : bool;
  invCreated : bool;
  invUpdated : bool;
  invId : option Id
}.

Record RowError := {
  row : Z;
  error : string
}.

Record ImportAcc := {
  errores : list RowError;
  createdProductos : Z;
  updatedProductos : Z;
  createdInventarios : Z;
  updatedInventarios : Z
}.

Record ImportReport := {
  rep_ok : bool;
  rep_message : string;
  rep_total : Z;
  rep_counts : ImportAcc
}.

Definition emptyAcc : ImportAcc :=
  {| errores := []; createdProductos := 0; updatedProductos := 0;
     createdInventarios := 0; updatedInventarios := 0 |}.

Definition pushError (excelRowNumber : Z) (msg : string) (acc : ImportAcc) : ImportAcc :=
  {| errores := errores acc ++ [{| row := excelRowNumber; error := msg |}];
     createdProductos := createdProductos acc;
     updatedProductos := updatedProductos acc;
     createdInventarios := createdInventarios acc;
     updatedInventarios := updatedInventarios acc |}.

Definition incr (b : bool) (n : Z) : Z := if b then n + 1 else n.

Definition countFlags (flags : ImportFlags) (acc : ImportAcc) : ImportAcc :=
  {| errores := errores acc;
     createdProductos := incr (productoCreated flags) (createdProductos acc);
     updatedProductos := incr (productoUpdated flags) (updatedProductos acc);
     createdInventarios := incr (invCreated flags) (createdInventarios acc);
     updatedInventarios := incr (invUpdated flags) (updatedInventarios acc) |}.

(** [tx.producto.findFirst({ where: { sku } })] *)
Definition findProductoBySku (sku : string) (m : gmap string Producto)
  : option (Id * Producto) :=
  List.find (fun x => bool_decide (p_sku x.2 = Some sku)) (map_to_list m).

(** [tx.inventario.findFirst({ where: { productoId } })] *)
Definition findInventarioByProducto (productoId : Id) (m : gmap string Inventario)
  : option (Id * Inventario) :=
  List.find (fun x => String.eqb (i_productoId x.2) productoId) (map_to_list m).

(** [tx.inventario.deleteMany({ where: { productoId } })] *)
Definition deleteInventariosDeProducto (productoId : Id) (s : Store) : Store :=
  foldr deleteInventarioRow s
        (List.map fst (List.filter (fun x => String.eqb (i_productoId x.2) productoId)
                                   (map_to_list (inventarios s)))).

Definition productoOfRow (r : ImportRow) : Producto :=
  {| p_sku := Some (row_sku r);
     p_nombre := row_nombre r;
     p_tipo := row_tipo r;
     p_precioGeneral := row_precio r;
     p_precioConDescto := row_precio r;
     p_fotoUrl := row_fotoUrl r;
     p_unidadMedida := "unidad" |}.

(** [data: { codigo: row.codigo, stock: row.stock, minimo: row.minimo }] *)
Definition inventarioFromRow (r : ImportRow) (inv : Inventario) : Inventario :=
  {| i_productoId := i_productoId inv;
     i_codigo := row_codigo r;
     i_stock := row_stock r;
     i_minimo := row_minimo r;
     i_ubicacion := i_ubicacion inv |}.

Definition newInventarioOfRow (productoId : Id) (r : ImportRow) : Inventario :=
  {| i_productoId := productoId;
     i_codigo := row_codigo r;
     i_stock := row_stock r;
     i_minimo := row_minimo r;
     i_ubicacion := None |}.

Section ImportExcel.

Variable schemaCheck : Store -> option ApiError.
Variable PRODUCTO_TIPO_VALUES : list string.

(** The body of the transaction that imports one row. *)
Definition importRowTx (now : Z) (r : ImportRow) : Tx ImportFlags :=
  fun s =>
  let existing := findProductoBySku (row_sku r) (productos s) in
  let productoId := match existing with
                    | Some (id, _) => id
                    | None => freshId (productos s)
                    end in
  match checked schemaCheck
          (withProductos (<[productoId := productoOfRow r]> (productos s)) s) with
  | inl e => inl e
  | inr s1 =>
    if negb (isFleteTipo (Some (row_tipo r))) then
      let invExisting := findInventarioByProducto productoId (inventarios s1) in
      let id := match invExisting with
                | Some (id, _) => id
                | None => freshId (inventarios s1)
                end in
      let inv := match invExisting with
                 | Some (_, old) => inventarioFromRow r old
                 | None => newInventarioOfRow productoId r
                 end in
      match checked schemaCheck
              (withInventarios (<[id := inv]> (inventarios s1)) s1) with
      | inl e => inl e
      | inr s2 =>
        let flags := {| productoCreated := negb (bool_decide (is_Some existing));
                        productoUpdated := bool_decide (is_Some existing);
                        invCreated := negb (bool_decide (is_Some invExisting));
                        invUpdated := bool_decide (is_Some invExisting);
                        invId := Some id |} in
        if Js.truthy id then
          match evaluateStockCriticalTx now id s2 with
          | inl e => inl e
          | inr (_, s3) => inr (flags, s3)
          end
        else inr (flags, s2)
      end
    else
      inr ({| productoCreated := negb (bool_decide (is_Some existing));
              productoUpdated := bool_decide (is_Some existing);
              invCreated := false;
              invUpdated := false;
              invId := None |},
           deleteInventariosDeProducto productoId s1)
  end.

(** The message recorded for a row whose transaction threw. *)
Definition persistenceMessage (e : ApiError) : string :=
  if hasCode e "P2002" then "Duplicado (SKU o código ya existe)"
  else if hasCode e "P2003" then "FK inválida (productoId relacionado)"
  else if Js.truthy (e_message e) then e_message e
  else "Error desconocido".

(** One turn of the loop of [importInventarioExcel], for the row of index
    [i]; [now] is the time at which its transaction runs. *)
Definition importOne (now : Z) (i : nat) (raw : RawRow) (st : ImportAcc * Store)
  : ImportAcc * Store :=
  let excelRowNumber := Z.of_nat i + 2 in
  match parseImportRow PRODUCTO_TIPO_VALUES raw with
  | inl msg => (pushError excelRowNumber msg st.1, st.2)
  | inr r =>
    match transaction (importRowTx now r) st.2 with
    | (inr flags, s') => (countFlags flags st.1, s')
    | (inl e, s') => (pushError excelRowNumber (persistenceMessage e) st.1, s')
    end
  end.

(** The loop, from index [i] on; [clock j] is the time of the [j]-th turn. *)
Fixpoint importLoop (clock : nat -> Z) (i : nat) (rows : list RawRow)
  (st : ImportAcc * Store) : ImportAcc * Store :=
  match rows with
  | [] => st
  | raw :: rest => importLoop clock (S i) rest (importOne (clock i) i raw st)
  end.

(** [POST /inventario/import-excel], from the normalized rows of the first
    sheet on. *)
Definition importInventarioExcel (clock : nat -> Z) (normalizedRows : list RawRow)
  (s : Store) : Response ImportReport * Store :=
  match normalizedRows with
  | [] => (JsonError 400 "El Excel está vacío (sin filas).", s)
  | _ =>
    let '(acc, s') := importLoop clock 0 normalizedRows (emptyAcc, s) in
    let n := Z.of_nat (length (errores acc)) in
    (Json 200 {| rep_ok := bool_decide (n = 0);
                 rep_message := if bool_decide (n = 0) then "Importación completa."
                                else "Importación completada con " +:+ pretty n
                                     +:+ " error(es).";
                 rep_total := Z.of_nat (length normalizedRows);
                 rep_counts := acc |}, s')
  end.

End ImportExcel.

(** ** Requests and reachable stores *)

Section Requests.

Variable schemaCheck : Store -> option ApiError.
Variable PRODUCTO_TIPO_VALUES : list string.

(** The requests that touch stock, thresholds or alerts. *)
Inductive Op :=
| OpEvaluate (now : Z) (inventarioId : Id)
| OpCreateInventario (now : Z) (parsed : InventarioCreateParsed)
| OpUpdateInventario (now : Z) (id : Id) (parsed : InventarioUpdateParsed)
| OpDeleteInventario (id : Id)
| OpCreateMovimientoStock (now : Z) (parsed : MovimientoCreateParsed)
| OpImportExcel (clock : nat -> Z) (normalizedRows : list RawRow)
| OpAck (now : Z) (id : Id)
| OpResolve (now : Z) (id : Id).

(** The store a request leaves behind. *)
Definition step (s : Store) (o : Op) : Store :=
  match o with
  | OpEvaluate now i => (evaluateStockCritical now i s).2
  | OpCreateInventario now parsed => (createInventario schemaCheck now parsed s).2
  | OpUpdateInventario now id parsed => (updateInventario schemaCheck now id parsed s).2
  | OpDeleteInventario id => (deleteInventario id s).2
  | OpCreateMovimientoStock now parsed => (createMovimientoStock now parsed s).2
  | OpImportExcel clock rows =>
    (importInventarioExcel schemaCheck PRODUCTO_TIPO_VALUES clock rows s).2
  | OpAck now id => (ackStockAlert now id s).2
  | OpResolve now id => (resolveStockAlert now id s).2
  end.

Definition run (ops : list Op) (s : Store) : Store := fold_left step ops s.

(** The message with which a row fails against the store [s], if it does:
    at validation, or when its transaction throws. *)
Definition rowFailure (now : Z) (raw : RawRow) (s : Store) : option string :=
  match parseImportRow PRODUCTO_TIPO_VALUES raw with
  | inl msg => Some msg
  | inr r =>
    match importRowTx schemaCheck now r s with
    | inl e => Some (persistenceMessage e)
    | inr _ => None
    end
  end.

End Requests.

(** ** Predicates used in the statements *)

Definition noActiveAlert (i : Id) (s : Store) : Prop :=
  forall id a, alerts s !! id = Some a -> a_inventarioId a = i -> a_isActive a = false.

Definition oneActivePerInventario (s : Store) : Prop :=
  forall id1 id2 a1 a2,
    alerts s !! id1 = Some a1 -> alerts s !! id2 = Some a2 ->
    a_isActive a1 = true -> a_isActive a2 = true ->
    a_inventarioId a1 = a_inventarioId a2 ->
    id1 = id2.

(** Every active alert of [s'] was already an active alert of the same
    inventory in [s]. *)
Definition noNewActive (s s' : Store) : Prop :=
  forall id a', alerts s' !! id = Some a' -> a_isActive a' = true ->
    exists a, alerts s !! id = Some a /\ a_isActive a = true
              /\ a_inventarioId a = a_inventarioId a'.

Definition distinctActive (x y : Id * StockAlert) : bool :=
  implb (a_isActive x.2 && a_isActive y.2
         && String.eqb (a_inventarioId x.2) (a_inventarioId y.2))
        (String.eqb x.1 y.1).

Definition oneActiveb (s : Store) : bool :=
  let l := map_to_list (alerts s) in
  forallb (fun x => forallb (distinctActive x) l) l.


(** Rows that went through: each one created or updated one product. *)
Definition processed (acc : ImportAcc) : Z :=
  createdProductos acc + updatedProductos acc.


(** The errors recorded before the turn of index [i]: in increasing row
    order, with rows between 2 and [i + 1]. *)
Definition erroresOrdenados (i : nat) (acc : ImportAcc) : Prop :=
  StronglySorted Z.lt (row <$> errores acc)
  /\ Forall (fun e => 2 <= row e < Z.of_nat i + 2) (errores acc).

(** ** Example stores and requests *)

Definition sinRestricciones : Store -> option ApiError := fun _ => None.

Definition tiposEjemplo : list string := ["Producto"; "Flete"].

Definition clavo : Producto :=
  {| p_sku := Some "SKU-1"; p_nombre := "Clavo"; p_tipo := "Producto";
     p_precioGeneral := 100; p_precioConDescto := 100; p_fotoUrl := None;
     p_unidadMedida := "unidad" |}.

Definition inventarioClavo : Inventario :=
  {| i_productoId := "p1"; i_codigo := Some "INV-1"; i_stock := 2;
     i_minimo := 5; i_ubicacion := None |}.

(** An open, active alert notified at time 0. *)
Definition alertaAbierta : StockAlert :=
  {| a_inventarioId := "i1"; a_threshold := 5; a_stockAtAlert := 2;
     a_status := OPEN; a_isActive := true; a_openedAt := 0;
     a_lastSentAt := Some 0; a_ackAt := None; a_resolvedAt := None;
     a_channel := Some "system"; a_meta := None |}.

Definition alertaVista : StockAlert := ackAlert 10 alertaAbierta.
Definition alertaCerrada : StockAlert := closeAlert 20 alertaAbierta.

Definition conAlerta (a : StockAlert) : Store :=
  {| productos := {[ "p1" := clavo ]};
     inventarios := {[ "i1" := inventarioClavo ]};
     rules := ∅;
     alerts := {[ "a1" := a ]};
     notificaciones := [];
     movimientos := [] |}.

(** Critical stock (2 against a minimum of 5) with its alert open. *)
Definition almacen : Store := conAlerta alertaAbierta.

(** Only the product, no inventory yet. *)
Definition tienda : Store := withProductos {[ "p1" := clavo ]} emptyStore.

Definition soloStock (n : Z) : InventarioUpdateParsed :=
  {| up_codigo := None; up_ubicacion := None; up_stock := Some n; up_minimo := None |}.

Definition soloUbicacion (u : string) : InventarioUpdateParsed :=
  {| up_codigo := None; up_ubicacion := Some u; up_stock := None; up_minimo := None |}.

Definition movimiento (tipo : TipoMovimientoStock) (cantidad : Z) : MovimientoCreateParsed :=
  {| mv_inventarioId := "i1"; mv_tipo := tipo; mv_cantidad := cantidad;
     mv_nota := None |}.

Definition fila (sku codigo nombre tipo : string) (stock : JsNumber) : RawRow :=
  {| raw_sku := sku; raw_codigo := codigo; raw_nombre := nombre; raw_tipo := tipo;
     raw_precio := JsFinite (100 # 1); raw_stock := stock;
     raw_minimo := JsFinite (3 # 1); raw_fotourl := "" |}.

Definition reloj (i : nat) : Z := 1000 * Z.of_nat i.

(** Three rows; the second one has a [tipo] that maps to nothing. *)
Definition lote : list RawRow :=
  [fila "1" "1" "Clavo" "producto" (JsFinite (2 # 1));
   fila "2" "2" "Perno" "otro" (JsFinite (7 # 1));
   fila "3" "3" "Tuerca" "Producto" (JsFinite (9 # 1))].

(** A row with a price that is not a number, a negative stock and an
    infinite minimum. *)
Definition filaRara : RawRow :=
  {| raw_sku := "7"; raw_codigo := "7"; raw_nombre := "Golilla"; raw_tipo := "Producto";
     raw_precio := JsNaN; raw_stock := JsFinite (-5 # 2);
     raw_minimo := JsInfinity false; raw_fotourl := "" |}.

(** A schema with a unique index on the inventory codes. *)
Definition codigoUnico (s : Store) : option ApiError :=
  let codigos := omap (fun x : Id * Inventario => i_codigo x.2)
                      (map_to_list (inventarios s)) in
  if bool_decide (NoDup codigos) then None
  else Some {| e_message := "Unique constraint failed on the fields: (`codigo`)";
               e_code := Some "P2002" |}.

(** Three rows; the second one repeats the code of the first. *)
Definition loteDuplicado : list RawRow :=
  [fila "1" "1" "Clavo" "producto" (JsFinite (2 # 1));
   fila "2" "1" "Perno" "producto" (JsFinite (7 # 1));
   fila "3" "3" "Tuerca" "Producto" (JsFinite (9 # 1))].

(** The store that an evaluation leaves behind. *)
Definition trasEvaluar (now : Z) (i : Id) (s : Store) : Store :=
  match evaluateStockCriticalTx now i s with
  | inr (_, s') => s'
  | inl _ => s
  end.

Definition reenvio : EvalResult :=
  {| action := resent; alertId := Some "a1"; reason := None |}.

(** The flags and the store that the transaction of an import row leaves
    behind (the store as it was when the transaction fails). *)
Definition trasImportar (schemaCheck : Store -> option ApiError) (now : Z)
  (r : ImportRow) (s : Store) : ImportFlags * Store :=
  match importRowTx schemaCheck now r s with
  | inr x => x
  | inl _ => ({| productoCreated := false; productoUpdated := false;
                 invCreated := false; invUpdated := false; invId := None |}, s)
  end.

Definition filaClavo (nombre tipo : string) (codigo : option string) (stock : Z)
  : ImportRow :=
  {| row_sku := "SKU-1"; row_codigo := codigo; row_nombre := nombre;
     row_tipo := tipo; row_precio := 100; row_stock := stock; row_minimo := 3;
     row_fotoUrl := None |}.


Definition nuevoInventario (stock minimo : Z) : InventarioCreateParsed :=
  {| c_productoId := "p1"; c_codigo := Some "INV-1"; c_stock := stock;
     c_minimo := minimo; c_ubicacion := None |}.

(** ** Validated bodies and stock that is not negative *)

(** The bounds that [inventarioSchema] puts on a body: [stock] and
    [minimo] are at least 0. *)
Definition validCreate (b : InventarioCreateParsed) : Prop :=
  0 <= c_stock b /\ 0 <= c_minimo b.

(** [inventarioUpdateSchema]: the same bounds on the fields that are sent. *)
Definition validUpdate (b : InventarioUpdateParsed) : Prop :=
  (forall n, up_stock b = Some n -> 0 <= n)
  /\ (forall n, up_minimo b = Some n -> 0 <= n).

Definition validOp (o : Op) : Prop :=
  match o with
  | OpCreateInventario _ b => validCreate b
  | OpUpdateInventario _ _ b => validUpdate b
  | _ => True
  end.

Definition nonNegative (s : Store) : Prop :=
  forall i inv, inventarios s !! i = Some inv -> 0 <= i_stock inv /\ 0 <= i_minimo inv.

(** ** Listing and counting alerts *)

Definition statusOfString (v : string) : option AlertStatus :=
  if String.eqb v "OPEN" then Some OPEN
  else if String.eqb v "ACK" then Some ACK
  else if String.eqb v "RESOLVED" then Some RESOLVED
  else None.

(** The status asked for: [req.query.status], upper-cased, when it is one
    of the three values, and [OPEN] otherwise.  [q] is
    [String(req.query.status)] when the parameter is present. *)
Definition queryStatus (q : option string) : AlertStatus :=
  let statusRaw := match q with
                   | Some v => if Js.truthy v then Js.toUpperCase v else "OPEN"
                   | None => "OPEN"
                   end in
  default OPEN (statusOfString statusRaw).

(** [orderBy: { openedAt: "desc" }] *)
Definition newerFirst (x y : string * StockAlert) : Prop :=
  a_openedAt y.2 <= a_openedAt x.2.

Global Instance newerFirst_dec : RelDecision newerFirst.
Proof. intros x y. unfold newerFirst. apply _. Defined.

(** [where: { status }] *)
Definition alertsWithStatus (st : AlertStatus) (m : gmap string StockAlert)
  : list (string * StockAlert) :=
  filter (fun x => a_status x.2 = st) (map_to_list m).

(** An alert with [include: { inventario: { include: { producto: true } } }]. *)
Record AlertRow := {
  al_id : Id;
  al_alert : StockAlert;
  al_inventario : option (Inventario * option Producto)
}.

Definition alertRow (s : Store) (x : string * StockAlert) : AlertRow :=
  {| al_id := x.1;
     al_alert := x.2;
     al_inventario :=
       (fun inv => (inv, productos s !! i_productoId inv))
         <$> inventarios s !! a_inventarioId x.2 |}.

(** [GET /api/stock-alerts?status=...] *)
Definition listStockAlerts (q : option string) (s : Store) : Response (list AlertRow) :=
  let status := queryStatus q in
  Json 200 (alertRow s
              <$> take 200 (merge_sort newerFirst (alertsWithStatus status (alerts s)))).

(** [GET /api/stock-alerts/count?status=...], answering [{ status, count }]. *)
Definition countStockAlerts (q : option string) (s : Store)
  : Response (AlertStatus * Z) :=
  let status := queryStatus q in
  Json 200 (status, Z.of_nat (length (alertsWithStatus status (alerts s)))).

(** A string that does not start with white space. *)
Definition noLead (s : string) : Prop :=
  match s with
  | String c _ => Js.isSpace c = false
  | EmptyString => True
  end.


(** ** CRM quotations: date range and pages *)

Inductive CrmEstado := NUEVA | EN_REVISION | RESPONDIDA | CERRADA.

(** The value of a request that [listQuerySchema] has accepted. *)
Record ListQuery := {
  lq_estado : option CrmEstado;
  lq_q : option string;
  lq_from : option string;
  lq_to : option string;
  lq_page : Z;
  lq_pageSize : Z
}.

(** The bounds of [listQuerySchema] on [page] and [pageSize]. *)
Definition validListQuery (query : ListQuery) : Prop :=
  1 <= lq_page query /\ 1 <= lq_pageSize query <= 200.

(** What [parseDate] returns: [undefined], [null] or a date (in ms). *)
Inductive ParsedDate := DateUndefined | DateNull | DateValue (t : Z).

Record DateRange := { gte : option Z; lte : option Z }.

Record Issue := { path : list string; message : string }.

(** The [where] argument of the two queries; the six [contains] filters
    of [OR] share the search text. *)
Record CrmWhere := {
  w_estado : option CrmEstado;
  w_createdAt : option DateRange;
  w_OR : option string
}.

Record CrmMeta := {
  meta_page : Z;
  meta_pageSize : Z;
  meta_total : Z;
  meta_totalPages : Z
}.

Inductive CrmResponse (A : Type) :=
| CrmOk (data : list A) (meta : CrmMeta)
| CrmValidationError (issues : list Issue).
Arguments CrmOk {A} data meta.
Arguments CrmValidationError {A} issues.

Definition dateValue (d : ParsedDate) : option Z :=
  match d with
  | DateValue t => Some t
  | _ => None
  end.

Section Crm.

(** [new Date(value).getTime()], [None] when it is [NaN]. *)
Variable getTime : string -> option Z.

(** The rows of [ecommerce_cotizacion], their [createdAt] and the filter
    that the database applies for a [where]. *)
Variable Cotizacion : Type.
Variable createdAt : Cotizacion -> Z.
Variable matchesWhere : CrmWhere -> Cotizacion -> bool.

(** [parseDate] *)
Definition parseDate (value : option string) : ParsedDate :=
  match value with
  | None => DateUndefined
  | Some v =>
    if negb (Js.truthy v) then DateUndefined
    else match getTime v with
         | None => DateNull
         | Some t => DateValue t
         end
  end.

(** [buildRange] *)
Definition buildRange (from to : option string) : Issue + option DateRange :=
  match parseDate from with
  | DateNull => inl {| path := ["from"]; message := "from invalido" |}
  | fromDate =>
    match parseDate to with
    | DateNull => inl {| path := ["to"]; message := "to invalido" |}
    | toDate =>
      match fromDate, toDate with
      | DateUndefined, DateUndefined => inr None
      | _, _ => inr (Some {| gte := dateValue fromDate; lte := dateValue toDate |})
      end
    end
  end.

(** [orderBy: { createdAt: "desc" }] *)
Definition newerCreated (x y : Cotizacion) : Prop := createdAt y <= createdAt x.

Definition newerCreated_dec : RelDecision newerCreated :=
  fun x y => Z_le_dec (createdAt y) (createdAt x).

(** [prisma.ecommerce_cotizacion.count({ where })] *)
Definition crmCount (w : CrmWhere) (table : list Cotizacion) : Z :=
  Z.of_nat (length (List.filter (matchesWhere w) table)).

(** [prisma.ecommerce_cotizacion.findMany({ where, orderBy, take, skip })] *)
Definition crmFindMany (w : CrmWhere) (take_ skip : Z) (table : list Cotizacion)
  : list Cotizacion :=
  take (Z.to_nat take_)
       (drop (Z.to_nat skip)
             (@merge_sort _ newerCreated newerCreated_dec
                          (List.filter (matchesWhere w) table))).

(** [GET /api/crm/cotizaciones] *)
Definition listCrmCotizaciones (query : ListQuery) (table : list Cotizacion)
  : CrmResponse Cotizacion :=
  match buildRange (lq_from query) (lq_to query) with
  | inl issue => CrmValidationError [issue]
  | inr range =>
    let page := lq_page query in
    let pageSize := lq_pageSize query in
    let trimmedQ := Js.trim <$> lq_q query in
    let skip := (page - 1) * pageSize in
    let where_ := {| w_estado := lq_estado query;
                     w_createdAt := range;
                     w_OR := match trimmedQ with
                             | Some t => if Js.truthy t then Some t else None
                             | None => None
                             end |} in
    let total := crmCount where_ table in
    let data := crmFindMany where_ pageSize skip table in
    CrmOk data
          {| meta_page := page;
             meta_pageSize := pageSize;
             meta_total := total;
             meta_totalPages :=
               Z.max 1 (Qceiling (inject_Z total / inject_Z pageSize)) |}
  end.

End Crm.

Arguments newerCreated {Cotizacion} createdAt x y.
Arguments newerCreated_dec {Cotizacion} createdAt x y.
Arguments crmCount {Cotizacion} matchesWhere w table.
Arguments crmFindMany {Cotizacion} createdAt matchesWhere w take_ skip table.
Arguments listCrmCotizaciones getTime {Cotizacion} createdAt matchesWhere query table.

Definition withPage (p : Z) (query : ListQuery) : ListQuery :=
  {| lq_estado := lq_estado query; lq_q := lq_q query; lq_from := lq_from query;
     lq_to := lq_to query; lq_page := p; lq_pageSize := lq_pageSize query |}.

Definition crmData {A : Type} (r : CrmResponse A) : list A :=
  match r with
  | CrmOk data _ => data
  | CrmValidationError _ => []
  end.

(** Five quotations, given by their creation times, and the second page
    of two. *)
Definition consulta : ListQuery :=
  {| lq_estado := None; lq_q := Some " clavo "; lq_from := None; lq_to := Some "";
     lq_page := 2; lq_pageSize := 2 |}.

Definition cotizaciones : list Z := [5; 1; 4; 2; 3].

Definition sinFechas : string -> option Z := fun _ => None.

Definition todas : CrmWhere -> Z -> bool := fun _ _ => true.

(** * Properties *)

(** ** The active alert of an inventory *)

Lemma mostRecent_fold_In (l : list (Id * StockAlert)) (x : Id * StockAlert) :
  foldr mostRecent None l = Some x -> In x l.
Proof.
  revert x. induction l as [|y l IH]; intros x; simpl; [discriminate|].
  unfold mostRecent at 1.
  destruct (foldr mostRecent None l) as [b|] eqn:E.
  - destruct (a_openedAt b.2 <? a_openedAt y.2); intros [= <-]; auto.
  - intros [= <-]; auto.
Qed.

Lemma mostRecent_fold_None (l : list (Id * StockAlert)) :
  foldr mostRecent None l = None -> l = [].
Proof.
  destruct l as [|y l]; [reflexivity|]. simpl. unfold mostRecent at 1.
  destruct (foldr mostRecent None l) as [b|]; [|discriminate].
  destruct (a_openedAt b.2 <? a_openedAt y.2); discriminate.
Qed.

Lemma activeFor_true (i : Id) (x : Id * StockAlert) :
  activeFor i x = true <-> a_inventarioId x.2 = i /\ a_isActive x.2 = true.
Proof.
  unfold activeFor. rewrite andb_true_iff, String.eqb_eq. reflexivity.
Qed.

Lemma findFirstActive_Some (i : Id) (m : gmap string StockAlert) (id : Id) (a : StockAlert) :
  findFirstActive i m = Some (id, a) ->
  m !! id = Some a /\ a_inventarioId a = i /\ a_isActive a = true.
Proof.
  unfold findFirstActive. intros H%mostRecent_fold_In.
  apply filter_In in H as [Hin Hact].
  apply list_elem_of_In, elem_of_map_to_list in Hin.
  apply activeFor_true in Hact. auto.
Qed.

Lemma findFirstActive_None (i : Id) (m : gmap string StockAlert) (id : Id) (a : StockAlert) :
  findFirstActive i m = None ->
  m !! id = Some a -> a_inventarioId a = i -> a_isActive a = false.
Proof.
  unfold findFirstActive. intros H%mostRecent_fold_None Hm Hi.
  destruct (a_isActive a) eqn:Ea; [|reflexivity].
  assert (Hin : In (id, a) (List.filter (activeFor i) (map_to_list m))).
  { apply filter_In. split.
    - apply list_elem_of_In, elem_of_map_to_list. exact Hm.
    - apply activeFor_true. auto. }
  rewrite H in Hin. destruct Hin.
Qed.

(** The id of a new row is not a key of the table, and is not empty. *)
Lemma freshId_fresh {A} (m : gmap string A) : m !! freshId m = None.
Proof.
  assert (H : freshId m ∉ ({[""]} ∪ dom m : gset string)) by apply is_fresh.
  apply not_elem_of_dom. set_solver.
Qed.

Lemma freshId_truthy {A} (m : gmap string A) : Js.truthy (freshId m) = true.
Proof.
  assert (H : freshId m ∉ ({[""]} ∪ dom m : gset string)) by apply is_fresh.
  unfold Js.truthy. destruct (String.eqb (freshId m) "") eqn:E; [|reflexivity].
  apply String.eqb_eq in E. rewrite E in H. set_solver.
Qed.

(** ** At most one active alert per inventory *)

Lemma noNewActive_refl (s : Store) : noNewActive s s.
Proof. intros id a H1 H2. eauto. Qed.

Lemma noNewActive_same (s s' : Store) : alerts s' = alerts s -> noNewActive s s'.
Proof. intros E id a H1 H2. rewrite E in H1. eauto. Qed.

Lemma noNewActive_trans (s1 s2 s3 : Store) :
  noNewActive s1 s2 -> noNewActive s2 s3 -> noNewActive s1 s3.
Proof.
  intros H12 H23 id a3 H3 Hact.
  destruct (H23 _ _ H3 Hact) as (a2 & H2 & Hact2 & E2).
  destruct (H12 _ _ H2 Hact2) as (a1 & H1 & Hact1 & E1).
  exists a1. repeat split; auto. congruence.
Qed.

Lemma noNewActive_one (s s' : Store) :
  noNewActive s s' -> oneActivePerInventario s -> oneActivePerInventario s'.
Proof.
  intros Hn Hone id1 id2 a1 a2 H1 H2 Hact1 Hact2 E.
  destruct (Hn _ _ H1 Hact1) as (b1 & Hb1 & Hb1a & E1).
  destruct (Hn _ _ H2 Hact2) as (b2 & Hb2 & Hb2a & E2).
  apply (Hone id1 id2 b1 b2); auto. congruence.
Qed.

(** Rewriting one alert without activating it or moving it to another
    inventory. *)
Lemma noNewActive_rewrite (s : Store) (id : Id) (a a' : StockAlert) (s' : Store) :
  alerts s !! id = Some a ->
  alerts s' = <[id := a']> (alerts s) ->
  (a_isActive a' = true -> a_isActive a = true) ->
  a_inventarioId a' = a_inventarioId a ->
  noNewActive s s'.
Proof.
  intros Ha E Hact Hinv k b Hb Hbact. rewrite E in Hb.
  destruct (decide (id = k)) as [<-|Hne].
  - rewrite lookup_insert_eq in Hb. injection Hb as <-. exists a. auto.
  - rewrite lookup_insert_ne in Hb by exact Hne. eauto.
Qed.

Lemma alerts_stampRuleIfAny now i rule s :
  alerts (stampRuleIfAny now i rule s) = alerts s.
Proof. destruct rule; reflexivity. Qed.

Lemma oneActive_emptyStore : oneActivePerInventario emptyStore.
Proof. intros id1 id2 a1 a2 H. simpl in H. rewrite lookup_empty in H. discriminate. Qed.

(** ** What an evaluation does to the store *)

(** The outcomes of the evaluator, read off its result. *)
Lemma evaluateStockCriticalTx_cases (now : Z) (i : Id) (s s' : Store) (r : EvalResult) :
  evaluateStockCriticalTx now i s = inr (r, s') ->
  (action r = noop /\ alertId r = None /\ s' = s)
  \/ (action r = created /\ findFirstActive i (alerts s) = None
      /\ alertId r = Some (freshId (alerts s))
      /\ exists a, a_inventarioId a = i /\ a_isActive a = true
                   /\ a_status a = OPEN
                   /\ alerts s' = <[freshId (alerts s) := a]> (alerts s))
  \/ (action r = resent
      /\ exists id a, findFirstActive i (alerts s) = Some (id, a)
                      /\ alertId r = Some id
                      /\ exists threshold stock,
                         alerts s' = <[id := resendAlert now threshold stock a]> (alerts s))
  \/ (action r = resolved
      /\ exists id a, findFirstActive i (alerts s) = Some (id, a)
                      /\ alertId r = Some id
                      /\ s' = withAlerts (<[id := closeAlert now a]> (alerts s)) s).
Proof.
  unfold evaluateStockCriticalTx. intros H.
  repeat (case_match; simplify_eq/=);
    try (left; repeat split; reflexivity).
  - right; right; left. split; [reflexivity|].
    eexists _, _. split; [reflexivity|]. split; [reflexivity|].
    eexists _, _. rewrite alerts_stampRuleIfAny. reflexivity.
  - right; left. split; [reflexivity|]. split; [reflexivity|].
    split; [reflexivity|].
    match goal with
    | |- context [newAlert ?n ?j ?t ?v ?q] => exists (newAlert n j t v q)
    end.
    rewrite alerts_stampRuleIfAny. repeat split.
  - right; right; right. split; [reflexivity|]. eexists _, _. auto.
Qed.

(** The evaluator writes to the alert, rule and notification tables only. *)
Lemma evaluateStockCriticalTx_frame (now : Z) (i : Id) (s s' : Store) (r : EvalResult) :
  evaluateStockCriticalTx now i s = inr (r, s') ->
  productos s' = productos s /\ inventarios s' = inventarios s
  /\ movimientos s' = movimientos s.
Proof.
  unfold evaluateStockCriticalTx. intros H.
  repeat (case_match; simplify_eq/=); auto;
    destruct (rules s !! i); simpl; auto.
Qed.

Lemma evaluateStockCriticalTx_one (now : Z) (i : Id) (s s' : Store) (r : EvalResult) :
  evaluateStockCriticalTx now i s = inr (r, s') ->
  oneActivePerInventario s -> oneActivePerInventario s'.
Proof.
  intros H Hone.
  destruct (evaluateStockCriticalTx_cases _ _ _ _ _ H)
    as [(_ & _ & ->)|[(_ & Hnone & _ & a & Hi & Hact & _ & E)
       |[(_ & id & a & Hf & _ & th & st & E)|(_ & id & a & Hf & _ & ->)]]]; auto.
  - intros id1 id2 a1 a2 H1 H2 Hact1 Hact2 Einv. rewrite E in H1, H2.
    pose proof (freshId_fresh (alerts s)) as Hfresh.
    destruct (decide (freshId (alerts s) = id1)) as [E1|N1];
      destruct (decide (freshId (alerts s) = id2)) as [E2|N2].
    + congruence.
    + subst id1. rewrite lookup_insert_eq in H1. injection H1 as <-.
      rewrite lookup_insert_ne in H2 by exact N2.
      pose proof (findFirstActive_None _ _ _ _ Hnone H2) as Hf. 
      rewrite Hf in Hact2 by congruence. discriminate.
    + subst id2. rewrite lookup_insert_eq in H2. injection H2 as <-.
      rewrite lookup_insert_ne in H1 by exact N1.
      pose proof (findFirstActive_None _ _ _ _ Hnone H1) as Hf.
      rewrite Hf in Hact1 by congruence. discriminate.
    + rewrite lookup_insert_ne in H1 by exact N1.
      rewrite lookup_insert_ne in H2 by exact N2. eauto.
  - apply findFirstActive_Some in Hf as (Hm & _ & _).
    eapply noNewActive_one; [|exact Hone].
    eapply noNewActive_rewrite; eauto.
  - apply findFirstActive_Some in Hf as (Hm & _ & _).
    eapply noNewActive_one; [|exact Hone].
    eapply noNewActive_rewrite; eauto. simpl. discriminate.
Qed.

Lemma evaluateStockCritical_one (now : Z) (i : Id) (s : Store) :
  oneActivePerInventario s ->
  oneActivePerInventario (evaluateStockCritical now i s).2.
Proof.
  intros Hone. unfold evaluateStockCritical, transaction.
  destruct (evaluateStockCriticalTx now i s) as [e|[r s']] eqn:E; simpl; auto.
  eapply evaluateStockCriticalTx_one; eauto.
Qed.

Lemma oneActive_same_alerts (s s' : Store) :
  alerts s' = alerts s -> oneActivePerInventario s -> oneActivePerInventario s'.
Proof. intros E. apply noNewActive_one, noNewActive_same, E. Qed.

Lemma ackStockAlert_one (now : Z) (id : Id) (s : Store) :
  oneActivePerInventario s -> oneActivePerInventario (ackStockAlert now id s).2.
Proof.
  intros Hone. unfold ackStockAlert.
  destruct (alerts s !! id) as [a|] eqn:E; simpl; auto.
  destruct (negb (bool_decide (a_status a = OPEN))); simpl; auto.
  eapply noNewActive_one; [|exact Hone].
  eapply noNewActive_rewrite; eauto.
Qed.

Lemma resolveStockAlert_one (now : Z) (id : Id) (s : Store) :
  oneActivePerInventario s -> oneActivePerInventario (resolveStockAlert now id s).2.
Proof.
  intros Hone. unfold resolveStockAlert.
  destruct (alerts s !! id) as [a|] eqn:E; simpl; auto.
  destruct (bool_decide (a_status a = RESOLVED)); simpl; auto.
  eapply noNewActive_one; [|exact Hone].
  eapply noNewActive_rewrite; eauto.
Qed.

Lemma deleteInventarioRow_noNewActive (id : Id) (s : Store) :
  noNewActive s (deleteInventarioRow id s).
Proof.
  intros k a Hk Hact. simpl in Hk.
  apply map_lookup_filter_Some in Hk as [Hk _]. eauto.
Qed.

Lemma deleteInventariosDeProducto_noNewActive (productoId : Id) (s : Store) :
  noNewActive s (deleteInventariosDeProducto productoId s).
Proof.
  unfold deleteInventariosDeProducto.
  induction (List.map fst _) as [|k ks IH]; simpl.
  - apply noNewActive_refl.
  - eapply noNewActive_trans; [exact IH|apply deleteInventarioRow_noNewActive].
Qed.

Lemma createMovimientoStockTx_one (now : Z) (data : MovimientoCreateParsed)
  (s s' : Store) (res : MovimientoBody) :
  createMovimientoStockTx now data s = inr (res, s') ->
  oneActivePerInventario s -> oneActivePerInventario s'.
Proof.
  unfold createMovimientoStockTx. intros H Hone.
  repeat (case_match; simplify_eq/=).
  eapply evaluateStockCriticalTx_one; [eassumption|].
  eapply oneActive_same_alerts; [|exact Hone]. reflexivity.
Qed.

Lemma createMovimientoStock_one (now : Z) (parsed : MovimientoCreateParsed) (s : Store) :
  oneActivePerInventario s ->
  oneActivePerInventario (createMovimientoStock now parsed s).2.
Proof.
  intros Hone. unfold createMovimientoStock, transaction.
  destruct (createMovimientoStockTx now (normalizeMovimientoBody parsed) s)
    as [e|[res s']] eqn:E.
  - repeat case_match; simpl; exact Hone.
  - simpl. eapply createMovimientoStockTx_one; eauto.
Qed.

Section Reachability.

Variable schemaCheck : Store -> option ApiError.
Variable PRODUCTO_TIPO_VALUES : list string.

Lemma checked_inr (s s' : Store) : checked schemaCheck s = inr s' -> s' = s.
Proof. unfold checked. destruct (schemaCheck s); congruence. Qed.

Lemma createInventario_one (now : Z) (parsed : InventarioCreateParsed) (s : Store) :
  oneActivePerInventario s ->
  oneActivePerInventario (createInventario schemaCheck now parsed s).2.
Proof.
  intros Hone. unfold createInventario.
  destruct (assertProductoNoEsFlete _ s); [case_match; exact Hone|].
  destruct (checked _ _) as [e|s1] eqn:E.
  - repeat case_match; exact Hone.
  - apply checked_inr in E. subst s1.
    match goal with
    | |- context [evaluateStockCritical ?n ?j ?t] =>
      pose proof (evaluateStockCritical_one n j t) as Hev;
      destruct (evaluateStockCritical n j t) as [[e|r] s2]
    end; simpl in *; apply Hev;
      (eapply oneActive_same_alerts; [|exact Hone]; reflexivity).
Qed.

Lemma updateInventario_one (now : Z) (id : Id) (parsed : InventarioUpdateParsed)
  (s : Store) :
  oneActivePerInventario s ->
  oneActivePerInventario (updateInventario schemaCheck now id parsed s).2.
Proof.
  intros Hone. unfold updateInventario.
  destruct (negb (Js.truthy id)); [exact Hone|].
  destruct (inventarios s !! id) as [current|]; [|exact Hone].
  destruct (assertProductoNoEsFlete _ s); [case_match; exact Hone|].
  destruct (checked _ _) as [e|s1] eqn:E.
  - repeat case_match; exact Hone.
  - apply checked_inr in E. subst s1.
    destruct (touchedStockOrMin _).
    + match goal with
      | |- context [evaluateStockCritical ?n ?j ?t] =>
        pose proof (evaluateStockCritical_one n j t) as Hev;
        destruct (evaluateStockCritical n j t) as [[e|r] s2]
      end; simpl in *; apply Hev;
        (eapply oneActive_same_alerts; [|exact Hone]; reflexivity).
    + simpl. eapply oneActive_same_alerts; [|exact Hone]. reflexivity.
Qed.

Lemma deleteInventario_one (id : Id) (s : Store) :
  oneActivePerInventario s -> oneActivePerInventario (deleteInventario id s).2.
Proof.
  intros Hone. unfold deleteInventario.
  destruct (negb (Js.truthy id)); [exact Hone|].
  destruct (inventarios s !! id); [|exact Hone]. simpl.
  eapply noNewActive_one; [apply deleteInventarioRow_noNewActive|exact Hone].
Qed.

Lemma importRowTx_one (now : Z) (r : ImportRow) (s s' : Store) (flags : ImportFlags) :
  importRowTx schemaCheck now r s = inr (flags, s') ->
  oneActivePerInventario s -> oneActivePerInventario s'.
Proof.
  unfold importRowTx. intros H Hone.
  destruct (checked _ _) as [e|s1] eqn:E1; [discriminate|].
  apply checked_inr in E1.
  assert (Hone1 : oneActivePerInventario s1).
  { subst s1. eapply oneActive_same_alerts; [|exact Hone]. reflexivity. }
  clear E1 Hone.
  destruct (negb (isFleteTipo _)).
  - destruct (checked _ _) as [e|s2] eqn:E2; [discriminate|].
    apply checked_inr in E2.
    assert (Hone2 : oneActivePerInventario s2).
    { subst s2. eapply oneActive_same_alerts; [|exact Hone1]. reflexivity. }
    clear E2. destruct (Js.truthy _).
    + destruct (evaluateStockCriticalTx _ _ s2) as [e|[res s3]] eqn:E3;
        [discriminate|]. injection H as _ <-.
      eapply evaluateStockCriticalTx_one; eauto.
    + injection H as _ <-. exact Hone2.
  - injection H as _ <-.
    eapply noNewActive_one;
      [apply deleteInventariosDeProducto_noNewActive|exact Hone1].
Qed.

Lemma importOne_one (now : Z) (i : nat) (raw : RawRow) (st : ImportAcc * Store) :
  oneActivePerInventario st.2 ->
  oneActivePerInventario (importOne schemaCheck PRODUCTO_TIPO_VALUES now i raw st).2.
Proof.
  intros Hone. unfold importOne, transaction.
  destruct (parseImportRow _ raw) as [msg|r]; [exact Hone|].
  destruct (importRowTx _ now r st.2) as [e|[flags s']] eqn:E; simpl; [exact Hone|].
  eapply importRowTx_one; eauto.
Qed.

Lemma importLoop_one (clock : nat -> Z) (rows : list RawRow) (i : nat)
  (st : ImportAcc * Store) :
  oneActivePerInventario st.2 ->
  oneActivePerInventario (importLoop schemaCheck PRODUCTO_TIPO_VALUES clock i rows st).2.
Proof.
  revert i st. induction rows as [|raw rest IH]; intros i st Hone; simpl; auto.
  apply IH, importOne_one, Hone.
Qed.

Lemma importInventarioExcel_one (clock : nat -> Z) (rows : list RawRow) (s : Store) :
  oneActivePerInventario s ->
  oneActivePerInventario
    (importInventarioExcel schemaCheck PRODUCTO_TIPO_VALUES clock rows s).2.
Proof.
  intros Hone. unfold importInventarioExcel.
  destruct rows as [|raw rest]; [exact Hone|].
  pose proof (importLoop_one clock (raw :: rest) 0 (emptyAcc, s) Hone) as H.
  destruct (importLoop _ _ clock 0 (raw :: rest) (emptyAcc, s)) as [acc s'].
  exact H.
Qed.

Lemma step_one (s : Store) (o : Op) :
  oneActivePerInventario s -> oneActivePerInventario (step schemaCheck PRODUCTO_TIPO_VALUES s o).
Proof.
  destruct o; simpl;
    auto using evaluateStockCritical_one, createInventario_one,
      updateInventario_one, deleteInventario_one, createMovimientoStock_one,
      importInventarioExcel_one, ackStockAlert_one, resolveStockAlert_one.
Qed.

Lemma run_one (ops : list Op) (s : Store) :
  oneActivePerInventario s -> oneActivePerInventario (run schemaCheck PRODUCTO_TIPO_VALUES ops s).
Proof.
  revert s. induction ops as [|o ops IH]; intros s Hone; simpl; auto.
  apply IH, step_one, Hone.
Qed.

(** C1. From a store with at most one active alert per inventory (the
    empty store is one), every sequence of requests (evaluation, inventory
    creation, edit and deletion, stock movement, Excel import, ack, manual
    resolve) leads to a store with at most one active alert per inventory.
    The evaluator answers [created] only when the inventory had no active
    alert, and after it answers [resolved] the inventory has none. *)
Theorem one_active_alert_per_inventory (s : Store) :
  oneActivePerInventario s ->
  (forall ops, oneActivePerInventario (run schemaCheck PRODUCTO_TIPO_VALUES ops s))
  /\ (forall now i r s',
        evaluateStockCriticalTx now i s = inr (r, s') ->
        (action r = created -> noActiveAlert i s)
        /\ (action r = resolved -> noActiveAlert i s')).
Proof.
  intros Hone. split; [intros ops; apply run_one, Hone|].
  intros now i r s' H.
  destruct (evaluateStockCriticalTx_cases _ _ _ _ _ H)
    as [(Ha & _)|[(Ha & Hnone & _)
       |[(Ha & _)|(Ha & id & a & Hf & _ & ->)]]];
    rewrite Ha; (split; [|]); try discriminate.
  - intros _ k b Hk Hi. eapply findFirstActive_None; eauto.
  - apply findFirstActive_Some in Hf as (Hm & Hi & Hact).
    intros _ k b Hk Hki. simpl in Hk.
    destruct (decide (id = k)) as [<-|Hne].
    + rewrite lookup_insert_eq in Hk. injection Hk as <-. reflexivity.
    + rewrite lookup_insert_ne in Hk by exact Hne.
      destruct (a_isActive b) eqn:Eb; [|reflexivity].
      exfalso. apply Hne. apply (Hone id k a b); auto. congruence.
Qed.

End Reachability.

(** ** Threshold and cooldown *)

Lemma effectiveThreshold_eq (rule : option StockCriticalRule) (inv : Inventario) :
  effectiveThreshold rule inv = default (i_minimo inv) (rule ≫= r_thresholdOverride).
Proof.
  unfold effectiveThreshold, coalesce.
  destruct (rule ≫= r_thresholdOverride); reflexivity.
Qed.

Lemma isCritical_iff (rule : option StockCriticalRule) (inv : Inventario) :
  isCritical rule inv = true <-> i_stock inv <= effectiveThreshold rule inv.
Proof. unfold isCritical. apply Z.leb_le. Qed.

Lemma canResend_iff (last : option Z) (now c : Z) :
  canResend last now c = true
  <-> last = None \/ exists l, last = Some l /\ c * 60000 < now - l.
Proof.
  unfold canResend. destruct last as [l|].
  - rewrite Z.ltb_lt. split.
    + intros H. right. exists l. split; [reflexivity|lia].
    + intros [H|(l' & [= <-] & H)]; [discriminate|lia].
  - split; auto.
Qed.

(** Settles an equivalence between a disjunction of equations on the
    answer and an inequality that is known to hold or known to fail. *)
Ltac classify :=
  split; intros ?H;
  first
    [ lia
    | exfalso; lia
    | exfalso;
      repeat match goal with
             | H : _ \/ _ |- _ => destruct H
             | H : _ /\ _ |- _ => destruct H
             end; discriminate
    | left; reflexivity
    | right; left; reflexivity
    | right; right; reflexivity
    | right; split; reflexivity ].

(** C7. For an inventory of a stock-tracked product whose rule is not
    disabled, the threshold used is the rule's override when there is one
    and the inventory's [minimo] otherwise, and the evaluator treats the
    inventory as critical (it answers [created], [resent] or
    [noop/cooldown]) exactly when [stock <= threshold]; above the
    threshold it answers [resolved] or a plain [noop].  Stock equal to the
    threshold is critical, stock one above is not, and an override of 5
    makes stock 5 critical for an inventory whose own [minimo] is 0. *)
Theorem critical_iff_stock_le_threshold
  (now : Z) (i : Id) (s : Store) (inv : Inventario) (p : Producto) :
  inventarios s !! i = Some inv ->
  productos s !! i_productoId inv = Some p ->
  isFleteTipo (Some (p_tipo p)) = false ->
  bool_decide (r_enabled <$> rules s !! i = Some false) = false ->
  let rule := rules s !! i in
  let t := default (i_minimo inv) (rule ≫= r_thresholdOverride) in
  effectiveThreshold rule inv = t
  /\ (exists r s',
        evaluateStockCriticalTx now i s = inr (r, s')
        /\ ((action r = created \/ action r = resent \/ reason r = Some "cooldown")
            <-> i_stock inv <= t)
        /\ ((action r = resolved \/ (action r = noop /\ reason r = None))
            <-> t < i_stock inv))
  /\ (i_stock inv = t -> isCritical rule inv = true)
  /\ (i_stock inv = t + 1 -> isCritical rule inv = false)
  /\ (forall r' inv',
        r_thresholdOverride r' = Some 5 -> i_minimo inv' = 0 -> i_stock inv' = 5 ->
        isCritical (Some r') inv' = true).
Proof.
  intros Hinv Hp Hflete Hen rule t.
  assert (Et : effectiveThreshold rule inv = t) by apply effectiveThreshold_eq.
  split; [exact Et|]. split; [|split; [|split]].
  - unfold evaluateStockCriticalTx. rewrite Hinv, Hp. simpl. rewrite Hflete, Hen.
    fold rule.
    destruct (isCritical rule inv) eqn:Ec.
    + assert (Hle : i_stock inv <= t) by (rewrite <- Et; apply isCritical_iff, Ec).
      destruct (findFirstActive i (alerts s)) as [[id a]|];
        [destruct (negb (canResend _ _ _))|];
        eexists _, _; (split; [reflexivity|]); simpl; split; classify.
    + assert (Hgt : t < i_stock inv).
      { rewrite <- Et. unfold isCritical in Ec. apply Z.leb_gt in Ec. exact Ec. }
      destruct (findFirstActive i (alerts s)) as [[id a]|];
        eexists _, _; (split; [reflexivity|]); simpl; split; classify.
  - intros E. apply isCritical_iff. lia.
  - intros E. unfold isCritical. apply Z.leb_gt. lia.
  - intros r' inv' Ho Hm Hs. apply isCritical_iff.
    rewrite effectiveThreshold_eq. simpl. rewrite Ho. simpl. lia.
Qed.

(** C2, as the code has it.  With an effective cooldown of 360 minutes and
    an active alert last notified at [T], an evaluation of the still
    critical inventory at any [now] up to and including [T] + 360 minutes
    answers [noop/cooldown] and leaves the store as it is; any later
    evaluation answers [resent].  The cooldown has elapsed exactly when
    [now - lastNotified > cooldownMinutes] (strictly), and a missing
    timestamp counts as elapsed. *)
Theorem cooldown_strict
  (now T : Z) (i : Id) (s : Store) (inv : Inventario) (p : Producto)
  (id : Id) (a : StockAlert) :
  inventarios s !! i = Some inv ->
  productos s !! i_productoId inv = Some p ->
  isFleteTipo (Some (p_tipo p)) = false ->
  bool_decide (r_enabled <$> rules s !! i = Some false) = false ->
  effectiveCooldown (rules s !! i) = 360 ->
  isCritical (rules s !! i) inv = true ->
  findFirstActive i (alerts s) = Some (id, a) ->
  lastNotified (rules s !! i) a = Some T ->
  (now <= T + 360 * 60000 ->
   evaluateStockCriticalTx now i s = inr (noopResult (Some "cooldown"), s))
  /\ (T + 360 * 60000 < now ->
      exists s', evaluateStockCriticalTx now i s
                 = inr ({| action := resent; alertId := Some id; reason := None |}, s'))
  /\ (forall last c,
        canResend last now c = true
        <-> last = None \/ exists l, last = Some l /\ c * 60000 < now - l).
Proof.
  intros Hinv Hp Hflete Hen Hcd Hcrit Hact Hlast.
  split; [|split].
  - intros Hle. unfold evaluateStockCriticalTx.
    rewrite Hinv, Hp. simpl. rewrite Hflete, Hen, Hcrit, Hact, Hlast, Hcd.
    unfold canResend. replace (T <? now - 360 * 60 * 1000) with false; [reflexivity|].
    symmetry. apply Z.ltb_ge. lia.
  - intros Hlt. unfold evaluateStockCriticalTx.
    rewrite Hinv, Hp. simpl. rewrite Hflete, Hen, Hcrit, Hact, Hlast, Hcd.
    unfold canResend. replace (T <? now - 360 * 60 * 1000) with true.
    + simpl. eexists. reflexivity.
    + symmetry. apply Z.ltb_lt. lia.
  - intros last c. apply canResend_iff.
Qed.

(** ** Acknowledging and resolving by hand *)

(** C3, as the code has it.  Acknowledging an alert that is not [OPEN]
    (so [ACK] or [RESOLVED]) returns the stored row and writes nothing;
    resolving an alert that is already [RESOLVED] returns the stored row
    and writes nothing; resolving an [ACK] alert is a write: the row gets
    [status = RESOLVED] and [resolvedAt = now], and that row is returned. *)
Theorem ack_resolve_idempotence (now : Z) (id : Id) (s : Store) (a : StockAlert) :
  alerts s !! id = Some a ->
  (a_status a <> OPEN -> ackStockAlert now id s = (Json 200 (Some a), s))
  /\ (a_status a = RESOLVED -> resolveStockAlert now id s = (Json 200 (Some a), s))
  /\ (a_status a = ACK ->
      resolveStockAlert now id s
      = (Json 200 (Some (markResolved now a)),
         withAlerts (<[id := markResolved now a]> (alerts s)) s)
      /\ a_status (markResolved now a) = RESOLVED
      /\ a_resolvedAt (markResolved now a) = Some now).
Proof.
  intros Ha. split; [|split].
  - intros Hs. unfold ackStockAlert. rewrite Ha.
    rewrite bool_decide_eq_false_2 by exact Hs. reflexivity.
  - intros Hs. unfold resolveStockAlert. rewrite Ha.
    rewrite bool_decide_eq_true_2 by exact Hs. reflexivity.
  - intros Hs. unfold resolveStockAlert. rewrite Ha.
    rewrite bool_decide_eq_false_2 by (rewrite Hs; discriminate).
    repeat split.
Qed.

(** ** Stock movements *)

Lemma nuevoStock_eq (tipo : TipoMovimientoStock) (stock cantidad : Z) :
  nuevoStock tipo stock cantidad
  = match tipo with
    | Entrada => stock + cantidad
    | Salida => stock - cantidad
    | Ajuste => cantidad
    end.
Proof. destruct tipo; reflexivity. Qed.

(** With the product of the inventory in place, the evaluator returns. *)
Lemma evaluateStockCriticalTx_total (now : Z) (i : Id) (s : Store) :
  (forall inv, inventarios s !! i = Some inv ->
               is_Some (productos s !! i_productoId inv)) ->
  exists r s', evaluateStockCriticalTx now i s = inr (r, s').
Proof.
  intros Hfk. unfold evaluateStockCriticalTx.
  destruct (inventarios s !! i) as [inv|]; [|eauto].
  destruct (Hfk inv eq_refl) as [p Hp]. rewrite Hp.
  repeat (case_match; simplify_eq/=); eauto.
Qed.

(** C6. A stock movement is rejected exactly when the inventory does not
    exist (404, [INV_NOT_FOUND]), its product is a freight
    ([PRODUCTO_ES_FLETE]) or the stock it computes is negative
    ([STOCK_NEGATIVO]); a rejected movement leaves the whole store (the
    movement ledger, the inventory, alerts, rules and notifications) as it
    was, and an accepted one appends its row to the ledger and persists a
    stock that is not negative. *)
Theorem movement_rejections (now : Z) (parsed : MovimientoCreateParsed) (s : Store) :
  (forall inv, inventarios s !! mv_inventarioId parsed = Some inv ->
               is_Some (productos s !! i_productoId inv)) ->
  let i := mv_inventarioId parsed in
  let tx := createMovimientoStockTx now (normalizeMovimientoBody parsed) in
  match inventarios s !! i with
  | None =>
    tx s = inl INV_NOT_FOUND
    /\ createMovimientoStock now parsed s
       = (JsonError 404 "Inventario no encontrado", s)
  | Some inv =>
    let n := nuevoStock (mv_tipo parsed) (i_stock inv) (mv_cantidad parsed) in
    if isFleteTipo (p_tipo <$> productos s !! i_productoId inv)
    then tx s = inl PRODUCTO_ES_FLETE
         /\ createMovimientoStock now parsed s
            = (JsonError 400 "No se puede manejar stock para un flete", s)
    else if n <? 0
    then tx s = inl STOCK_NEGATIVO
         /\ createMovimientoStock now parsed s
            = (JsonError 400 "Stock insuficiente para realizar la salida", s)
    else exists res s',
        createMovimientoStock now parsed s = (Json 201 res, s')
        /\ 0 <= n
        /\ inventarios s' !! i = Some (setStock n inv)
        /\ mb_inventario res = setStock n inv
        /\ movimientos s' = movimientos s ++ [mb_mov res]
  end.
Proof.
  intros Hfk i tx. subst tx.
  unfold createMovimientoStock, transaction, createMovimientoStockTx.
  simpl. fold i.
  destruct (inventarios s !! i) as [inv|] eqn:Hinv; [|split; reflexivity].
  simpl. destruct (isFleteTipo _) eqn:Hflete; [split; reflexivity|].
  destruct (_ <? 0) eqn:Hn; [split; reflexivity|].
  match goal with
  | |- context [evaluateStockCriticalTx now i ?t] =>
    destruct (evaluateStockCriticalTx_total now i t) as (r & s' & E)
  end.
  - intros inv'. simpl. rewrite lookup_insert_eq. intros [= <-]. simpl.
    apply Hfk, Hinv.
  - rewrite E. eexists _, _. split; [reflexivity|].
    apply evaluateStockCriticalTx_frame in E as (_ & Ei & Em).
    rewrite Ei, Em. simpl. rewrite lookup_insert_eq.
    apply Z.ltb_ge in Hn. auto.
Qed.

(** C8. An accepted movement of quantity [q] on an inventory of stock [s0]
    persists the stock [s0 + q] for an entry, [s0 - q] for an exit and [q]
    itself for an adjustment, and answers with that inventory row. *)
Theorem movement_new_stock (now : Z) (parsed : MovimientoCreateParsed)
  (s s' : Store) (inv : Inventario) (res : MovimientoBody) :
  inventarios s !! mv_inventarioId parsed = Some inv ->
  createMovimientoStock now parsed s = (Json 201 res, s') ->
  let n := match mv_tipo parsed with
           | Entrada => i_stock inv + mv_cantidad parsed
           | Salida => i_stock inv - mv_cantidad parsed
           | Ajuste => mv_cantidad parsed
           end in
  (i_stock <$> inventarios s' !! mv_inventarioId parsed) = Some n
  /\ i_stock (mb_inventario res) = n.
Proof.
  intros Hinv H n. unfold createMovimientoStock, transaction in H.
  destruct (createMovimientoStockTx _ _ s) as [e|[res' s'']] eqn:E.
  - repeat case_match; discriminate.
  - injection H as <- <-. unfold createMovimientoStockTx in E. simpl in E.
    rewrite Hinv in E. repeat (case_match; simplify_eq/=).
    match goal with
    | H : evaluateStockCriticalTx _ _ _ = inr _ |- _ =>
      apply evaluateStockCriticalTx_frame in H as (_ & Ei & _)
    end.
    rewrite Ei. simpl. rewrite lookup_insert_eq. simpl.
    subst n. rewrite <- nuevoStock_eq. auto.
Qed.

(** ** Parsing a row of the sheet *)








(** ** Rows of an import are independent units of work *)

Section ImportIsolation.

Variable schemaCheck : Store -> option ApiError.
Variable PRODUCTO_TIPO_VALUES : list string.

Local Abbreviation importOne' := (importOne schemaCheck PRODUCTO_TIPO_VALUES).
Local Abbreviation importLoop' := (importLoop schemaCheck PRODUCTO_TIPO_VALUES).

Lemma importRowTx_flags (now : Z) (r : ImportRow) (s s' : Store) (flags : ImportFlags) :
  importRowTx schemaCheck now r s = inr (flags, s') ->
  productoCreated flags = negb (productoUpdated flags).
Proof.
  unfold importRowTx. intros H.
  repeat (case_match; simplify_eq/=); reflexivity.
Qed.

Lemma importOne_failure (now : Z) (i : nat) (raw : RawRow) (st : ImportAcc * Store)
  (msg : string) :
  rowFailure schemaCheck PRODUCTO_TIPO_VALUES now raw st.2 = Some msg ->
  importOne' now i raw st = (pushError (Z.of_nat i + 2) msg st.1, st.2).
Proof.
  unfold rowFailure, importOne, transaction.
  destruct (parseImportRow _ raw) as [m|r]; [intros [= <-]; reflexivity|].
  destruct (importRowTx _ now r st.2) as [e|[flags s']]; [|discriminate].
  intros [= <-]. reflexivity.
Qed.

Lemma importOne_success (now : Z) (i : nat) (raw : RawRow) (st : ImportAcc * Store) :
  rowFailure schemaCheck PRODUCTO_TIPO_VALUES now raw st.2 = None ->
  exists r flags s2,
    parseImportRow PRODUCTO_TIPO_VALUES raw = inr r
    /\ importRowTx schemaCheck now r st.2 = inr (flags, s2)
    /\ importOne' now i raw st = (countFlags flags st.1, s2).
Proof.
  unfold rowFailure, importOne, transaction.
  destruct (parseImportRow _ raw) as [m|r]; [discriminate|].
  destruct (importRowTx _ now r st.2) as [e|[flags s']] eqn:E; [discriminate|].
  intros _. eexists _, _, _. repeat split; eauto.
Qed.

Lemma importOne_count (now : Z) (i : nat) (raw : RawRow) (st : ImportAcc * Store) :
  let st' := importOne' now i raw st in
  processed st'.1 + Z.of_nat (length (errores st'.1))
  = processed st.1 + Z.of_nat (length (errores st.1)) + 1.
Proof.
  destruct (rowFailure schemaCheck PRODUCTO_TIPO_VALUES now raw st.2) as [msg|] eqn:E; simpl.
  - rewrite (importOne_failure _ _ _ _ _ E). unfold processed. simpl.
    rewrite length_app. simpl. lia.
  - destruct (importOne_success _ i _ _ E) as (r & flags & s2 & _ & Htx & ->).
    apply importRowTx_flags in Htx. unfold processed. simpl. rewrite Htx.
    destruct (productoUpdated flags); simpl; lia.
Qed.


Lemma importLoop_count (clock : nat -> Z) (rows : list RawRow) (i : nat)
  (st : ImportAcc * Store) :
  let st' := importLoop' clock i rows st in
  processed st'.1 + Z.of_nat (length (errores st'.1))
  = processed st.1 + Z.of_nat (length (errores st.1)) + Z.of_nat (length rows).
Proof.
  revert i st. induction rows as [|raw rest IH]; intros i st; simpl.
  - lia.
  - rewrite IH. rewrite importOne_count. lia.
Qed.



End ImportIsolation.

(** ** Editing an inventory *)

Section Edit.

Variable schemaCheck : Store -> option ApiError.

Lemma createInventario_runs_evaluator (now : Z) (body : InventarioCreateParsed)
  (s : Store) :
  assertProductoNoEsFlete (c_productoId body) s = None ->
  let id := freshId (inventarios s) in
  let data := normalizeInventarioCreate body in
  let s1 := withInventarios (<[id := data]> (inventarios s)) s in
  schemaCheck s1 = None ->
  exists r s2,
    evaluateStockCritical now id s1 = (inr r, s2)
    /\ createInventario schemaCheck now body s
       = (Json 201 {| b_id := id; b_inventario := data; b_stockCritical := r |}, s2).
Proof.
  intros Hassert id data s1 Hok.
  destruct (evaluateStockCriticalTx_total now id s1) as (r & s2 & E).
  { intros inv. simpl. rewrite lookup_insert_eq. intros [= <-]. simpl.
    unfold assertProductoNoEsFlete in Hassert.
    destruct (productos s !! c_productoId body); [eauto|discriminate]. }
  assert (Ev : evaluateStockCritical now id s1 = (inr r, s2)).
  { unfold evaluateStockCritical, transaction. rewrite E. reflexivity. }
  exists r, s2. split; [exact Ev|].
  unfold createInventario. rewrite Hassert. fold id. fold data. fold s1.
  unfold checked. rewrite Hok, Ev. reflexivity.
Qed.

(** C5, as the code has it.  An edit that the database accepts first
    writes the inventory row; then, when the request carries a [stock] or
    a [minimo] (whether or not the value differs from the stored one), the
    evaluator is run on the updated store through [evaluateStockCritical],
    in a transaction of its own, and its answer is returned under
    [stockCritical]; when the request carries neither (only [codigo] or
    [ubicacion]), the answer is a plain [noop] and the evaluator is not
    run: alerts, rules and notifications are as before.  A creation that
    the database accepts always runs the evaluator, in the same way, on the
    store that holds the new row. *)
Theorem edit_runs_evaluator_when_stock_or_minimo_supplied
  (now : Z) (id : Id) (parsed : InventarioUpdateParsed) (s : Store)
  (current : Inventario) :
  Js.truthy id = true ->
  inventarios s !! id = Some current ->
  assertProductoNoEsFlete (i_productoId current) s = None ->
  let actualizado := applyUpdate (normalizeInventarioUpdate parsed) current in
  let s1 := withInventarios (<[id := actualizado]> (inventarios s)) s in
  schemaCheck s1 = None ->
  (up_stock parsed <> None \/ up_minimo parsed <> None ->
   exists r s2,
     evaluateStockCritical now id s1 = (inr r, s2)
     /\ updateInventario schemaCheck now id parsed s
        = (Json 200 {| b_id := id; b_inventario := actualizado;
                       b_stockCritical := r |}, s2))
  /\ (up_stock parsed = None -> up_minimo parsed = None ->
      updateInventario schemaCheck now id parsed s
      = (Json 200 {| b_id := id; b_inventario := actualizado;
                     b_stockCritical := noopResult None |}, s1)
      /\ alerts s1 = alerts s /\ rules s1 = rules s
      /\ notificaciones s1 = notificaciones s)
  /\ (forall body,
        assertProductoNoEsFlete (c_productoId body) s = None ->
        let nuevo := normalizeInventarioCreate body in
        let sc := withInventarios (<[freshId (inventarios s) := nuevo]> (inventarios s)) s in
        schemaCheck sc = None ->
        exists r s2,
          evaluateStockCritical now (freshId (inventarios s)) sc = (inr r, s2)
          /\ createInventario schemaCheck now body s
             = (Json 201 {| b_id := freshId (inventarios s); b_inventario := nuevo;
                            b_stockCritical := r |}, s2)).
Proof.
  intros Hid Hcur Hassert actualizado s1 Hok.
  assert (Hupd : forall k : Response InventarioBody * Store,
             (if touchedStockOrMin (normalizeInventarioUpdate parsed)
              then match evaluateStockCritical now id s1 with
                   | (inl e, s2) =>
                     (JsonError 500 (errorMessage e "Error al actualizar inventario"), s2)
                   | (inr stockCritical, s2) =>
                     (Json 200 {| b_id := id; b_inventario := actualizado;
                                  b_stockCritical := stockCritical |}, s2)
                   end
              else (Json 200 {| b_id := id; b_inventario := actualizado;
                                b_stockCritical := noopResult None |}, s1)) = k ->
             updateInventario schemaCheck now id parsed s = k).
  { intros k <-. unfold updateInventario. rewrite Hid. simpl.
    rewrite Hcur, Hassert. fold actualizado. fold s1.
    unfold checked. rewrite Hok. reflexivity. }
  split; [|split].
  - intros Htouched.
    assert (Ht : touchedStockOrMin (normalizeInventarioUpdate parsed) = true).
    { unfold touchedStockOrMin. simpl. apply orb_true_iff.
      destruct Htouched as [H|H]; [left|right]; apply bool_decide_eq_true_2, H. }
    destruct (evaluateStockCriticalTx_total now id s1) as (r & s2 & E).
    { intros inv. simpl. rewrite lookup_insert_eq. intros [= <-]. simpl.
      unfold assertProductoNoEsFlete in Hassert.
      destruct (productos s !! i_productoId current); [eauto|discriminate]. }
    exists r, s2.
    assert (Ev : evaluateStockCritical now id s1 = (inr r, s2)).
    { unfold evaluateStockCritical, transaction. rewrite E. reflexivity. }
    split; [exact Ev|]. apply Hupd. rewrite Ht, Ev. reflexivity.
  - intros Hs Hm. split; [|repeat split].
    apply Hupd. unfold touchedStockOrMin. simpl. rewrite Hs, Hm. reflexivity.
  - intros body Hb nuevo sc Hsc. apply createInventario_runs_evaluator; assumption.
Qed.

End Edit.

(** ** A decision procedure for the invariant *)

Lemma oneActiveb_sound (s : Store) :
  oneActiveb s = true -> oneActivePerInventario s.
Proof.
  unfold oneActiveb. intros H id1 id2 a1 a2 H1 H2 Hact1 Hact2 Einv.
  rewrite forallb_forall in H.
  assert (In1 : In (id1, a1) (map_to_list (alerts s)))
    by (apply list_elem_of_In, elem_of_map_to_list, H1).
  assert (In2 : In (id2, a2) (map_to_list (alerts s)))
    by (apply list_elem_of_In, elem_of_map_to_list, H2).
  specialize (H _ In1). rewrite forallb_forall in H. specialize (H _ In2).
  unfold distinctActive in H. simpl in H.
  rewrite Hact1, Hact2, Einv, String.eqb_refl in H. simpl in H.
  apply String.eqb_eq, H.
Qed.

(** ** Worked examples *)

(** *** C1 *)

Lemma one_active_alert_per_inventory_witness :
  oneActivePerInventario
    (run sinRestricciones tiposEjemplo
         [OpCreateMovimientoStock 50000000 (movimiento Entrada 1);
          OpAck 50000001 "a1";
          OpCreateMovimientoStock 50000002 (movimiento Entrada 10);
          OpCreateMovimientoStock 50000003 (movimiento Salida 12)]
         almacen).
Proof.
  apply (one_active_alert_per_inventory sinRestricciones tiposEjemplo almacen).
  apply oneActiveb_sound. vm_compute. reflexivity.
Defined.

(** *** C2 *)

(** At exactly [T] + 360 minutes the alert is not resent. *)
Lemma cooldown_not_elapsed_at_360_minutes :
  evaluateStockCriticalTx (0 + 360 * 60000) "i1" almacen
  = inr (noopResult (Some "cooldown"), almacen)
  /\ effectiveCooldown (rules almacen !! "i1") = 360
  /\ lastNotified (rules almacen !! "i1") alertaAbierta = Some 0.
Proof. vm_compute. repeat split. Qed.

Lemma cooldown_strict_witness :
  evaluateStockCriticalTx (0 + 359 * 60000) "i1" almacen
  = inr (noopResult (Some "cooldown"), almacen)
  /\ exists s', evaluateStockCriticalTx (0 + 360 * 60000 + 1) "i1" almacen
                = inr ({| action := resent; alertId := Some "a1"; reason := None |}, s').
Proof.
  split.
  - apply (cooldown_strict (0 + 359 * 60000) 0 "i1" almacen inventarioClavo clavo
             "a1" alertaAbierta); try reflexivity; lia.
  - apply (cooldown_strict (0 + 360 * 60000 + 1) 0 "i1" almacen inventarioClavo clavo
             "a1" alertaAbierta); try reflexivity; lia.
Defined.

(** *** C3 *)

(** Resolving an acknowledged alert rewrites it. *)
Lemma resolve_of_ack_alert_writes :
  (a_status <$> alerts (conAlerta alertaVista) !! "a1") = Some ACK
  /\ (resolveStockAlert 30 "a1" (conAlerta alertaVista)).1
     = Json 200 (Some (markResolved 30 alertaVista))
  /\ (a_status <$> alerts (resolveStockAlert 30 "a1" (conAlerta alertaVista)).2 !! "a1")
     = Some RESOLVED
  /\ (a_resolvedAt <$> alerts (resolveStockAlert 30 "a1" (conAlerta alertaVista)).2 !! "a1")
     = Some (Some 30)
  /\ a_resolvedAt alertaVista = None.
Proof. vm_compute. repeat split. Qed.

Lemma ack_resolve_idempotence_witness :
  ackStockAlert 30 "a1" (conAlerta alertaCerrada)
  = (Json 200 (Some alertaCerrada), conAlerta alertaCerrada)
  /\ resolveStockAlert 30 "a1" (conAlerta alertaCerrada)
     = (Json 200 (Some alertaCerrada), conAlerta alertaCerrada).
Proof.
  destruct (ack_resolve_idempotence 30 "a1" (conAlerta alertaCerrada) alertaCerrada)
    as (Hack & Hres & _); [reflexivity|].
  split; [apply Hack; discriminate|apply Hres; reflexivity].
Defined.

(** *** C4 *)

(** C4 fails on the manual resolve end point: after an inventory is
    created with critical stock (which opens the alert "0") and that alert
    is resolved by hand, the alert is [RESOLVED] with [resolvedAt] set but
    still [isActive = true]; the evaluator's own resolve transition sets
    [isActive = false]. *)
Theorem manual_resolve_leaves_alert_active :
  let s := run sinRestricciones tiposEjemplo
               [OpCreateInventario 1000
                  {| c_productoId := "p1"; c_codigo := Some "INV-1"; c_stock := 2;
                     c_minimo := 5; c_ubicacion := None |};
                OpResolve 2000 "0"]
               tienda in
  (a_status <$> alerts s !! "0") = Some RESOLVED
  /\ (a_resolvedAt <$> alerts s !! "0") = Some (Some 2000)
  /\ (a_isActive <$> alerts s !! "0") = Some true
  /\ a_isActive (closeAlert 2000 alertaAbierta) = false.
Proof. vm_compute. repeat split. Qed.

(** *** C5 *)

(** An edit that sends the stock the inventory already has changes neither
    stock nor [minimo], and still runs the evaluator: the alert is resent
    and a notification is written. *)
Lemma edit_with_unchanged_stock_runs_evaluator :
  let out := updateInventario sinRestricciones 100000000 "i1" (soloStock 2) almacen in
  inventarios out.2 !! "i1" = inventarios almacen !! "i1"
  /\ (i_stock <$> inventarios almacen !! "i1") = Some 2
  /\ out.1 = Json 200 {| b_id := "i1"; b_inventario := inventarioClavo;
                         b_stockCritical := {| action := resent; alertId := Some "a1";
                                               reason := None |} |}
  /\ length (notificaciones out.2) = S (length (notificaciones almacen))
  /\ (a_lastSentAt <$> alerts out.2 !! "a1") = Some (Some 100000000).
Proof. vm_compute. repeat split. Qed.

Lemma edit_runs_evaluator_witness :
  let actualizado := applyUpdate (normalizeInventarioUpdate (soloStock 9)) inventarioClavo in
  let s1 := withInventarios (<["i1" := actualizado]> (inventarios almacen)) almacen in
  (exists r s2,
      evaluateStockCritical 100000000 "i1" s1 = (inr r, s2)
      /\ updateInventario sinRestricciones 100000000 "i1" (soloStock 9) almacen
         = (Json 200 {| b_id := "i1"; b_inventario := actualizado;
                        b_stockCritical := r |}, s2))
  /\ (updateInventario sinRestricciones 100000000 "i1" (soloUbicacion "B-2") almacen).1
     = Json 200 {| b_id := "i1";
                   b_inventario := applyUpdate
                                     (normalizeInventarioUpdate (soloUbicacion "B-2"))
                                     inventarioClavo;
                   b_stockCritical := noopResult None |}.
Proof.
  intros actualizado s1. split.
  - destruct (edit_runs_evaluator_when_stock_or_minimo_supplied sinRestricciones
                100000000 "i1" (soloStock 9) almacen inventarioClavo)
      as (Hsome & _ & _); [reflexivity..|].
    apply Hsome. left. discriminate.
  - destruct (edit_runs_evaluator_when_stock_or_minimo_supplied sinRestricciones
                100000000 "i1" (soloUbicacion "B-2") almacen inventarioClavo)
      as (_ & Hnone & _); [reflexivity..|].
    exact (f_equal fst (proj1 (Hnone eq_refl eq_refl))).
Defined.

(** *** C6 *)

Lemma producto_de_almacen (inv : Inventario) :
  inventarios almacen !! "i1" = Some inv ->
  is_Some (productos almacen !! i_productoId inv).
Proof. intros H. vm_compute in H. injection H as <-. vm_compute. eauto. Qed.

Lemma movement_rejections_witness :
  createMovimientoStock 7 (movimiento Salida 3) almacen
  = (JsonError 400 "Stock insuficiente para realizar la salida", almacen)
  /\ exists res s',
      createMovimientoStock 7 (movimiento Salida 2) almacen = (Json 201 res, s')
      /\ (i_stock <$> inventarios s' !! "i1") = Some 0.
Proof.
  split.
  - exact (proj2 (movement_rejections 7 (movimiento Salida 3) almacen
                    producto_de_almacen)).
  - destruct (movement_rejections 7 (movimiento Salida 2) almacen producto_de_almacen)
      as (res & s' & E & _ & Hi & _).
    exists res, s'. split; [exact E|].
    exact (f_equal (fmap i_stock) Hi).
Defined.

(** *** C7 *)

Lemma critical_iff_stock_le_threshold_witness :
  effectiveThreshold (rules almacen !! "i1") inventarioClavo = 5
  /\ exists r s',
      evaluateStockCriticalTx 1 "i1" almacen = inr (r, s')
      /\ ((action r = created \/ action r = resent \/ reason r = Some "cooldown")
          <-> i_stock inventarioClavo <= 5).
Proof.
  destruct (critical_iff_stock_le_threshold 1 "i1" almacen inventarioClavo clavo)
    as (Et & (r & s' & E & Hc & _) & _); try reflexivity.
  split; [exact Et|]. exists r, s'. split; [exact E|exact Hc].
Defined.

(** *** C8 *)

Lemma movement_new_stock_witness :
  (i_stock <$> inventarios (createMovimientoStock 7 (movimiento Entrada 10) almacen).2
                 !! "i1") = Some 12
  /\ (i_stock <$> inventarios (createMovimientoStock 7 (movimiento Salida 1) almacen).2
                    !! "i1") = Some 1
  /\ (i_stock <$> inventarios (createMovimientoStock 7 (movimiento Ajuste 40) almacen).2
                    !! "i1") = Some 40.
Proof.
  split; [|split].
  - refine (proj1 (movement_new_stock 7 (movimiento Entrada 10) almacen _ inventarioClavo
                     {| mb_mov := {| m_inventarioId := "i1"; m_tipo := Entrada;
                                     m_cantidad := 10; m_nota := None |};
                        mb_inventario := setStock 12 inventarioClavo;
                        mb_stockCritical := {| action := resolved; alertId := Some "a1";
                                               reason := None |} |} _ _));
      vm_compute; reflexivity.
  - refine (proj1 (movement_new_stock 7 (movimiento Salida 1) almacen _ inventarioClavo
                     {| mb_mov := {| m_inventarioId := "i1"; m_tipo := Salida;
                                     m_cantidad := 1; m_nota := None |};
                        mb_inventario := setStock 1 inventarioClavo;
                        mb_stockCritical := noopResult (Some "cooldown") |} _ _));
      vm_compute; reflexivity.
  - refine (proj1 (movement_new_stock 7 (movimiento Ajuste 40) almacen _ inventarioClavo
                     {| mb_mov := {| m_inventarioId := "i1"; m_tipo := Ajuste;
                                     m_cantidad := 40; m_nota := None |};
                        mb_inventario := setStock 40 inventarioClavo;
                        mb_stockCritical := {| action := resolved; alertId := Some "a1";
                                               reason := None |} |} _ _));
      vm_compute; reflexivity.
Defined.

(** *** C9 *)

(** A row whose transaction throws: the product it had already written
    is rolled back with it, and the rows around it are committed. *)
Example import_three_rows_one_duplicate :
  let out := importInventarioExcel codigoUnico tiposEjemplo reloj loteDuplicado emptyStore in
  (exists rep, out.1 = Json 200 rep
               /\ errores (rep_counts rep)
                  = [{| row := 3; error := "Duplicado (SKU o código ya existe)" |}]
               /\ createdProductos (rep_counts rep) = 2
               /\ createdInventarios (rep_counts rep) = 2)
  /\ ((fun x => p_nombre x.2) <$> findProductoBySku "SKU-1" (productos out.2)) = Some "Clavo"
  /\ findProductoBySku "SKU-2" (productos out.2) = None
  /\ ((fun x => p_nombre x.2) <$> findProductoBySku "SKU-3" (productos out.2)) = Some "Tuerca".
Proof. vm_compute. split; [eexists; repeat split|repeat split]. Qed.

(** The scenario of the import with its counters: two products and two
    inventories created, one error for sheet row 3. *)
Example import_three_rows_one_invalid :
  (importInventarioExcel sinRestricciones tiposEjemplo reloj lote emptyStore).1
  = Json 200
      {| rep_ok := false;
         rep_message := "Importación completada con 1 error(es).";
         rep_total := 3;
         rep_counts :=
           {| errores := [{| row := 3;
                             error := "tipo inválido. Valores permitidos: Producto, Flete" |}];
              createdProductos := 2; updatedProductos := 0;
              createdInventarios := 2; updatedInventarios := 0 |} |}.
Proof. vm_compute. reflexivity. Qed.

(** *** C10 *)


(** * Further properties of the evaluator *)

(** Under the invariant, an active alert of an inventory is the one that
    [findFirst] returns. *)
Lemma findFirstActive_unique (s : Store) (i k : Id) (b : StockAlert) :
  oneActivePerInventario s ->
  alerts s !! k = Some b -> a_inventarioId b = i -> a_isActive b = true ->
  findFirstActive i (alerts s) = Some (k, b).
Proof.
  intros Hone Hk Hi Hact.
  destruct (findFirstActive i (alerts s)) as [[k' b']|] eqn:E.
  - apply findFirstActive_Some in E as (Hk' & Hi' & Hact').
    assert (k' = k) by (apply (Hone k' k b' b); auto; congruence).
    subst k'. congruence.
  - rewrite (findFirstActive_None _ _ _ _ E Hk Hi) in Hact. discriminate.
Qed.

Lemma stampRuleIfAny_fields (now : Z) (i : Id) (s : Store) :
  let s' := stampRuleIfAny now i (rules s !! i) s in
  productos s' = productos s /\ inventarios s' = inventarios s
  /\ movimientos s' = movimientos s /\ notificaciones s' = notificaciones s
  /\ rules s' !! i = stampRule now <$> rules s !! i
  /\ (forall j, j <> i -> rules s' !! j = rules s !! j).
Proof.
  simpl. destruct (rules s !! i) as [r|] eqn:E; simpl.
  - repeat split; auto.
    + apply lookup_insert_eq.
    + intros j Hj. apply lookup_insert_ne. congruence.
  - repeat split; auto.
Qed.


(** X1. The evaluator steps aside, writing nothing, for an inventory that
    does not exist, for the inventory of a freight product whatever its
    stock and threshold, and for an inventory whose rule is disabled
    whatever its stock and its alerts: an active alert stays as it is. *)
Theorem evaluation_guards (now : Z) (i : Id) (s : Store) :
  (inventarios s !! i = None ->
   evaluateStockCriticalTx now i s
   = inr (noopResult (Some "inventario_not_found"), s))
  /\ (forall inv,
        inventarios s !! i = Some inv ->
        isFleteTipo (p_tipo <$> productos s !! i_productoId inv) = true ->
        evaluateStockCriticalTx now i s
        = inr (noopResult (Some "producto_es_flete"), s))
  /\ (forall inv rule,
        inventarios s !! i = Some inv ->
        isFleteTipo (p_tipo <$> productos s !! i_productoId inv) = false ->
        rules s !! i = Some rule -> r_enabled rule = false ->
        evaluateStockCriticalTx now i s
        = inr (noopResult (Some "rule_disabled"), s)).
Proof.
  split; [|split].
  - intros H. unfold evaluateStockCriticalTx. rewrite H. reflexivity.
  - intros inv H Hf. unfold evaluateStockCriticalTx. rewrite H, Hf. reflexivity.
  - intros inv rule H Hf Hr He. unfold evaluateStockCriticalTx.
    rewrite H, Hf, Hr. simpl. rewrite He.
    rewrite bool_decide_eq_true_2 by reflexivity. reflexivity.
Qed.


Lemma rules_stampRuleIfAny_ne (now : Z) (i j : Id) (rule : option StockCriticalRule)
  (t : Store) :
  j <> i -> rules (stampRuleIfAny now i rule t) !! j = rules t !! j.
Proof.
  intros Hj. destruct rule; simpl; [|reflexivity].
  apply lookup_insert_ne. congruence.
Qed.

Lemma notificaciones_stampRuleIfAny (now : Z) (i : Id) (rule : option StockCriticalRule)
  (t : Store) :
  notificaciones (stampRuleIfAny now i rule t) = notificaciones t.
Proof. destruct rule; reflexivity. Qed.

(** X3. An evaluation of inventory [i] is local: it leaves products,
    inventories and the movement ledger as they are, it leaves the rule of
    every other inventory as it is, it never removes an alert, and it
    leaves untouched every alert of another inventory and every alert that
    is no longer active (a closed episode is never reopened or rewritten). *)
Theorem evaluation_is_local (now : Z) (i : Id) (s s' : Store) (r : EvalResult) :
  evaluateStockCriticalTx now i s = inr (r, s') ->
  productos s' = productos s
  /\ inventarios s' = inventarios s
  /\ movimientos s' = movimientos s
  /\ (forall j, j <> i -> rules s' !! j = rules s !! j)
  /\ (forall k b, alerts s !! k = Some b ->
                  a_inventarioId b <> i \/ a_isActive b = false ->
                  alerts s' !! k = Some b)
  /\ (forall k, is_Some (alerts s !! k) -> is_Some (alerts s' !! k)).
Proof.
  intros H.
  destruct (evaluateStockCriticalTx_frame _ _ _ _ _ H) as (Hp & Hi & Hm).
  split; [exact Hp|]. split; [exact Hi|]. split; [exact Hm|].
  split; [|split].
  - intros j Hj. unfold evaluateStockCriticalTx in H.
    repeat (case_match; simplify_eq/=); auto;
      rewrite rules_stampRuleIfAny_ne by exact Hj; reflexivity.
  - intros k b Hk Hb.
    destruct (evaluateStockCriticalTx_cases _ _ _ _ _ H)
      as [(_ & _ & ->)|[(_ & _ & _ & a & _ & _ & _ & E)
         |[(_ & id & a & Hf & _ & th & st & E)|(_ & id & a & Hf & _ & ->)]]];
      auto.
    + rewrite E. rewrite lookup_insert_ne; auto.
      intros Heq. subst k. rewrite freshId_fresh in Hk. discriminate.
    + apply findFirstActive_Some in Hf as (Hid & Hinv & Hact).
      rewrite E. rewrite lookup_insert_ne; auto.
      intros Heq. subst k.
      pose proof (eq_trans (eq_sym Hk) Hid) as Hba. injection Hba as ->.
      destruct Hb as [Hb|Hb]; [contradiction|congruence].
    + apply findFirstActive_Some in Hf as (Hid & Hinv & Hact).
      simpl. rewrite lookup_insert_ne; auto.
      intros Heq. subst k.
      pose proof (eq_trans (eq_sym Hk) Hid) as Hba. injection Hba as ->.
      destruct Hb as [Hb|Hb]; [contradiction|congruence].
  - intros k [b Hk].
    destruct (evaluateStockCriticalTx_cases _ _ _ _ _ H)
      as [(_ & _ & ->)|[(_ & _ & _ & a & _ & _ & _ & E)
         |[(_ & id & a & Hf & _ & th & st & E)|(_ & id & a & Hf & _ & ->)]]];
      eauto; try rewrite E; simpl;
      (destruct (decide (k = id)) as [->|Hne]
       || destruct (decide (k = freshId (alerts s))) as [->|Hne]);
      try (rewrite lookup_insert_eq; eauto);
      try (rewrite lookup_insert_ne by congruence; eauto).
Qed.

(** X4. An evaluation writes exactly one notification when it creates or
    resends an alert (an unread [STOCK_CRITICO] notification that refers to
    the inventory) and none when it resolves or does nothing. *)
Theorem evaluation_notifies_once (now : Z) (i : Id) (s s' : Store) (r : EvalResult) :
  evaluateStockCriticalTx now i s = inr (r, s') ->
  (action r = created \/ action r = resent ->
   exists n, notificaciones s' = notificaciones s ++ [n]
             /\ n_tipo n = "STOCK_CRITICO" /\ n_referenciaTabla n = "Inventario"
             /\ n_referenciaId n = i /\ n_leido n = false)
  /\ (action r = noop \/ action r = resolved ->
      notificaciones s' = notificaciones s).
Proof.
  intros H. unfold evaluateStockCriticalTx in H.
  repeat (case_match; simplify_eq/=);
    (split; [intros [Hc|Hc]; try discriminate|intros [Hc|Hc]; try discriminate]);
    try reflexivity;
    (eexists; split;
     [simpl; rewrite notificaciones_stampRuleIfAny; reflexivity|repeat split]).
Qed.


Lemma effectiveThreshold_setStock (rule : option StockCriticalRule) (n : Z)
  (inv : Inventario) :
  effectiveThreshold rule (setStock n inv) = effectiveThreshold rule inv.
Proof. reflexivity. Qed.


(** * Further properties of stock movements *)


(** An accepted movement, in full. *)
Lemma createMovimientoStock_accepted (now : Z) (parsed : MovimientoCreateParsed)
  (s : Store) (inv : Inventario) (p : Producto) :
  let i := mv_inventarioId parsed in
  let n := nuevoStock (mv_tipo parsed) (i_stock inv) (mv_cantidad parsed) in
  inventarios s !! i = Some inv ->
  productos s !! i_productoId inv = Some p ->
  isFleteTipo (Some (p_tipo p)) = false ->
  0 <= n ->
  exists res s',
    createMovimientoStock now parsed s = (Json 201 res, s')
    /\ inventarios s' = <[i := setStock n inv]> (inventarios s)
    /\ productos s' = productos s
    /\ movimientos s'
       = movimientos s ++ [{| m_inventarioId := i; m_tipo := mv_tipo parsed;
                               m_cantidad := mv_cantidad parsed;
                               m_nota := emptyToNull (mv_nota parsed) |}].
Proof.
  intros i n Hinv Hp Hflete Hn.
  unfold createMovimientoStock, transaction, createMovimientoStockTx.
  simpl. fold i. rewrite Hinv. simpl. rewrite Hp. simpl. rewrite Hflete. fold n.
  replace (n <? 0) with false by (symmetry; apply Z.ltb_ge; exact Hn).
  match goal with
  | |- context [evaluateStockCriticalTx now i ?t] =>
    destruct (evaluateStockCriticalTx_total now i t) as (r & s' & E)
  end.
  - intros inv'. simpl. rewrite lookup_insert_eq. intros [= <-]. simpl. eauto.
  - rewrite E. eexists _, _. split; [reflexivity|].
    apply evaluateStockCriticalTx_frame in E as (Ep & Ei & Em).
    rewrite Ep, Ei, Em. repeat split.
Qed.

Lemma setStock_same (inv : Inventario) : setStock (i_stock inv) inv = inv.
Proof. destruct inv; reflexivity. Qed.

Lemma setStock_setStock (n m : Z) (inv : Inventario) :
  setStock n (setStock m inv) = setStock n inv.
Proof. reflexivity. Qed.

(** X7. An entry of [q] units followed by an exit of [q] units on an
    inventory whose stock is not negative are both accepted and leave the
    inventory table exactly as it was, with the two movements added to the
    ledger in that order. *)
Theorem entrada_then_salida_restores_stock (now1 now2 q : Z) (i : Id)
  (nota1 nota2 : option string) (s : Store) (inv : Inventario) (p : Producto) :
  inventarios s !! i = Some inv ->
  productos s !! i_productoId inv = Some p ->
  isFleteTipo (Some (p_tipo p)) = false ->
  0 <= i_stock inv -> 0 <= q ->
  let entrada := {| mv_inventarioId := i; mv_tipo := Entrada; mv_cantidad := q;
                    mv_nota := nota1 |} in
  let salida := {| mv_inventarioId := i; mv_tipo := Salida; mv_cantidad := q;
                   mv_nota := nota2 |} in
  exists res1 s1 res2 s2,
    createMovimientoStock now1 entrada s = (Json 201 res1, s1)
    /\ createMovimientoStock now2 salida s1 = (Json 201 res2, s2)
    /\ i_stock (mb_inventario res1) = i_stock inv + q
    /\ inventarios s2 = inventarios s
    /\ movimientos s2
       = movimientos s
         ++ [{| m_inventarioId := i; m_tipo := Entrada; m_cantidad := q;
                m_nota := emptyToNull nota1 |};
             {| m_inventarioId := i; m_tipo := Salida; m_cantidad := q;
                m_nota := emptyToNull nota2 |}].
Proof.
  intros Hinv Hp Hflete Hs Hq entrada salida.
  destruct (createMovimientoStock_accepted now1 entrada s inv p)
    as (res1 & s1 & E1 & Hi1 & Hp1 & Hm1); auto.
  { rewrite nuevoStock_eq. simpl. lia. }
  rewrite nuevoStock_eq in Hi1. simpl in Hi1, Hm1.
  destruct (createMovimientoStock_accepted now2 salida s1 (setStock (i_stock inv + q) inv) p)
    as (res2 & s2 & E2 & Hi2 & Hp2 & Hm2); auto.
  { simpl. rewrite Hi1. apply lookup_insert_eq. }
  { simpl. rewrite Hp1. exact Hp. }
  { rewrite nuevoStock_eq. simpl. lia. }
  rewrite nuevoStock_eq in Hi2. simpl in Hi2, Hm2.
  exists res1, s1, res2, s2. split; [exact E1|]. split; [exact E2|].
  split; [|split].
  - unfold createMovimientoStock, transaction in E1.
    destruct (createMovimientoStockTx _ _ s) as [e|[r' t']] eqn:E.
    + repeat case_match; discriminate.
    + injection E1 as <- <-. unfold createMovimientoStockTx in E. simpl in E.
      rewrite Hinv in E. repeat (case_match; simplify_eq/=).
      rewrite nuevoStock_eq. reflexivity.
  - rewrite Hi2, Hi1, insert_insert_eq.
    replace (i_stock inv + q - q) with (i_stock inv) by lia.
    rewrite setStock_setStock, setStock_same. apply insert_id, Hinv.
  - rewrite Hm2, Hm1, <- app_assoc. reflexivity.
Qed.

(** * Properties of the request handlers as a whole *)

Section Handlers.

Variable schemaCheck : Store -> option ApiError.
Variable PRODUCTO_TIPO_VALUES : list string.

Lemma evaluateStockCritical_total (now : Z) (i : Id) (s : Store) :
  (forall inv, inventarios s !! i = Some inv ->
               is_Some (productos s !! i_productoId inv)) ->
  exists r s', evaluateStockCritical now i s = (inr r, s')
               /\ evaluateStockCriticalTx now i s = inr (r, s').
Proof.
  intros Hfk. destruct (evaluateStockCriticalTx_total now i s Hfk) as (r & s' & E).
  exists r, s'. unfold evaluateStockCritical, transaction. rewrite E. auto.
Qed.

Lemma assertProductoNoEsFlete_None (productoId : Id) (s : Store) :
  assertProductoNoEsFlete productoId s = None ->
  exists p, productos s !! productoId = Some p /\ isFleteTipo (Some (p_tipo p)) = false.
Proof.
  unfold assertProductoNoEsFlete.
  destruct (productos s !! productoId) as [p|]; [|discriminate].
  destruct (isFleteTipo (Some (p_tipo p))) eqn:E; [discriminate|]. eauto.
Qed.

Lemma createInventario_error (now : Z) (parsed : InventarioCreateParsed) (s s' : Store)
  (status : Z) (msg : string) :
  createInventario schemaCheck now parsed s = (JsonError status msg, s') -> s' = s.
Proof.
  unfold createInventario.
  destruct (assertProductoNoEsFlete _ s) as [e|] eqn:Ha;
    [case_match; intros [= _ _ <-]; reflexivity|].
  destruct (checked _ _) as [e|s1] eqn:E.
  - repeat case_match; intros [= _ _ <-]; reflexivity.
  - apply checked_inr in E. subst s1.
    apply assertProductoNoEsFlete_None in Ha as (p & Hp & _).
    match goal with
    | |- context [evaluateStockCritical ?n ?j ?t] =>
      destruct (evaluateStockCritical_total n j t) as (r & s2 & -> & _)
    end; [|discriminate].
    intros inv. simpl. rewrite lookup_insert_eq. intros [= <-]. simpl. eauto.
Qed.

Lemma updateInventario_error (now : Z) (id : Id) (parsed : InventarioUpdateParsed)
  (s s' : Store) (status : Z) (msg : string) :
  updateInventario schemaCheck now id parsed s = (JsonError status msg, s') -> s' = s.
Proof.
  unfold updateInventario.
  destruct (negb (Js.truthy id)); [intros [= _ _ <-]; reflexivity|].
  destruct (inventarios s !! id) as [current|]; [|intros [= _ _ <-]; reflexivity].
  destruct (assertProductoNoEsFlete _ s) as [e|] eqn:Ha;
    [case_match; intros [= _ _ <-]; reflexivity|].
  destruct (checked _ _) as [e|s1] eqn:E.
  - repeat case_match; intros [= _ _ <-]; reflexivity.
  - apply checked_inr in E. subst s1.
    apply assertProductoNoEsFlete_None in Ha as (p & Hp & _).
    destruct (touchedStockOrMin _); [|discriminate].
    match goal with
    | |- context [evaluateStockCritical ?n ?j ?t] =>
      destruct (evaluateStockCritical_total n j t) as (r & s2 & -> & _)
    end; [|discriminate].
    intros inv. simpl. rewrite lookup_insert_eq. intros [= <-]. simpl. eauto.
Qed.

(** X8. A request that is refused has written nothing: whenever creating,
    editing or deleting an inventory, posting a stock movement,
    acknowledging or resolving an alert answers with a 4xx status, the
    store is the one the request found. *)
Theorem rejected_requests_write_nothing (s s' : Store) (status : Z) (msg : string) :
  400 <= status < 500 ->
  (forall now parsed,
      createInventario schemaCheck now parsed s = (JsonError status msg, s') -> s' = s)
  /\ (forall now id parsed,
        updateInventario schemaCheck now id parsed s = (JsonError status msg, s') ->
        s' = s)
  /\ (forall id, deleteInventario id s = (JsonError status msg, s') -> s' = s)
  /\ (forall now parsed,
        createMovimientoStock now parsed s = (JsonError status msg, s') -> s' = s)
  /\ (forall now id, ackStockAlert now id s = (JsonError status msg, s') -> s' = s)
  /\ (forall now id, resolveStockAlert now id s = (JsonError status msg, s') -> s' = s).
Proof.
  intros _. split; [|split; [|split; [|split; [|split]]]].
  - intros now parsed. apply createInventario_error.
  - intros now id parsed. apply updateInventario_error.
  - intros id. unfold deleteInventario.
    repeat case_match; intros [=]; subst; reflexivity.
  - intros now parsed. unfold createMovimientoStock, transaction.
    destruct (createMovimientoStockTx _ _ s) as [e|[res t]]; [|discriminate].
    repeat case_match; intros [= _ _ <-]; reflexivity.
  - intros now id. unfold ackStockAlert.
    repeat case_match; intros [=]; subst; reflexivity.
  - intros now id. unfold resolveStockAlert.
    repeat case_match; intros [=]; subst; reflexivity.
Qed.

(** Stock and minimum that are not negative, request by request. *)

Lemma nonNegative_same (s s' : Store) :
  inventarios s' = inventarios s -> nonNegative s -> nonNegative s'.
Proof. intros E H i inv Hi. rewrite E in Hi. eauto. Qed.

Lemma nonNegative_insert (s : Store) (i : Id) (inv : Inventario) (s' : Store) :
  inventarios s' = <[i := inv]> (inventarios s) ->
  0 <= i_stock inv -> 0 <= i_minimo inv ->
  nonNegative s -> nonNegative s'.
Proof.
  intros E Hs Hm H k inv' Hk. rewrite E in Hk.
  destruct (decide (i = k)) as [<-|Hne].
  - rewrite lookup_insert_eq in Hk. injection Hk as <-. auto.
  - rewrite lookup_insert_ne in Hk by exact Hne. eauto.
Qed.

Lemma nonNegative_deleteInventarioRow (id : Id) (s : Store) :
  nonNegative s -> nonNegative (deleteInventarioRow id s).
Proof.
  intros H k inv Hk. simpl in Hk.
  apply lookup_delete_Some in Hk as [_ Hk]. eauto.
Qed.

Lemma nonNegative_deleteInventariosDeProducto (productoId : Id) (s : Store) :
  nonNegative s -> nonNegative (deleteInventariosDeProducto productoId s).
Proof.
  intros H. unfold deleteInventariosDeProducto.
  induction (List.map fst _) as [|k ks IH]; simpl; auto.
  apply nonNegative_deleteInventarioRow, IH.
Qed.

Lemma nonNegative_evaluate (now : Z) (i : Id) (s : Store) :
  nonNegative s -> nonNegative (evaluateStockCritical now i s).2.
Proof.
  intros H. unfold evaluateStockCritical, transaction.
  destruct (evaluateStockCriticalTx now i s) as [e|[r s']] eqn:E; simpl; auto.
  apply evaluateStockCriticalTx_frame in E as (_ & Ei & _).
  eapply nonNegative_same; eauto.
Qed.

Lemma toNonNegInt_nonneg (n : JsNumber) : 0 <= toNonNegInt n 0.
Proof.
  unfold toNonNegInt. destruct (toInt n 0 <? 0) eqn:E; [lia|].
  apply Z.ltb_ge in E. exact E.
Qed.

Lemma parseImportRow_nonneg (obj : RawRow) (r : ImportRow) :
  parseImportRow PRODUCTO_TIPO_VALUES obj = inr r ->
  0 <= row_precio r /\ 0 <= row_stock r /\ 0 <= row_minimo r.
Proof.
  unfold parseImportRow. intros H. repeat (case_match; simplify_eq/=).
  repeat split; apply toNonNegInt_nonneg.
Qed.

Lemma nonNegative_importRowTx (now : Z) (r : ImportRow) (s s' : Store)
  (flags : ImportFlags) :
  0 <= row_stock r -> 0 <= row_minimo r ->
  importRowTx schemaCheck now r s = inr (flags, s') ->
  nonNegative s -> nonNegative s'.
Proof.
  intros Hs Hm H Hnn. unfold importRowTx in H.
  destruct (checked _ _) as [e|s1] eqn:E1; [discriminate|].
  apply checked_inr in E1.
  assert (H1 : nonNegative s1) by (subst s1; eapply nonNegative_same; eauto; reflexivity).
  clear E1 Hnn.
  destruct (negb (isFleteTipo _)).
  - destruct (checked _ _) as [e|s2] eqn:E2; [discriminate|].
    apply checked_inr in E2.
    assert (H2 : nonNegative s2).
    { subst s2. eapply nonNegative_insert; [reflexivity| | |exact H1];
        destruct (findInventarioByProducto _ _) as [[k old]|]; simpl; auto. }
    clear E2. destruct (Js.truthy _).
    + destruct (evaluateStockCriticalTx _ _ s2) as [e|[res s3]] eqn:E3;
        [discriminate|]. injection H as _ <-.
      apply evaluateStockCriticalTx_frame in E3 as (_ & Ei & _).
      eapply nonNegative_same; eauto.
    + injection H as _ <-. exact H2.
  - injection H as _ <-. apply nonNegative_deleteInventariosDeProducto, H1.
Qed.

Lemma nonNegative_importLoop (clock : nat -> Z) (rows : list RawRow) (i : nat)
  (st : ImportAcc * Store) :
  nonNegative st.2 ->
  nonNegative (importLoop schemaCheck PRODUCTO_TIPO_VALUES clock i rows st).2.
Proof.
  revert i st. induction rows as [|raw rest IH]; intros i st H; simpl; auto.
  apply IH. unfold importOne, transaction.
  destruct (parseImportRow _ raw) as [m|r] eqn:Ep; [exact H|].
  destruct (importRowTx _ _ r st.2) as [e|[flags s']] eqn:E; simpl; [exact H|].
  apply parseImportRow_nonneg in Ep as (_ & Hs & Hm).
  eapply nonNegative_importRowTx; eauto.
Qed.

Lemma nonNegative_step (s : Store) (o : Op) :
  validOp o -> nonNegative s ->
  nonNegative (step schemaCheck PRODUCTO_TIPO_VALUES s o).
Proof.
  intros Hv H. destruct o; simpl in *.
  - apply nonNegative_evaluate, H.
  - unfold createInventario.
    destruct (assertProductoNoEsFlete _ s); [case_match; exact H|].
    destruct (checked _ _) as [e|s1] eqn:E; [repeat case_match; exact H|].
    apply checked_inr in E. subst s1. destruct Hv as [Hs Hm].
    match goal with
    | |- context [evaluateStockCritical ?n ?j ?t] =>
      pose proof (nonNegative_evaluate n j t) as Hev;
      destruct (evaluateStockCritical n j t) as [[e|r] s2]
    end; simpl in *; apply Hev;
      (eapply nonNegative_insert; [reflexivity| | |exact H]; assumption).
  - unfold updateInventario.
    destruct (negb (Js.truthy id)); [exact H|].
    destruct (inventarios s !! id) as [current|] eqn:Hc; [|exact H].
    destruct (assertProductoNoEsFlete _ s); [case_match; exact H|].
    destruct (checked _ _) as [e|s1] eqn:E; [repeat case_match; exact H|].
    apply checked_inr in E. subst s1. destruct Hv as [Hs Hm].
    destruct (H _ _ Hc) as [Hcs Hcm].
    assert (H1 : nonNegative
                   (withInventarios
                      (<[id := applyUpdate (normalizeInventarioUpdate parsed) current]>
                         (inventarios s)) s)).
    { eapply nonNegative_insert; [reflexivity| | |exact H]; simpl.
      - destruct (up_stock parsed) as [n|] eqn:En; simpl; auto.
      - destruct (up_minimo parsed) as [n|] eqn:En; simpl; auto. }
    destruct (touchedStockOrMin _); [|exact H1].
    match goal with
    | |- context [evaluateStockCritical ?n ?j ?t] =>
      pose proof (nonNegative_evaluate n j t H1) as Hev;
      destruct (evaluateStockCritical n j t) as [[e|r] s2]
    end; exact Hev.
  - unfold deleteInventario. repeat case_match; simpl; auto.
    apply nonNegative_deleteInventarioRow, H.
  - unfold createMovimientoStock, transaction.
    destruct (createMovimientoStockTx _ _ s) as [e|[res s']] eqn:E.
    + repeat case_match; exact H.
    + simpl. unfold createMovimientoStockTx in E.
      destruct (inventarios s !! _) as [inv|] eqn:Hinv; [|discriminate].
      destruct (isFleteTipo _); [discriminate|].
      destruct (_ <? 0) eqn:Hn; [discriminate|].
      destruct (evaluateStockCriticalTx _ _ _) as [e|[r s3]] eqn:E3; [discriminate|].
      injection E as _ <-.
      apply evaluateStockCriticalTx_frame in E3 as (_ & Ei & _).
      eapply nonNegative_insert; [exact Ei| | |exact H].
      * simpl. apply Z.ltb_ge in Hn. exact Hn.
      * simpl. apply (H _ _ Hinv).
  - unfold importInventarioExcel. destruct normalizedRows as [|raw rest]; [exact H|].
    pose proof (nonNegative_importLoop clock (raw :: rest) 0 (emptyAcc, s) H) as Hl.
    destruct (importLoop _ _ clock 0 (raw :: rest) (emptyAcc, s)) as [acc s'].
    exact Hl.
  - unfold ackStockAlert. repeat case_match; simpl; auto.
  - unfold resolveStockAlert. repeat case_match; simpl; auto.
Qed.

(** X9. Stock never goes negative.  From a store in which every inventory
    has a stock and a minimum of at least 0, every sequence of requests
    whose create and edit bodies respect the bounds of their zod schema
    leads to such a store: a movement that would go below zero is refused,
    and an import reads a negative number as 0. *)
Theorem stock_is_never_negative (ops : list Op) (s : Store) :
  nonNegative s -> Forall validOp ops ->
  nonNegative (run schemaCheck PRODUCTO_TIPO_VALUES ops s).
Proof.
  revert s. induction ops as [|o ops IH]; intros s H Hv; simpl; auto.
  inversion Hv as [|? ? Ho Hops]; subst.
  apply IH; [|exact Hops]. apply nonNegative_step; assumption.
Qed.

(** Notifications are only ever added. *)

Lemma notificaciones_evaluateTx (now : Z) (i : Id) (s s' : Store) (r : EvalResult) :
  evaluateStockCriticalTx now i s = inr (r, s') ->
  notificaciones s `prefix_of` notificaciones s'.
Proof.
  intros H. unfold evaluateStockCriticalTx in H.
  repeat (case_match; simplify_eq/=); try reflexivity;
    rewrite notificaciones_stampRuleIfAny; simpl; apply prefix_app_r; reflexivity.
Qed.

Lemma notificaciones_evaluate (now : Z) (i : Id) (s : Store) :
  notificaciones s `prefix_of` notificaciones (evaluateStockCritical now i s).2.
Proof.
  unfold evaluateStockCritical, transaction.
  destruct (evaluateStockCriticalTx now i s) as [e|[r s']] eqn:E; simpl;
    [reflexivity|]. eapply notificaciones_evaluateTx; eauto.
Qed.

Lemma notificaciones_deleteInventariosDeProducto (productoId : Id) (s : Store) :
  notificaciones (deleteInventariosDeProducto productoId s) = notificaciones s.
Proof.
  unfold deleteInventariosDeProducto.
  induction (List.map fst _) as [|k ks IH]; simpl; auto.
Qed.

Lemma notificaciones_importLoop (clock : nat -> Z) (rows : list RawRow) (i : nat)
  (st : ImportAcc * Store) :
  notificaciones st.2
  `prefix_of` notificaciones
                (importLoop schemaCheck PRODUCTO_TIPO_VALUES clock i rows st).2.
Proof.
  revert i st. induction rows as [|raw rest IH]; intros i st; simpl; [reflexivity|].
  etransitivity; [|apply IH].
  unfold importOne, transaction.
  destruct (parseImportRow _ raw) as [m|r]; [reflexivity|].
  destruct (importRowTx _ _ r st.2) as [e|[flags s']] eqn:E; simpl; [reflexivity|].
  unfold importRowTx in E.
  destruct (checked _ _) as [e|s1] eqn:E1; [discriminate|].
  apply checked_inr in E1. subst s1.
  destruct (negb (isFleteTipo _)).
  - destruct (checked _ _) as [e|s2] eqn:E2; [discriminate|].
    apply checked_inr in E2. subst s2.
    destruct (Js.truthy _).
    + destruct (evaluateStockCriticalTx _ _ _) as [e|[res s3]] eqn:E3;
        [discriminate|]. injection E as _ <-.
      apply notificaciones_evaluateTx in E3. exact E3.
    + injection E as _ <-. reflexivity.
  - injection E as _ <-. rewrite notificaciones_deleteInventariosDeProducto.
    reflexivity.
Qed.

Lemma notificaciones_step (s : Store) (o : Op) :
  notificaciones s
  `prefix_of` notificaciones (step schemaCheck PRODUCTO_TIPO_VALUES s o).
Proof.
  destruct o; simpl.
  - apply notificaciones_evaluate.
  - unfold createInventario.
    destruct (assertProductoNoEsFlete _ s); [case_match; reflexivity|].
    destruct (checked _ _) as [e|s1] eqn:E; [repeat case_match; reflexivity|].
    apply checked_inr in E. subst s1.
    match goal with
    | |- context [evaluateStockCritical ?n ?j ?t] =>
      pose proof (notificaciones_evaluate n j t) as Hev;
      destruct (evaluateStockCritical n j t) as [[e|r] s2]
    end; exact Hev.
  - unfold updateInventario.
    destruct (negb (Js.truthy id)); [reflexivity|].
    destruct (inventarios s !! id) as [current|]; [|reflexivity].
    destruct (assertProductoNoEsFlete _ s); [case_match; reflexivity|].
    destruct (checked _ _) as [e|s1] eqn:E; [repeat case_match; reflexivity|].
    apply checked_inr in E. subst s1.
    destruct (touchedStockOrMin _); [|reflexivity].
    match goal with
    | |- context [evaluateStockCritical ?n ?j ?t] =>
      pose proof (notificaciones_evaluate n j t) as Hev;
      destruct (evaluateStockCritical n j t) as [[e|r] s2]
    end; exact Hev.
  - unfold deleteInventario. repeat case_match; reflexivity.
  - unfold createMovimientoStock, transaction.
    destruct (createMovimientoStockTx _ _ s) as [e|[res s']] eqn:E.
    + repeat case_match; reflexivity.
    + simpl. unfold createMovimientoStockTx in E.
      repeat (case_match; simplify_eq/=).
      match goal with
      | H : evaluateStockCriticalTx _ _ _ = inr _ |- _ =>
        apply notificaciones_evaluateTx in H; exact H
      end.
  - unfold importInventarioExcel. destruct normalizedRows as [|raw rest]; [reflexivity|].
    pose proof (notificaciones_importLoop clock (raw :: rest) 0 (emptyAcc, s)) as Hl.
    destruct (importLoop _ _ clock 0 (raw :: rest) (emptyAcc, s)) as [acc s'].
    exact Hl.
  - unfold ackStockAlert. repeat case_match; reflexivity.
  - unfold resolveStockAlert. repeat case_match; reflexivity.
Qed.

(** X10. The notification table is append-only: after any sequence of
    requests, the notifications that were there are still there, unchanged
    and in the same order, before the ones that were added. *)
Theorem notifications_are_append_only (ops : list Op) (s : Store) :
  exists added,
    notificaciones (run schemaCheck PRODUCTO_TIPO_VALUES ops s)
    = notificaciones s ++ added.
Proof.
  assert (H : notificaciones s
              `prefix_of` notificaciones (run schemaCheck PRODUCTO_TIPO_VALUES ops s)).
  { revert s. induction ops as [|o ops IH]; intros s; simpl; [reflexivity|].
    etransitivity; [apply notificaciones_step|apply IH]. }
  exact H.
Qed.

End Handlers.

(** * Listing and counting alerts *)

Global Instance newerFirst_trans : Transitive newerFirst.
Proof. intros x y z. unfold newerFirst. lia. Qed.

Global Instance newerFirst_total : Total newerFirst.
Proof. intros x y. unfold newerFirst. lia. Qed.

Lemma elem_of_alertsWithStatus (st : AlertStatus) (m : gmap string StockAlert)
  (x : string * StockAlert) :
  x ∈ alertsWithStatus st m <-> m !! x.1 = Some x.2 /\ a_status x.2 = st.
Proof.
  unfold alertsWithStatus. rewrite list_elem_of_filter.
  destruct x as [k a]. rewrite elem_of_map_to_list. simpl. tauto.
Qed.

Lemma queryStatus_cases :
  queryStatus None = OPEN
  /\ queryStatus (Some "") = OPEN
  /\ (forall v, statusOfString (Js.toUpperCase v) = None -> queryStatus (Some v) = OPEN)
  /\ (forall v st, statusOfString (Js.toUpperCase v) = Some st ->
                   queryStatus (Some v) = st).
Proof.
  repeat split.
  - intros v H. unfold queryStatus. destruct (Js.truthy v); [rewrite H|]; reflexivity.
  - intros v st H. unfold queryStatus. destruct v; [discriminate|].
    simpl. simpl in H. rewrite H. reflexivity.
Qed.

(** X11. For a status parameter of ASCII text (where [Js.toUpperCase] is
    the upper-casing of the code): the list of alerts for a status holds
    only stored alerts of that status, each once, newest first, and at
    most 200 of them: its length is the smaller of 200 and the number that
    the count end point reports for the same query, and when that number
    is at most 200 every alert of the status is listed.  A status that is
    absent, empty or not one of [OPEN], [ACK], [RESOLVED] (in any letter
    case) is read as [OPEN]. *)
Theorem alert_list_and_count (q : option string) (s : Store) :
  (forall v, q = Some v -> Js.isAscii v = true) ->
  exists rows n,
    listStockAlerts q s = Json 200 rows
    /\ countStockAlerts q s = Json 200 (queryStatus q, Z.of_nat n)
    /\ length rows = Nat.min 200 n
    /\ (forall r, r ∈ rows ->
                  alerts s !! al_id r = Some (al_alert r)
                  /\ a_status (al_alert r) = queryStatus q)
    /\ StronglySorted
         (fun r1 r2 => a_openedAt (al_alert r2) <= a_openedAt (al_alert r1)) rows
    /\ NoDup (al_id <$> rows)
    /\ ((n <= 200)%nat ->
        forall id a, alerts s !! id = Some a -> a_status a = queryStatus q ->
                     exists r, r ∈ rows /\ al_id r = id /\ al_alert r = a)
    /\ (queryStatus None = OPEN
        /\ forall v, Js.isAscii v = true ->
                     statusOfString (Js.toUpperCase v) = None ->
                     queryStatus (Some v) = OPEN).
Proof.
  intros _.
  set (st := queryStatus q).
  set (l := alertsWithStatus st (alerts s)).
  set (sorted := merge_sort newerFirst l).
  assert (Hperm : sorted ≡ₚ l) by apply merge_sort_Permutation.
  exists (alertRow s <$> take 200 sorted), (length l).
  split; [reflexivity|]. split; [reflexivity|]. split; [|split; [|split; [|split; [|split]]]].
  - rewrite length_fmap, length_take, Hperm. reflexivity.
  - intros r Hr. apply list_elem_of_fmap in Hr as (x & -> & Hx).
    apply subseteq_take in Hx. rewrite Hperm in Hx.
    apply elem_of_alertsWithStatus in Hx. exact Hx.
  - apply (StronglySorted_fmap _ newerFirst); [intros x y H; exact H|].
    apply (StronglySorted_app_1_l _ _ (drop 200 sorted)).
    rewrite take_drop. apply StronglySorted_merge_sort; apply _.
  - rewrite <- list_fmap_compose.
    change (al_id ∘ alertRow s) with (fst : string * StockAlert -> string).
    assert (Hl : NoDup (l.*1)).
    { assert (Hsub : l.*1 `sublist_of` (map_to_list (alerts s)).*1)
        by apply fmap_sublist, sublist_filter.
      exact (sublist_NoDup _ _ (NoDup_fst_map_to_list (alerts s)) Hsub). }
    assert (Hs : NoDup (sorted.*1)).
    { assert (Hp2 : sorted.*1 ≡ₚ l.*1) by apply fmap_Permutation, Hperm.
      rewrite Hp2. exact Hl. }
    assert (Hsub : (take 200 sorted).*1 `sublist_of` sorted.*1)
      by apply fmap_sublist, sublist_take.
    exact (sublist_NoDup _ _ Hs Hsub).
  - intros Hn id a Hid Hst.
    exists (alertRow s (id, a)). split; [|split; reflexivity].
    apply list_elem_of_fmap_2. rewrite take_ge.
    + rewrite Hperm. apply elem_of_alertsWithStatus. auto.
    + rewrite Hperm. exact Hn.
  - destruct queryStatus_cases as (H1 & _ & H3 & _).
    split; [exact H1|]. intros v _. apply H3.
Qed.

Lemma length_alertsWithStatus_insert (st : AlertStatus) (m : gmap string StockAlert)
  (id : Id) (a a' : StockAlert) :
  m !! id = Some a ->
  (length (alertsWithStatus st (<[id := a']> m))
   + (if decide (a_status a = st) then 1 else 0)
   = length (alertsWithStatus st m)
     + (if decide (a_status a' = st) then 1 else 0))%nat.
Proof.
  intros Hm. unfold alertsWithStatus.
  assert (H1 : map_to_list m ≡ₚ (id, a) :: map_to_list (delete id m)).
  { symmetry. apply map_to_list_delete, Hm. }
  assert (H2 : map_to_list (<[id := a']> m) ≡ₚ (id, a') :: map_to_list (delete id m)).
  { rewrite <- insert_delete_eq. apply map_to_list_insert, lookup_delete_eq. }
  rewrite H1, H2, !filter_cons. simpl.
  destruct (decide (a_status a = st)), (decide (a_status a' = st)); simpl; lia.
Qed.

(** X12. Acknowledging an [OPEN] alert moves it from the [OPEN] count to
    the [ACK] count, and resolving by hand an alert that is [OPEN] or [ACK]
    moves it from the count of its status to the [RESOLVED] count; the
    other counts stay as they are. *)
Theorem counts_follow_ack_and_resolve (now : Z) (id : Id) (s : Store) (a : StockAlert) :
  alerts s !! id = Some a ->
  let count st t := length (alertsWithStatus st (alerts t)) in
  (forall q t, countStockAlerts q t = Json 200 (queryStatus q, Z.of_nat (count (queryStatus q) t)))
  /\ (a_status a = OPEN ->
      let s' := (ackStockAlert now id s).2 in
      count OPEN s = S (count OPEN s')
      /\ count ACK s' = S (count ACK s)
      /\ count RESOLVED s' = count RESOLVED s)
  /\ (a_status a <> RESOLVED ->
      let s' := (resolveStockAlert now id s).2 in
      count (a_status a) s = S (count (a_status a) s')
      /\ count RESOLVED s' = S (count RESOLVED s)
      /\ (forall st, st <> a_status a -> st <> RESOLVED -> count st s' = count st s)).
Proof.
  intros Ha count. split; [reflexivity|]. split.
  - intros Hst s'. subst s' count. unfold ackStockAlert. rewrite Ha.
    rewrite bool_decide_eq_true_2 by exact Hst. simpl.
    pose proof (fun st => length_alertsWithStatus_insert st (alerts s) id a
                            (ackAlert now a) Ha) as H.
    pose proof (H OPEN) as Ho. pose proof (H ACK) as Hk. pose proof (H RESOLVED) as Hr.
    simpl in Ho, Hk, Hr. rewrite Hst in Ho, Hk, Hr.
    repeat case_decide; try congruence. repeat split; lia.
  - intros Hst s'. subst s' count. unfold resolveStockAlert. rewrite Ha.
    rewrite bool_decide_eq_false_2 by exact Hst. simpl.
    pose proof (fun st => length_alertsWithStatus_insert st (alerts s) id a
                            (markResolved now a) Ha) as H.
    split; [|split].
    + specialize (H (a_status a)). simpl in H.
      repeat case_decide; try congruence; lia.
    + specialize (H RESOLVED). simpl in H.
      repeat case_decide; try congruence; lia.
    + intros st H1 H2. specialize (H st). simpl in H.
      repeat case_decide; try congruence; lia.
Qed.

(** * Acknowledging and evaluating *)

Lemma freshId_insert_existing {A} (m : gmap string A) (k : Id) (a a' : A) :
  m !! k = Some a -> freshId (<[k := a']> m) = freshId m.
Proof.
  intros H. unfold freshId. rewrite dom_insert_lookup_L; [reflexivity|].
  rewrite H. eauto.
Qed.

(** What [findFirst] returns after an active alert has been rewritten
    without touching [isActive] and [inventarioId]. *)
Lemma findFirstActive_rewrite (s : Store) (i id : Id) (a a' : StockAlert) :
  oneActivePerInventario s ->
  alerts s !! id = Some a ->
  a_isActive a' = a_isActive a -> a_inventarioId a' = a_inventarioId a ->
  findFirstActive i (<[id := a']> (alerts s))
  = (fun x : Id * StockAlert => (x.1, if decide (x.1 = id) then a' else x.2))
      <$> findFirstActive i (alerts s).
Proof.
  intros Hone Ha Hact Hinv.
  set (s' := withAlerts (<[id := a']> (alerts s)) s).
  assert (Hone' : oneActivePerInventario s').
  { eapply noNewActive_one; [|exact Hone].
    eapply noNewActive_rewrite; eauto. }
  destruct (findFirstActive i (alerts s)) as [[k b]|] eqn:E; simpl.
  - apply findFirstActive_Some in E as (Hk & Hi & Hb).
    apply (findFirstActive_unique s' i k); auto.
    + simpl. destruct (decide (k = id)) as [->|Hne].
      * apply lookup_insert_eq.
      * rewrite lookup_insert_ne by congruence. exact Hk.
    + destruct (decide (k = id)) as [->|Hne]; auto.
      pose proof (eq_trans (eq_sym Hk) Ha) as Hba. injection Hba as ->. congruence.
    + destruct (decide (k = id)) as [->|Hne]; auto.
      pose proof (eq_trans (eq_sym Hk) Ha) as Hba. injection Hba as ->. congruence.
  - destruct (findFirstActive i (<[id := a']> (alerts s))) as [[k b]|] eqn:E';
      [|reflexivity].
    apply findFirstActive_Some in E' as (Hk & Hi & Hb). exfalso.
    destruct (decide (id = k)) as [<-|Hne].
    + rewrite lookup_insert_eq in Hk. injection Hk as <-.
      rewrite (findFirstActive_None _ _ _ _ E Ha) in Hact by congruence.
      congruence.
    + rewrite lookup_insert_ne in Hk by exact Hne.
      rewrite (findFirstActive_None _ _ _ _ E Hk Hi) in Hb. discriminate.
Qed.

(** X13. Acknowledging an alert does not change what the evaluator answers
    next: with at most one active alert per inventory, the evaluation of
    any inventory gives the same action, alert id and reason whether or not
    some alert has been acknowledged in between (an acknowledged alert is
    still the active alert of its episode: it is not created again, it is
    resent after the cooldown and resolved when the stock recovers). *)
Theorem ack_does_not_change_evaluation (now t : Z) (i id : Id) (s s1 : Store)
  (r : EvalResult) :
  oneActivePerInventario s ->
  evaluateStockCriticalTx now i s = inr (r, s1) ->
  exists s2, evaluateStockCriticalTx now i (ackStockAlert t id s).2 = inr (r, s2).
Proof.
  intros Hone H. unfold ackStockAlert.
  destruct (alerts s !! id) as [a0|] eqn:Ha; simpl; [|eauto].
  destruct (negb (bool_decide (a_status a0 = OPEN))); simpl; [eauto|].
  pose proof (findFirstActive_rewrite s i id a0 (ackAlert t a0) Hone Ha eq_refl eq_refl)
    as Hfind.
  pose proof (freshId_insert_existing (alerts s) id a0 (ackAlert t a0) Ha) as Hfresh.
  unfold evaluateStockCriticalTx in *. simpl.
  destruct (inventarios s !! i) as [inv|]; [|simplify_eq; eauto].
  destruct (isFleteTipo _); [simplify_eq; eauto|].
  destruct (bool_decide (r_enabled <$> rules s !! i = Some false));
    [simplify_eq; eauto|].
  rewrite Hfind, Hfresh.
  destruct (findFirstActive i (alerts s)) as [[k b]|] eqn:Hf; simpl.
  - apply findFirstActive_Some in Hf as (Hk & _ & _).
    assert (Hl : lastNotified (rules s !! i)
                   (if decide (k = id) then ackAlert t a0 else b)
                 = lastNotified (rules s !! i) b).
    { destruct (decide (k = id)) as [->|Hne]; [|reflexivity].
      pose proof (eq_trans (eq_sym Hk) Ha) as Hba. injection Hba as ->.
      reflexivity. }
    rewrite Hl. repeat (case_match; simplify_eq/=); eauto.
  - repeat (case_match; simplify_eq/=); eauto.
Qed.

(** * Further properties of the import *)

Lemma mapTipoToPrismaEnum_In (values : list string) (raw v : string) :
  mapTipoToPrismaEnum values raw = Some v -> In v values.
Proof.
  unfold mapTipoToPrismaEnum, findTruthy. intros H.
  repeat (case_match; simplify_eq/=);
    match goal with
    | E : List.find _ _ = Some ?x |- In ?x _ => apply find_some in E as [E _]; exact E
    end.
Qed.

(** X14. [mapTipoToPrismaEnum] never invents a category: whatever it
    returns is a value of the enum; and a value of the enum, written as it
    is, maps to itself. *)
Theorem tipo_maps_into_the_enum (PRODUCTO_TIPO_VALUES : list string) (raw : string) :
  (forall v, mapTipoToPrismaEnum PRODUCTO_TIPO_VALUES raw = Some v ->
             In v PRODUCTO_TIPO_VALUES)
  /\ (In raw PRODUCTO_TIPO_VALUES -> Js.trim raw = raw -> raw <> "" ->
      mapTipoToPrismaEnum PRODUCTO_TIPO_VALUES raw = Some raw).
Proof.
  split; [intros v; apply mapTipoToPrismaEnum_In|].
  intros Hin Htrim Hne. unfold mapTipoToPrismaEnum, findTruthy. rewrite Htrim.
  destruct (String.eqb raw "") eqn:E; [apply String.eqb_eq in E; contradiction|].
  destruct (List.find (fun v => String.eqb v raw) PRODUCTO_TIPO_VALUES) as [v|] eqn:Ef.
  - apply find_some in Ef as [_ Ev]. apply String.eqb_eq in Ev. subst v.
    unfold Js.truthy. rewrite E. reflexivity.
  - pose proof (find_none _ _ Ef raw Hin) as Hc. simpl in Hc.
    rewrite String.eqb_refl in Hc. discriminate.
Qed.

(** X15. A row that [parseImportRow] accepts is well formed: its SKU and
    its name are not empty, its category is a value of the enum, its
    price, stock and minimum are not negative, its photo is absent rather
    than blank, and unless it is a freight it carries an inventory code
    that is not empty. *)
Theorem parsed_rows_are_well_formed (PRODUCTO_TIPO_VALUES : list string) (obj : RawRow)
  (r : ImportRow) :
  parseImportRow PRODUCTO_TIPO_VALUES obj = inr r ->
  row_sku r <> "" /\ row_nombre r <> ""
  /\ In (row_tipo r) PRODUCTO_TIPO_VALUES
  /\ 0 <= row_precio r /\ 0 <= row_stock r /\ 0 <= row_minimo r
  /\ row_fotoUrl r <> Some ""
  /\ (isFleteTipo (Some (row_tipo r)) = false ->
      exists c, row_codigo r = Some c /\ c <> "").
Proof.
  intros H.
  destruct (parseImportRow_nonneg PRODUCTO_TIPO_VALUES obj r H) as (Hp & Hs & Hm).
  unfold parseImportRow in H.
  destruct (falsy (normalizeSku (raw_sku obj))) eqn:Hsku; [discriminate|].
  destruct (Js.truthy (Js.trim (raw_nombre obj))) eqn:Hnom; simpl in H; [|discriminate].
  destruct (falsy (mapTipoToPrismaEnum _ _)) eqn:Htipo; [discriminate|].
  destruct (negb (isFleteTipo _) && falsy _) eqn:Hcod; [discriminate|].
  injection H as <-. simpl.
  destruct (normalizeSku (raw_sku obj)) as [sku|]; [|discriminate].
  destruct (mapTipoToPrismaEnum _ _) as [tipo|] eqn:Et; [|discriminate].
  simpl in *.
  assert (Hne : forall v, Js.truthy v = true -> v <> "").
  { intros v Hv ->. discriminate. }
  split; [apply Hne; apply negb_false_iff, Hsku|].
  split; [apply Hne, Hnom|].
  split; [eapply mapTipoToPrismaEnum_In, Et|].
  split; [exact Hp|]. split; [exact Hs|]. split; [exact Hm|].
  split.
  - destruct (Js.truthy (Js.trim (raw_fotourl obj))) eqn:Hf; [|discriminate].
    intros [= Heq]. rewrite Heq in Hf. discriminate.
  - intros Hflete. rewrite Hflete in Hcod. simpl in Hcod.
    destruct (normalizeInvCode (raw_codigo obj)) as [c|]; [|discriminate].
    exists c. split; [reflexivity|]. apply Hne. simpl in Hcod.
    apply negb_false_iff, Hcod.
Qed.

Section ImportRows.

Variable schemaCheck : Store -> option ApiError.
Variable PRODUCTO_TIPO_VALUES : list string.

Lemma productos_deleteInventariosDeProducto (productoId : Id) (s : Store) :
  productos (deleteInventariosDeProducto productoId s) = productos s.
Proof.
  unfold deleteInventariosDeProducto.
  induction (List.map fst _) as [|k ks IH]; simpl; auto.
Qed.

Lemma inventarios_foldr_deleteInventarioRow (ks : list Id) (s : Store) :
  inventarios (foldr deleteInventarioRow s ks) = foldr delete (inventarios s) ks.
Proof. induction ks as [|k ks IH]; simpl; [reflexivity|]. rewrite IH. reflexivity. Qed.

(** What [deleteMany({ where: { productoId } })] leaves in the inventory
    table. *)
Lemma inventarios_deleteInventariosDeProducto (productoId : Id) (s : Store) (i : Id)
  (inv : Inventario) :
  inventarios (deleteInventariosDeProducto productoId s) !! i = Some inv
  <-> inventarios s !! i = Some inv /\ i_productoId inv <> productoId.
Proof.
  unfold deleteInventariosDeProducto.
  rewrite inventarios_foldr_deleteInventarioRow, lookup_foldr_delete_Some.
  split.
  - intros [Hnot Hi]. split; [exact Hi|]. intros Heq. apply Hnot.
    apply list_elem_of_In, in_map_iff. exists (i, inv). split; [reflexivity|].
    apply filter_In. split.
    + apply list_elem_of_In, elem_of_map_to_list, Hi.
    + simpl. apply String.eqb_eq, Heq.
  - intros [Hi Hne]. split; [|exact Hi]. intros Hin.
    apply list_elem_of_In, in_map_iff in Hin as ([k inv'] & Hk & Hin).
    simpl in Hk. subst k. apply filter_In in Hin as [Hin Hp].
    apply list_elem_of_In, elem_of_map_to_list in Hin.
    simpl in Hp. apply String.eqb_eq in Hp.
    pose proof (eq_trans (eq_sym Hin) Hi) as Heq. injection Heq as ->.
    contradiction.
Qed.

(** The product that the transaction of a row writes, and under which id. *)
Lemma importRowTx_producto (now : Z) (r : ImportRow) (s s' : Store) (flags : ImportFlags) :
  importRowTx schemaCheck now r s = inr (flags, s') ->
  let existing := findProductoBySku (row_sku r) (productos s) in
  let pid := match existing with
             | Some (id, _) => id
             | None => freshId (productos s)
             end in
  productos s' = <[pid := productoOfRow r]> (productos s)
  /\ productoUpdated flags = bool_decide (is_Some existing)
  /\ productoCreated flags = negb (bool_decide (is_Some existing)).
Proof.
  intros H existing pid. subst existing pid. unfold importRowTx in H.
  destruct (checked _ _) as [e|s1] eqn:E1; [discriminate|].
  apply checked_inr in E1. subst s1.
  destruct (negb (isFleteTipo _)).
  - destruct (checked _ _) as [e|s2] eqn:E2; [discriminate|].
    apply checked_inr in E2. subst s2.
    destruct (Js.truthy _).
    + destruct (evaluateStockCriticalTx _ _ _) as [e|[res s3]] eqn:E3;
        [discriminate|]. injection H as <- <-.
      apply evaluateStockCriticalTx_frame in E3 as (Ep & _ & _).
      rewrite Ep. repeat split.
    + injection H as <- <-. repeat split.
  - injection H as <- <-. rewrite productos_deleteInventariosDeProducto.
    repeat split.
Qed.




(** X17. Importing a freight row removes the inventories of its product:
    after the row's transaction no inventory refers to the product it
    wrote, the inventories of other products are as they were, and the
    row reports no inventory. *)
Theorem freight_row_removes_inventories (now : Z) (r : ImportRow) (s s' : Store)
  (flags : ImportFlags) :
  isFleteTipo (Some (row_tipo r)) = true ->
  importRowTx schemaCheck now r s = inr (flags, s') ->
  exists pid,
    productos s' !! pid = Some (productoOfRow r)
    /\ (forall i inv, inventarios s' !! i = Some inv
                      <-> inventarios s !! i = Some inv /\ i_productoId inv <> pid)
    /\ invId flags = None /\ invCreated flags = false /\ invUpdated flags = false.
Proof.
  intros Hflete H.
  destruct (importRowTx_producto _ _ _ _ _ H) as (Hp & _ & _).
  match type of Hp with
  | _ = <[?k := _]> _ => set (pid := k) in *
  end.
  exists pid. split; [rewrite Hp; apply lookup_insert_eq|].
  unfold importRowTx in H.
  destruct (checked _ _) as [e|s1] eqn:E1; [discriminate|].
  apply checked_inr in E1. subst s1. rewrite Hflete in H. simpl in H.
  injection H as <- <-. fold pid. split; [|repeat split].
  intros i inv. rewrite inventarios_deleteInventariosDeProducto. reflexivity.
Qed.

End ImportRows.

(** * Import: isolation and commitment of the rows *)

Section ImportCommit.

Variable schemaCheck : Store -> option ApiError.
Variable PRODUCTO_TIPO_VALUES : list string.

Local Abbreviation importOne' := (importOne schemaCheck PRODUCTO_TIPO_VALUES).
Local Abbreviation importLoop' := (importLoop schemaCheck PRODUCTO_TIPO_VALUES).
Local Abbreviation rowFailure' := (rowFailure schemaCheck PRODUCTO_TIPO_VALUES).
Local Abbreviation parseImportRow' := (parseImportRow PRODUCTO_TIPO_VALUES).








End ImportCommit.


Section ImportReport.

Variable schemaCheck : Store -> option ApiError.
Variable PRODUCTO_TIPO_VALUES : list string.

Lemma erroresOrdenados_importOne (now : Z) (i : nat) (raw : RawRow)
  (st : ImportAcc * Store) :
  erroresOrdenados i st.1 ->
  erroresOrdenados (S i) (importOne schemaCheck PRODUCTO_TIPO_VALUES now i raw st).1.
Proof.
  intros [Hs Hb].
  assert (Hkeep : erroresOrdenados (S i) st.1).
  { split; [exact Hs|]. eapply Forall_impl; [exact Hb|].
    intros e He. cbv beta in *. lia. }
  assert (Hpush : forall msg, erroresOrdenados (S i) (pushError (Z.of_nat i + 2) msg st.1)).
  { intros msg. split; unfold pushError; cbn [errores].
    - rewrite fmap_app. apply StronglySorted_app_2.
      + intros x1 x2 H1 H2. apply list_elem_of_fmap in H1 as (e & -> & He).
        apply list_elem_of_singleton in H2. subst x2. cbn [row].
        rewrite Forall_forall in Hb. apply Hb in He. lia.
      + exact Hs.
      + repeat constructor.
    - apply Forall_app. split.
      + eapply Forall_impl; [exact Hb|]. intros e He. cbv beta in *. lia.
      + repeat constructor; cbn [row]; lia. }
  unfold importOne, transaction.
  destruct (parseImportRow _ raw) as [msg|r]; simpl; [apply Hpush|].
  destruct (importRowTx _ _ r st.2) as [e|[flags s']]; simpl; [apply Hpush|].
  exact Hkeep.
Qed.

Lemma erroresOrdenados_importLoop (clock : nat -> Z) (rows : list RawRow) (i : nat)
  (st : ImportAcc * Store) :
  erroresOrdenados i st.1 ->
  erroresOrdenados (i + length rows)
    (importLoop schemaCheck PRODUCTO_TIPO_VALUES clock i rows st).1.
Proof.
  revert i st. induction rows as [|raw rest IH]; intros i st H; simpl.
  - rewrite Nat.add_0_r. exact H.
  - replace (i + S (length rest))%nat with (S i + length rest)%nat by lia.
    apply IH, erroresOrdenados_importOne, H.
Qed.

(** X18. The error report of an import points at sheet rows: its entries
    come in strictly increasing row order (so no row is reported twice),
    every row number lies between 2 and the number of rows plus 1, and
    there are no more entries than rows. *)
Theorem import_errors_are_ordered (clock : nat -> Z) (rows : list RawRow) (s : Store) :
  let final := importLoop schemaCheck PRODUCTO_TIPO_VALUES clock 0 rows (emptyAcc, s) in
  StronglySorted Z.lt (row <$> errores final.1)
  /\ Forall (fun e => 2 <= row e <= Z.of_nat (length rows) + 1) (errores final.1)
  /\ (length (errores final.1) <= length rows)%nat.
Proof.
  intros final.
  destruct (erroresOrdenados_importLoop clock rows 0 (emptyAcc, s)) as [Hs Hb].
  { split; simpl; constructor. }
  fold final in Hs, Hb. split; [exact Hs|]. split.
  - eapply Forall_impl; [exact Hb|]. intros e He. cbv beta in *. lia.
  - pose proof (importLoop_count schemaCheck PRODUCTO_TIPO_VALUES clock rows 0
                  (emptyAcc, s)) as Hc.
    fold final in Hc. unfold processed in Hc. simpl in Hc.
    assert (Hpos : forall (rs : list RawRow) i st,
               0 <= createdProductos st.1 -> 0 <= updatedProductos st.1 ->
               let f := importLoop schemaCheck PRODUCTO_TIPO_VALUES clock i rs st in
               0 <= createdProductos f.1 /\ 0 <= updatedProductos f.1).
    { induction rs as [|raw rest IH]; intros i st H1 H2; simpl; [auto|].
      apply IH; unfold importOne, transaction;
        destruct (parseImportRow _ raw) as [m|r]; simpl; auto;
        destruct (importRowTx _ _ r st.2) as [e|[flags s']]; simpl; auto;
        unfold incr; case_match; lia. }
    destruct (Hpos rows 0%nat (emptyAcc, s)) as [H1 H2]; simpl; try lia.
    fold final in H1, H2. clearbody final. lia.
Qed.

End ImportReport.

(** * Normalised codes and texts *)

(** ** Characters *)

Local Ltac each_ascii c := destruct c as [[] [] [] [] [] [] [] []].

Lemma upperChar_idem (c : ascii) : Js.upperChar (Js.upperChar c) = Js.upperChar c.
Proof. each_ascii c; reflexivity. Qed.

Lemma isSpace_upperChar (c : ascii) : Js.isSpace (Js.upperChar c) = Js.isSpace c.
Proof. each_ascii c; reflexivity. Qed.

Lemma isDigit_upperChar (c : ascii) : Js.isDigit (Js.upperChar c) = Js.isDigit c.
Proof. each_ascii c; reflexivity. Qed.

Lemma lowerChar_upperChar (c : ascii) : Js.lowerChar (Js.upperChar c) = Js.lowerChar c.
Proof. each_ascii c; reflexivity. Qed.

Lemma upperChar_lowerChar (c : ascii) : Js.upperChar (Js.lowerChar c) = Js.upperChar c.
Proof. each_ascii c; reflexivity. Qed.

Lemma isSpace_lowerChar (c : ascii) : Js.isSpace (Js.lowerChar c) = Js.isSpace c.
Proof. each_ascii c; reflexivity. Qed.

Lemma isDigit_lowerChar (c : ascii) : Js.isDigit (Js.lowerChar c) = Js.isDigit c.
Proof. each_ascii c; reflexivity. Qed.

Lemma upperChar_digit (c : ascii) : Js.isDigit c = true -> Js.upperChar c = c.
Proof. each_ascii c; intros H; try reflexivity; discriminate H. Qed.

Lemma isSpace_digit (c : ascii) : Js.isDigit c = true -> Js.isSpace c = false.
Proof. each_ascii c; intros H; try reflexivity; discriminate H. Qed.

Lemma lowerChar_hyphen (c : ascii) : Js.lowerChar c = "-"%char -> c = "-"%char.
Proof. each_ascii c; intros H; try reflexivity; discriminate H. Qed.

(** ** Strings *)

Lemma mapString_app (f : ascii -> ascii) (a b : string) :
  Js.mapString f (a +:+ b) = Js.mapString f a +:+ Js.mapString f b.
Proof. induction a as [|c a IH]; simpl; [reflexivity|]. now rewrite IH. Qed.

Lemma string_app_assoc (a b c : string) : a +:+ b +:+ c = (a +:+ b) +:+ c.
Proof.
  induction a as [|x a IH]; [reflexivity|].
  change (String x (a +:+ b +:+ c) = String x ((a +:+ b) +:+ c)).
  now rewrite IH.
Qed.

Lemma length_mapString (f : ascii -> ascii) (s : string) :
  String.length (Js.mapString f s) = String.length s.
Proof. induction s as [|c s IH]; simpl; [reflexivity|]. now rewrite IH. Qed.

Lemma substring_mapString (f : ascii -> ascii) (n m : nat) (s : string) :
  String.substring n m (Js.mapString f s) = Js.mapString f (String.substring n m s).
Proof.
  revert n m. induction s as [|c s IH]; intros [|n] [|m]; simpl; try reflexivity.
  - now rewrite IH.
  - apply IH.
  - apply IH.
Qed.

Lemma toUpperCase_idem (s : string) :
  Js.toUpperCase (Js.toUpperCase s) = Js.toUpperCase s.
Proof.
  unfold Js.toUpperCase. induction s as [|c s IH]; simpl; [reflexivity|].
  now rewrite upperChar_idem, IH.
Qed.

Lemma toLowerCase_toUpperCase (s : string) :
  Js.toLowerCase (Js.toUpperCase s) = Js.toLowerCase s.
Proof.
  unfold Js.toLowerCase, Js.toUpperCase. induction s as [|c s IH]; simpl; [reflexivity|].
  now rewrite lowerChar_upperChar, IH.
Qed.

Lemma toUpperCase_toLowerCase (s : string) :
  Js.toUpperCase (Js.toLowerCase s) = Js.toUpperCase s.
Proof.
  unfold Js.toLowerCase, Js.toUpperCase. induction s as [|c s IH]; simpl; [reflexivity|].
  now rewrite upperChar_lowerChar, IH.
Qed.

Lemma toUpperCase_digits (s : string) :
  Js.allDigits s = true -> Js.toUpperCase s = s.
Proof.
  unfold Js.toUpperCase. induction s as [|c s IH]; simpl; [reflexivity|].
  intros [Hc Hs]%andb_true_iff. now rewrite upperChar_digit, IH.
Qed.

Lemma allDigits_toUpperCase (s : string) :
  Js.allDigits (Js.toUpperCase s) = Js.allDigits s.
Proof.
  unfold Js.toUpperCase. induction s as [|c s IH]; simpl; [reflexivity|].
  now rewrite isDigit_upperChar, IH.
Qed.

Lemma eqb_empty_mapString (f : ascii -> ascii) (s : string) :
  String.eqb (Js.mapString f s) "" = String.eqb s "".
Proof. destruct s; reflexivity. Qed.

Lemma isDigits1_toUpperCase (s : string) :
  Js.isDigits1 (Js.toUpperCase s) = Js.isDigits1 s.
Proof.
  unfold Js.isDigits1. rewrite allDigits_toUpperCase.
  unfold Js.toUpperCase. now rewrite eqb_empty_mapString.
Qed.

Lemma isDigits1_spec (s : string) :
  Js.isDigits1 s = true <-> s <> "" /\ Js.allDigits s = true.
Proof.
  unfold Js.isDigits1. rewrite andb_true_iff, negb_true_iff, String.eqb_neq. tauto.
Qed.

Lemma dropNonDigits_toUpperCase (s : string) :
  Js.dropNonDigits (Js.toUpperCase s) = Js.toUpperCase (Js.dropNonDigits s).
Proof.
  unfold Js.toUpperCase. induction s as [|c s IH]; simpl; [reflexivity|].
  rewrite isDigit_upperChar. destruct (Js.isDigit c); [reflexivity|exact IH].
Qed.

Lemma trimStart_toUpperCase (s : string) :
  Js.trimStart (Js.toUpperCase s) = Js.toUpperCase (Js.trimStart s).
Proof.
  unfold Js.toUpperCase. induction s as [|c s IH]; simpl; [reflexivity|].
  rewrite isSpace_upperChar. destruct (Js.isSpace c); [exact IH|reflexivity].
Qed.

Lemma trimEnd_toUpperCase (s : string) :
  Js.trimEnd (Js.toUpperCase s) = Js.toUpperCase (Js.trimEnd s).
Proof.
  unfold Js.toUpperCase. induction s as [|c s IH]; simpl; [reflexivity|].
  rewrite IH, isSpace_upperChar.
  destruct (Js.trimEnd s); simpl; [destruct (Js.isSpace c)|]; reflexivity.
Qed.

Lemma trim_toUpperCase (s : string) :
  Js.trim (Js.toUpperCase s) = Js.toUpperCase (Js.trim s).
Proof. unfold Js.trim. now rewrite trimStart_toUpperCase, trimEnd_toUpperCase. Qed.

Lemma noLead_trimStart (s : string) : noLead (Js.trimStart s).
Proof.
  induction s as [|c s IH]; simpl; [exact I|].
  destruct (Js.isSpace c) eqn:E; [exact IH|exact E].
Qed.

Lemma trimStart_noLead (s : string) : noLead s -> Js.trimStart s = s.
Proof. destruct s as [|c s]; simpl; [reflexivity|]. now intros ->. Qed.

Lemma noLead_trimEnd (s : string) : noLead s -> noLead (Js.trimEnd s).
Proof.
  destruct s as [|c s]; simpl; [exact id|]. intros H.
  destruct (Js.trimEnd s); [rewrite H|]; exact H.
Qed.

Lemma trimEnd_idem (s : string) : Js.trimEnd (Js.trimEnd s) = Js.trimEnd s.
Proof.
  induction s as [|c s IH]; simpl; [reflexivity|].
  destruct (Js.trimEnd s) as [|c' r] eqn:E.
  - destruct (Js.isSpace c) eqn:Ec; simpl; [reflexivity|]. now rewrite Ec.
  - simpl in IH |- *. now rewrite IH.
Qed.

Lemma trim_idem (s : string) : Js.trim (Js.trim s) = Js.trim s.
Proof.
  unfold Js.trim.
  rewrite (trimStart_noLead (Js.trimEnd (Js.trimStart s))).
  - apply trimEnd_idem.
  - apply noLead_trimEnd, noLead_trimStart.
Qed.

Lemma trimEnd_digits (d : string) :
  Js.allDigits d = true -> Js.trimEnd d = d.
Proof.
  induction d as [|c d IH]; simpl; [reflexivity|].
  intros [Hc Hd]%andb_true_iff. rewrite (IH Hd).
  destruct d; [now rewrite (isSpace_digit c Hc)|reflexivity].
Qed.

Lemma trimEnd_app_digits (x d : string) :
  Js.isDigits1 d = true -> Js.trimEnd (x +:+ d) = x +:+ d.
Proof.
  intros [Hne Hd]%isDigits1_spec.
  induction x as [|c x IH]; [now apply trimEnd_digits|].
  change (String c x +:+ d) with (String c (x +:+ d)).
  cbn [Js.trimEnd]. rewrite IH. destruct (x +:+ d) eqn:E; [|reflexivity].
  destruct x; simpl in E; [contradiction|discriminate].
Qed.

Lemma substring_0_app (p d : string) :
  String.substring 0 (String.length p) (p +:+ d) = p.
Proof. induction p as [|c p IH]; simpl; [now destruct d|]. now rewrite IH. Qed.

Lemma substring_0_length (d : string) :
  String.substring 0 (String.length d) d = d.
Proof. induction d as [|c d IH]; simpl; [reflexivity|]. now rewrite IH. Qed.

Lemma length_app_string (p d : string) :
  String.length (p +:+ d) = (String.length p + String.length d)%nat.
Proof. induction p as [|c p IH]; simpl; [reflexivity|]. now rewrite IH. Qed.

Lemma substring_skip_app (p d : string) (m : nat) :
  String.substring (String.length p) m (p +:+ d) = String.substring 0 m d.
Proof. induction p as [|c p IH]; simpl; [reflexivity|]. exact IH. Qed.

Lemma stripPrefixCI_app (p q d : string) :
  Js.toLowerCase q = Js.toLowerCase p ->
  Js.stripPrefixCI p (q +:+ d) = Some d.
Proof.
  intros H. unfold Js.stripPrefixCI.
  assert (Hl : String.length p = String.length q).
  { unfold Js.toLowerCase in H.
    rewrite <- (length_mapString Js.lowerChar p), <- H. apply length_mapString. }
  rewrite Hl, substring_0_app, H, String.eqb_refl, substring_skip_app.
  rewrite length_app_string.
  replace (String.length q + String.length d - String.length q)%nat
    with (String.length d) by lia.
  now rewrite substring_0_length.
Qed.

Lemma stripPrefixCI_toUpperCase (p s : string) :
  Js.stripPrefixCI p (Js.toUpperCase s) = Js.toUpperCase <$> Js.stripPrefixCI p s.
Proof.
  unfold Js.stripPrefixCI, Js.toUpperCase.
  rewrite !substring_mapString, length_mapString.
  fold (Js.toUpperCase (String.substring 0 (String.length p) s)).
  rewrite toLowerCase_toUpperCase.
  destruct (String.eqb _ _); reflexivity.
Qed.

(** ** [normalizeSku] and [normalizeInvCode] *)

Section Normalize.

Variable pfx : string.
Hypothesis pfx_upper : Js.toUpperCase pfx = pfx.
Hypothesis pfx_letter :
  match pfx with
  | String c _ => Js.isSpace c = false /\ Js.isDigit c = false
  | EmptyString => False
  end.

Lemma toUpperCase_canonical (d : string) :
  Js.allDigits d = true ->
  Js.toUpperCase (pfx +:+ "-" +:+ d) = pfx +:+ "-" +:+ d.
Proof.
  intros Hd. unfold Js.toUpperCase. rewrite mapString_app.
  fold (Js.toUpperCase pfx). rewrite pfx_upper. simpl.
  fold (Js.toUpperCase d). now rewrite toUpperCase_digits.
Qed.

Lemma normalizeWithPrefix_trim (raw : string) :
  normalizeWithPrefix pfx (Js.trim raw) = normalizeWithPrefix pfx raw.
Proof. unfold normalizeWithPrefix. now rewrite trim_idem. Qed.

Lemma normalizeWithPrefix_toUpperCase (raw : string) :
  normalizeWithPrefix pfx (Js.toUpperCase raw)
  = Js.toUpperCase <$> normalizeWithPrefix pfx raw.
Proof.
  unfold normalizeWithPrefix. rewrite trim_toUpperCase.
  set (s := Js.trim raw). cbv zeta.
  unfold Js.toUpperCase at 1. rewrite eqb_empty_mapString.
  destruct (String.eqb s ""); [reflexivity|].
  rewrite !stripPrefixCI_toUpperCase, isDigits1_toUpperCase.
  assert (Hrest : (match Js.toUpperCase <$> Js.stripPrefixCI (pfx +:+ "-") s with
                   | Some rest => Js.isDigits1 rest
                   | None => false
                   end)
                  = match Js.stripPrefixCI (pfx +:+ "-") s with
                    | Some rest => Js.isDigits1 rest
                    | None => false
                    end).
  { destruct (Js.stripPrefixCI (pfx +:+ "-") s); simpl;
      [apply isDigits1_toUpperCase|reflexivity]. }
  rewrite Hrest.
  destruct (match Js.stripPrefixCI (pfx +:+ "-") s with
            | Some rest => Js.isDigits1 rest
            | None => false
            end); [reflexivity|].
  destruct (Js.isDigits1 s) eqn:Hs.
  { simpl. apply isDigits1_spec in Hs as [_ Hs].
    rewrite toUpperCase_canonical, toUpperCase_digits by exact Hs. reflexivity. }
  destruct (Js.stripPrefixCI pfx s) as [rest|]; simpl; [|reflexivity].
  rewrite dropNonDigits_toUpperCase, isDigits1_toUpperCase.
  destruct (Js.isDigits1 (Js.dropNonDigits rest)) eqn:Hd; simpl; [|reflexivity].
  apply isDigits1_spec in Hd as [_ Hd].
  rewrite (toUpperCase_digits _ Hd). now rewrite toUpperCase_idem.
Qed.

Lemma normalizeWithPrefix_cases (raw c : string) :
  normalizeWithPrefix pfx raw = Some c ->
  Js.trim raw <> ""
  /\ (c = Js.toUpperCase (Js.trim raw)
      \/ exists d, Js.isDigits1 d = true /\ c = pfx +:+ "-" +:+ d).
Proof.
  unfold normalizeWithPrefix. set (s := Js.trim raw). cbv zeta.
  destruct (String.eqb s "") eqn:E; [discriminate|].
  apply String.eqb_neq in E. intros H. split; [exact E|].
  destruct (match Js.stripPrefixCI (pfx +:+ "-") s with
            | Some rest => Js.isDigits1 rest
            | None => false
            end); [injection H as <-; now left|].
  destruct (Js.isDigits1 s) eqn:Hs; [injection H as <-; right; eauto|].
  destruct (Js.stripPrefixCI pfx s) as [rest|]; [|injection H as <-; now left].
  destruct (Js.isDigits1 (Js.dropNonDigits rest)) eqn:Hd;
    injection H as <-; [right|now left].
  exists (Js.dropNonDigits rest). split; [exact Hd|].
  apply toUpperCase_canonical. now apply isDigits1_spec in Hd.
Qed.

Lemma noLead_pfx : noLead pfx.
Proof. destruct pfx; [contradiction|]. simpl. tauto. Qed.

Lemma pfx_nonempty : pfx <> "".
Proof. destruct pfx; [contradiction|discriminate]. Qed.

Lemma trim_canonical (q x d : string) :
  noLead q -> q <> "" -> Js.isDigits1 d = true ->
  Js.trim (q +:+ x +:+ d) = q +:+ x +:+ d.
Proof.
  intros Hq Hne Hd. unfold Js.trim. rewrite trimStart_noLead.
  - rewrite string_app_assoc. rewrite trimEnd_app_digits by exact Hd.
    reflexivity.
  - destruct q; [contradiction|exact Hq].
Qed.

(** The canonical spelling is a fixed point. *)
Lemma normalizeWithPrefix_canonical (d : string) :
  Js.isDigits1 d = true ->
  normalizeWithPrefix pfx (pfx +:+ "-" +:+ d) = Some (pfx +:+ "-" +:+ d).
Proof.
  intros Hd. unfold normalizeWithPrefix.
  rewrite trim_canonical; [|exact noLead_pfx|exact pfx_nonempty|exact Hd].
  cbv zeta.
  destruct (String.eqb (pfx +:+ "-" +:+ d) "") eqn:E.
  { apply String.eqb_eq in E. destruct pfx; [contradiction|discriminate]. }
  rewrite string_app_assoc at 1.
  rewrite stripPrefixCI_app by reflexivity.
  rewrite Hd. f_equal. apply toUpperCase_canonical. now apply isDigits1_spec in Hd.
Qed.

Lemma normalizeWithPrefix_upper (raw c : string) :
  normalizeWithPrefix pfx raw = Some c -> Js.toUpperCase c = c.
Proof.
  intros H. destruct (normalizeWithPrefix_cases raw c H) as [_ [->|(d & Hd & ->)]].
  - apply toUpperCase_idem.
  - apply toUpperCase_canonical. now apply isDigits1_spec in Hd.
Qed.

Lemma normalizeWithPrefix_idem (raw c : string) :
  normalizeWithPrefix pfx raw = Some c -> normalizeWithPrefix pfx c = Some c.
Proof.
  intros H. pose proof (normalizeWithPrefix_upper raw c H) as Hup.
  destruct (normalizeWithPrefix_cases raw c H) as [_ [Hc|(d & Hd & ->)]].
  - rewrite Hc at 1.
    rewrite normalizeWithPrefix_toUpperCase, normalizeWithPrefix_trim, H.
    simpl. now rewrite Hup.
  - now apply normalizeWithPrefix_canonical.
Qed.

Lemma substring_0_snoc (q t : string) (ch : ascii) :
  String.substring 0 (String.length q + 1) (q +:+ String ch t) = q +:+ String ch "".
Proof.
  induction q as [|c q IH]; simpl; [now destruct t|].
  now rewrite IH.
Qed.

Lemma substring_skip_snoc (q t : string) (ch : ascii) (m : nat) :
  String.substring (String.length q + 1) m (q +:+ String ch t) = String.substring 0 m t.
Proof. induction q as [|c q IH]; simpl; [reflexivity|exact IH]. Qed.

Lemma length_toLowerCase_eq (p q : string) :
  Js.toLowerCase q = Js.toLowerCase p -> String.length q = String.length p.
Proof.
  intros H. unfold Js.toLowerCase in H.
  rewrite <- (length_mapString Js.lowerChar p), <- H. symmetry. apply length_mapString.
Qed.

Lemma stripPrefixCI_snoc (p q t : string) (c ch : ascii) :
  Js.toLowerCase q = Js.toLowerCase p ->
  Js.stripPrefixCI (p +:+ String c "") (q +:+ String ch t)
  = if Ascii.eqb (Js.lowerChar ch) (Js.lowerChar c) then Some t else None.
Proof.
  intros H. unfold Js.stripPrefixCI.
  rewrite length_app_string. cbn [String.length].
  rewrite <- (length_toLowerCase_eq p q H).
  rewrite substring_0_snoc, substring_skip_snoc.
  unfold Js.toLowerCase in *. rewrite !mapString_app, H. cbn [Js.mapString].
  destruct (Ascii.eqb (Js.lowerChar ch) (Js.lowerChar c)) eqn:E.
  - apply Ascii.eqb_eq in E. rewrite E, String.eqb_refl.
    rewrite length_app_string. cbn [String.length].
    replace (String.length q + S (String.length t) - (String.length q + 1))%nat
      with (String.length t) by lia.
    now rewrite substring_0_length.
  - apply Ascii.eqb_neq in E.
    destruct (String.eqb _ _) eqn:E2; [|reflexivity].
    apply String.eqb_eq in E2. apply String.app_inj in E2.
    injection E2 as E2. contradiction.
Qed.

Lemma dropNonDigits_app (sep d : string) :
  Js.dropNonDigits sep = "" -> Js.isDigits1 d = true ->
  Js.dropNonDigits (sep +:+ d) = d.
Proof.
  intros Hsep [Hne Hd]%isDigits1_spec.
  induction sep as [|c sep IH]; simpl in *.
  - destruct d as [|c d]; [contradiction|]. simpl in *.
    apply andb_true_iff in Hd as [-> _]. reflexivity.
  - destruct (Js.isDigit c); [discriminate|]. apply IH, Hsep.
Qed.

Lemma allDigits_app_sep (sep d : string) :
  Js.dropNonDigits sep = "" -> Js.allDigits (sep +:+ d) = true -> sep = "".
Proof.
  destruct sep as [|c sep]; [reflexivity|]. simpl.
  intros Hsep [Hc _]%andb_true_iff. rewrite Hc in Hsep. discriminate.
Qed.

(** A spelling of the prefix, in any letter case, starts with neither
    white space nor a digit. *)
Lemma spelling_letter (q : string) :
  Js.toLowerCase q = Js.toLowerCase pfx ->
  match q with
  | String c _ => Js.isSpace c = false /\ Js.isDigit c = false
  | EmptyString => False
  end.
Proof.
  intros H. destruct pfx as [|c0 p]; [contradiction|].
  destruct q as [|c q]; [discriminate|].
  injection H as Hc _. destruct pfx_letter as [Hs Hd].
  rewrite <- (isSpace_lowerChar c), <- (isDigit_lowerChar c), Hc.
  now rewrite isSpace_lowerChar, isDigit_lowerChar.
Qed.

Lemma spelling_upper (q : string) :
  Js.toLowerCase q = Js.toLowerCase pfx -> Js.toUpperCase q = pfx.
Proof.
  intros H. rewrite <- (toUpperCase_toLowerCase q), H, toUpperCase_toLowerCase.
  exact pfx_upper.
Qed.

(** Digits alone get the prefix. *)
Lemma normalizeWithPrefix_digits (d : string) :
  Js.isDigits1 d = true ->
  normalizeWithPrefix pfx d = Some (pfx +:+ "-" +:+ d).
Proof.
  intros Hd. pose proof Hd as [Hne Had]%isDigits1_spec.
  unfold normalizeWithPrefix.
  assert (Ht : Js.trim d = d).
  { unfold Js.trim. rewrite trimStart_noLead; [now apply trimEnd_digits|].
    destruct d as [|c d]; [exact I|]. simpl in *.
    apply andb_true_iff in Had as [Hc _]. now apply isSpace_digit. }
  rewrite Ht. cbv zeta.
  destruct (String.eqb d "") eqn:E; [apply String.eqb_eq in E; contradiction|].
  assert (Hno : Js.stripPrefixCI (pfx +:+ "-") d = None).
  { destruct pfx as [|c0 p]; [contradiction|]. destruct pfx_letter as [_ Hc0].
    destruct d as [|c d]; [contradiction|]. simpl in Had.
    apply andb_true_iff in Had as [Hc _].
    assert (Hch : Ascii.eqb (Js.lowerChar c) (Js.lowerChar c0) = false).
    { apply Ascii.eqb_neq. intros E2.
      rewrite <- (isDigit_lowerChar c), E2, isDigit_lowerChar, Hc0 in Hc.
      discriminate. }
    unfold Js.stripPrefixCI. simpl. now rewrite Hch. }
  rewrite Hno, Hd. reflexivity.
Qed.

(** The prefix in any letter case, then anything without a digit, then
    digits: the canonical spelling. *)
Lemma normalizeWithPrefix_spelling (q sep d : string) :
  Js.toLowerCase q = Js.toLowerCase pfx ->
  Js.dropNonDigits sep = "" ->
  Js.isDigits1 d = true ->
  normalizeWithPrefix pfx (q +:+ sep +:+ d) = Some (pfx +:+ "-" +:+ d).
Proof.
  intros Hq Hsep Hd. pose proof Hd as [Hne Had]%isDigits1_spec.
  pose proof (spelling_letter q Hq) as Hl.
  unfold normalizeWithPrefix.
  rewrite trim_canonical;
    [|destruct q; [contradiction|exact (proj1 Hl)]
     |destruct q; [contradiction|discriminate]|exact Hd].
  cbv zeta.
  destruct (String.eqb (q +:+ sep +:+ d) "") eqn:E.
  { apply String.eqb_eq in E. destruct q; [contradiction|discriminate]. }
  assert (Hcons : exists ch t, sep +:+ d = String ch t).
  { destruct sep as [|ch sep]; [|simpl; eauto].
    destruct d as [|ch d]; [contradiction|simpl; eauto]. }
  destruct Hcons as (ch & t & Hst).
  rewrite Hst at 1. rewrite stripPrefixCI_snoc by exact Hq.
  destruct (Ascii.eqb (Js.lowerChar ch) (Js.lowerChar "-")) eqn:Ech.
  - apply Ascii.eqb_eq in Ech. apply lowerChar_hyphen in Ech. subst ch.
    destruct sep as [|ch sep'].
    { change ("" +:+ d) with d in Hst. subst d. simpl in Had. discriminate. }
    change (String ch sep' +:+ d) with (String ch (sep' +:+ d)) in Hst.
    injection Hst as -> <-.
    simpl in Hsep.
    destruct (Js.isDigits1 (sep' +:+ d)) eqn:Hrest.
    + apply isDigits1_spec in Hrest as [_ Hrest].
      apply allDigits_app_sep in Hrest; [|exact Hsep]. subst sep'.
      f_equal. unfold Js.toUpperCase. rewrite mapString_app.
      fold (Js.toUpperCase q). rewrite (spelling_upper q Hq). simpl.
      fold (Js.toUpperCase d). now rewrite toUpperCase_digits.
    + assert (Hs : Js.isDigits1 (q +:+ String "-" sep' +:+ d) = false).
      { destruct q as [|c q]; [contradiction|].
        unfold Js.isDigits1. simpl. now rewrite (proj2 Hl). }
      rewrite Hs.
      rewrite (stripPrefixCI_app pfx q _ Hq).
      rewrite dropNonDigits_app by (simpl; assumption).
      rewrite Hd. f_equal. now apply toUpperCase_canonical.
  - assert (Hs : Js.isDigits1 (q +:+ sep +:+ d) = false).
    { destruct q as [|c q]; [contradiction|].
      unfold Js.isDigits1. simpl. now rewrite (proj2 Hl). }
    rewrite Hs, (stripPrefixCI_app pfx q _ Hq).
    rewrite dropNonDigits_app by assumption.
    rewrite Hd. f_equal. now apply toUpperCase_canonical.
Qed.

Lemma normalizeWithPrefix_stable (raw c : string) :
  normalizeWithPrefix pfx raw = Some c ->
  c <> "" /\ Js.toUpperCase c = c /\ Js.trim c = c
  /\ normalizeWithPrefix pfx c = Some c.
Proof.
  intros H.
  split; [|split; [|split]].
  - destruct (normalizeWithPrefix_cases raw c H)
      as [Hne [->|(d & Hd & ->)]].
    + intros E. apply Hne. unfold Js.toUpperCase in E.
      destruct (Js.trim raw); [reflexivity|discriminate].
    + destruct pfx; [contradiction|discriminate].
  - exact (normalizeWithPrefix_upper raw c H).
  - destruct (normalizeWithPrefix_cases raw c H)
      as [_ [->|(d & Hd & ->)]].
    + now rewrite trim_toUpperCase, trim_idem.
    + apply trim_canonical;
        [exact noLead_pfx|exact pfx_nonempty|exact Hd].
  - exact (normalizeWithPrefix_idem raw c H).
Qed.

Lemma normalizeWithPrefix_insensitive (a b : string) :
  Js.toLowerCase (Js.trim a) = Js.toLowerCase (Js.trim b) ->
  normalizeWithPrefix pfx a = normalizeWithPrefix pfx b.
Proof.
  intros H.
  assert (Hup : forall x, normalizeWithPrefix pfx x
                          = normalizeWithPrefix pfx (Js.toUpperCase (Js.trim x))).
  { intros x. rewrite normalizeWithPrefix_toUpperCase.
    rewrite normalizeWithPrefix_trim.
    destruct (normalizeWithPrefix pfx x) as [c|] eqn:E; [|reflexivity].
    simpl. now rewrite (normalizeWithPrefix_upper x c E). }
  rewrite (Hup a), (Hup b).
  rewrite <- (toUpperCase_toLowerCase (Js.trim a)), H, toUpperCase_toLowerCase.
  reflexivity.
Qed.

End Normalize.

Lemma isAsciiChar_upperChar (c : ascii) :
  Js.isAsciiChar c = true -> Js.isAsciiChar (Js.upperChar c) = true.
Proof. each_ascii c; intros H; try reflexivity; discriminate H. Qed.

Lemma isAsciiChar_digit (c : ascii) : Js.isDigit c = true -> Js.isAsciiChar c = true.
Proof. each_ascii c; intros H; try reflexivity; discriminate H. Qed.

Lemma isAscii_toUpperCase (s : string) :
  Js.isAscii s = true -> Js.isAscii (Js.toUpperCase s) = true.
Proof.
  unfold Js.toUpperCase. induction s as [|c s IH]; simpl; [reflexivity|].
  intros [Hc Hs]%andb_true_iff. now rewrite isAsciiChar_upperChar, IH.
Qed.

Lemma isAscii_trimStart (s : string) :
  Js.isAscii s = true -> Js.isAscii (Js.trimStart s) = true.
Proof.
  induction s as [|c s IH]; simpl; [reflexivity|].
  intros H. pose proof H as [Hc Hs]%andb_true_iff.
  destruct (Js.isSpace c); [exact (IH Hs)|exact H].
Qed.

Lemma isAscii_trimEnd (s : string) :
  Js.isAscii s = true -> Js.isAscii (Js.trimEnd s) = true.
Proof.
  induction s as [|c s IH]; simpl; [reflexivity|].
  intros [Hc Hs]%andb_true_iff. specialize (IH Hs).
  destruct (Js.trimEnd s); [destruct (Js.isSpace c)|]; simpl in *;
    rewrite ?Hc; auto.
Qed.

Lemma isAscii_trim (s : string) : Js.isAscii s = true -> Js.isAscii (Js.trim s) = true.
Proof. intros H. unfold Js.trim. now apply isAscii_trimEnd, isAscii_trimStart. Qed.

Lemma isAscii_digits (d : string) : Js.allDigits d = true -> Js.isAscii d = true.
Proof.
  induction d as [|c d IH]; simpl; [reflexivity|].
  intros [Hc Hd]%andb_true_iff. now rewrite isAsciiChar_digit, IH.
Qed.

Lemma isAscii_app (a b : string) :
  Js.isAscii (a +:+ b) = Js.isAscii a && Js.isAscii b.
Proof.
  induction a as [|c a IH]; [reflexivity|].
  change (String c a +:+ b) with (String c (a +:+ b)). simpl. rewrite IH.
  now rewrite andb_assoc.
Qed.

Lemma normalizeWithPrefix_ascii (pfx raw c : string) :
  Js.toUpperCase pfx = pfx ->
  Js.isAscii pfx = true -> Js.isAscii raw = true ->
  normalizeWithPrefix pfx raw = Some c -> Js.isAscii c = true.
Proof.
  intros Hup Hpfx Hraw H.
  destruct (normalizeWithPrefix_cases pfx Hup raw c H) as [_ [->|(d & Hd & ->)]].
  - now apply isAscii_toUpperCase, isAscii_trim.
  - apply isDigits1_spec in Hd as [_ Hd].
    rewrite !isAscii_app, Hpfx, (isAscii_digits d Hd). reflexivity.
Qed.

(** X19. A normalised SKU or inventory code is a normal form.  For a
    cell of ASCII text (where [Js.trim] and [Js.toUpperCase] are the
    methods of the code), the code returned is ASCII text again, it is
    not empty, it has no lower-case letter and no white space around it,
    and normalising it again gives it back. *)
Theorem normalized_codes_are_stable (raw c : string) :
  Js.isAscii raw = true ->
  (normalizeSku raw = Some c ->
   c <> "" /\ Js.isAscii c = true /\ Js.toUpperCase c = c /\ Js.trim c = c
   /\ normalizeSku c = Some c)
  /\ (normalizeInvCode raw = Some c ->
      c <> "" /\ Js.isAscii c = true /\ Js.toUpperCase c = c /\ Js.trim c = c
      /\ normalizeInvCode c = Some c).
Proof.
  intros Hraw. split; intros H.
  - destruct (normalizeWithPrefix_stable "SKU" eq_refl (conj eq_refl eq_refl) raw c H)
      as (Hne & Hu & Ht & Hn).
    split; [exact Hne|]. split; [|auto].
    exact (normalizeWithPrefix_ascii "SKU" raw c eq_refl eq_refl Hraw H).
  - destruct (normalizeWithPrefix_stable "INV" eq_refl (conj eq_refl eq_refl) raw c H)
      as (Hne & Hu & Ht & Hn).
    split; [exact Hne|]. split; [|auto].
    exact (normalizeWithPrefix_ascii "INV" raw c eq_refl eq_refl Hraw H).
Qed.

(** X20. Spellings of a code agree.  Two cells that differ only in letter
    case and in the white space around them normalise alike; a cell of
    digits alone gets the prefix; and the prefix in any letter case,
    followed by anything without a digit and then by digits, normalises to
    the prefix, a hyphen and the digits. *)
Theorem code_spellings_agree :
  (forall a b : string,
      Js.toLowerCase (Js.trim a) = Js.toLowerCase (Js.trim b) ->
      normalizeSku a = normalizeSku b /\ normalizeInvCode a = normalizeInvCode b)
  /\ (forall q sep d : string,
         Js.isDigits1 d = true -> Js.dropNonDigits sep = "" ->
         normalizeSku d = Some ("SKU-" +:+ d)
         /\ normalizeInvCode d = Some ("INV-" +:+ d)
         /\ (Js.toLowerCase q = "sku" ->
             normalizeSku (q +:+ sep +:+ d) = Some ("SKU-" +:+ d))
         /\ (Js.toLowerCase q = "inv" ->
             normalizeInvCode (q +:+ sep +:+ d) = Some ("INV-" +:+ d))).
Proof.
  split.
  - intros a b H.
    split; apply normalizeWithPrefix_insensitive; try reflexivity; simpl; auto.
  - intros q sep d Hd Hsep.
    split; [|split; [|split]].
    + apply (normalizeWithPrefix_digits "SKU"); simpl; auto.
    + apply (normalizeWithPrefix_digits "INV"); simpl; auto.
    + intros Hq. apply (normalizeWithPrefix_spelling "SKU"); simpl; auto.
    + intros Hq. apply (normalizeWithPrefix_spelling "INV"); simpl; auto.
Qed.

(** X21. [emptyToNull] gives [null] or a text that is neither empty nor
    padded with white space, and applying it twice changes nothing. *)
Theorem emptyToNull_is_stable (v : option string) :
  (forall s, emptyToNull v = Some s -> s <> "" /\ Js.trim s = s)
  /\ emptyToNull (emptyToNull v) = emptyToNull v.
Proof.
  assert (H1 : forall s, emptyToNull v = Some s -> s <> "" /\ Js.trim s = s).
  { intros s. destruct v as [x|]; simpl; [|discriminate].
    destruct (String.eqb (Js.trim x) "") eqn:E; [discriminate|].
    intros Hs. injection Hs as <-. split; [now apply String.eqb_neq|apply trim_idem]. }
  split; [exact H1|].
  destruct (emptyToNull v) as [s|] eqn:E; [|reflexivity].
  destruct (H1 s eq_refl) as [Hne Ht]. simpl. rewrite Ht.
  apply String.eqb_neq in Hne. now rewrite Hne.
Qed.

(** * Pages of the CRM quotation list *)

Lemma Qceiling_div (t p : Z) :
  0 < p -> Qceiling (inject_Z t / inject_Z p) = (t + p - 1) / p.
Proof.
  intros Hp. destruct p as [|p|p]; try lia.
  unfold Qceiling, Qfloor, Qdiv, Qmult, Qinv, Qopp, inject_Z. simpl.
  rewrite Z.mul_1_r.
  Z.div_mod_to_equations. nia.
Qed.

Section CrmPages.

Variable getTime : string -> option Z.
Variable Cotizacion : Type.
Variable createdAt : Cotizacion -> Z.
Variable matchesWhere : CrmWhere -> Cotizacion -> bool.

Local Abbreviation listCrm := (listCrmCotizaciones getTime createdAt matchesWhere).

Lemma newerCreated_trans : Transitive (newerCreated createdAt).
Proof. intros x y z. unfold newerCreated. lia. Qed.

Lemma newerCreated_total : Total (newerCreated createdAt).
Proof. intros x y. unfold newerCreated. lia. Qed.

Lemma length_crmFindMany (w : CrmWhere) (size skip : Z) (table : list Cotizacion) :
  0 <= skip ->
  Z.of_nat (length (crmFindMany createdAt matchesWhere w size skip table))
  = Z.max 0 (Z.min size (crmCount matchesWhere w table - skip)).
Proof.
  intros Hs. unfold crmFindMany, crmCount.
  rewrite length_take, length_drop, merge_sort_Permutation. lia.
Qed.

Lemma StronglySorted_crmFindMany (w : CrmWhere) (size skip : Z) (table : list Cotizacion) :
  StronglySorted (newerCreated createdAt)
                 (crmFindMany createdAt matchesWhere w size skip table).
Proof.
  unfold crmFindMany.
  set (l := merge_sort _ _).
  assert (Hl : StronglySorted (newerCreated createdAt) l).
  { apply StronglySorted_merge_sort;
      [exact newerCreated_trans|exact newerCreated_total]. }
  apply (StronglySorted_app_1_l _ _ (drop (Z.to_nat size) (drop (Z.to_nat skip) l))).
  rewrite take_drop.
  apply (StronglySorted_app_1_r _ (take (Z.to_nat skip) l)).
  rewrite take_drop. exact Hl.
Qed.

(** The first [n] pages of [size] rows, one after the other, are the first
    [n * size] rows. *)
Lemma concat_pages {A : Type} (l : list A) (size n : nat) :
  concat ((fun p => take size (drop ((p - 1) * size) l)) <$> seq 1 n)
  = take (n * size) l.
Proof.
  induction n as [|n IH]; [reflexivity|].
  rewrite seq_S, fmap_app, concat_app, IH. simpl.
  rewrite app_nil_r, Nat.sub_0_r, take_take_drop. f_equal. lia.
Qed.

Lemma listCrm_ok (query : ListQuery) (table : list Cotizacion) (data : list Cotizacion)
  (meta : CrmMeta) :
  listCrm query table = CrmOk data meta ->
  exists w,
    (forall p, listCrm (withPage p query) table
               = CrmOk (crmFindMany createdAt matchesWhere w (lq_pageSize query)
                                    ((p - 1) * lq_pageSize query) table)
                       {| meta_page := p;
                          meta_pageSize := lq_pageSize query;
                          meta_total := crmCount matchesWhere w table;
                          meta_totalPages :=
                            Z.max 1 (Qceiling (inject_Z (crmCount matchesWhere w table)
                                               / inject_Z (lq_pageSize query))) |})
    /\ data = crmFindMany createdAt matchesWhere w (lq_pageSize query)
                          ((lq_page query - 1) * lq_pageSize query) table
    /\ meta = {| meta_page := lq_page query;
                 meta_pageSize := lq_pageSize query;
                 meta_total := crmCount matchesWhere w table;
                 meta_totalPages :=
                   Z.max 1 (Qceiling (inject_Z (crmCount matchesWhere w table)
                                      / inject_Z (lq_pageSize query))) |}.
Proof.
  unfold listCrmCotizaciones. cbn [withPage lq_from lq_to lq_q lq_estado lq_page lq_pageSize].
  destruct (buildRange getTime (lq_from query) (lq_to query)) as [issue|range];
    [discriminate|].
  intros H. injection H as <- <-. eexists. split; [intros p; reflexivity|].
  split; reflexivity.
Qed.

(** X22. Pages of the CRM quotation list.  For a query that the schema
    accepts and whose dates parse, the answer repeats [page] and
    [pageSize]; [totalPages] is the least number of pages, at least 1,
    that holds [total] rows; the page has [pageSize] rows, or what is left
    of [total] after the pages before it; a page after the last one is
    empty and, when there are rows, no page up to the last one is; the
    rows of a page come newest first; and the pages 1 to [totalPages],
    asked one after the other on the same table, hold [total] rows
    together. *)
Theorem crm_pages_cover_the_total (query : ListQuery) (table : list Cotizacion)
  (data : list Cotizacion) (meta : CrmMeta) :
  validListQuery query ->
  listCrm query table = CrmOk data meta ->
  let page := lq_page query in
  let size := lq_pageSize query in
  let total := meta_total meta in
  let pages := meta_totalPages meta in
  (meta_page meta = page /\ meta_pageSize meta = size)
  /\ (0 <= total /\ 1 <= pages /\ total <= pages * size
      /\ (1 < pages -> (pages - 1) * size < total))
  /\ Z.of_nat (length data) = Z.max 0 (Z.min size (total - (page - 1) * size))
  /\ (pages < page -> data = [])
  /\ (page <= pages -> 0 < total -> data <> [])
  /\ StronglySorted (fun x y => createdAt y <= createdAt x) data
  /\ Z.of_nat
       (length (concat ((fun p => crmData (listCrm (withPage (Z.of_nat p) query) table))
                          <$> seq 1 (Z.to_nat pages))))
     = total.
Proof.
  intros [Hpage Hsize] H page size total pages.
  destruct (listCrm_ok query table data meta H) as (w & Hall & Hdata & Hmeta).
  assert (Htotal : total = crmCount matchesWhere w table) by (unfold total; now rewrite Hmeta).
  assert (Hpages : pages = Z.max 1 ((total + size - 1) / size)).
  { unfold pages. rewrite Hmeta. cbn [meta_totalPages].
    rewrite Qceiling_div by (fold size; lia). now rewrite <- Htotal. }
  assert (H0 : 0 <= total) by (rewrite Htotal; unfold crmCount; lia).
  assert (Hbounds : 1 <= pages /\ total <= pages * size
                    /\ (1 < pages -> (pages - 1) * size < total)).
  { fold size in Hsize. rewrite Hpages. clearbody total size. clear -Hsize H0.
    Z.div_mod_to_equations. nia. }
  assert (Hlen : Z.of_nat (length data)
                 = Z.max 0 (Z.min size (total - (page - 1) * size))).
  { rewrite Hdata, length_crmFindMany by (fold page size; nia).
    now rewrite <- Htotal. }
  split; [now rewrite Hmeta|]. split; [tauto|]. split; [exact Hlen|].
  split; [|split; [|split]].
  - intros Hgt. apply length_zero_iff_nil.
    fold size in Hsize. fold page in Hpage. nia.
  - intros Hle Hpos ->. simpl in Hlen.
    fold size in Hsize. fold page in Hpage. nia.
  - rewrite Hdata. apply StronglySorted_crmFindMany.
  - erewrite (list_fmap_ext _ (fun p => take (Z.to_nat size)
                                (drop ((p - 1) * Z.to_nat size)
                                   (@merge_sort _ (newerCreated createdAt)
                                      (newerCreated_dec createdAt)
                                      (List.filter (matchesWhere w) table))))).
    + rewrite concat_pages, take_ge.
      * rewrite merge_sort_Permutation. now rewrite Htotal.
      * rewrite merge_sort_Permutation. fold size in Hsize.
        unfold crmCount in Htotal. nia.
    + intros i p Hp. rewrite Hall. cbn [crmData]. unfold crmFindMany. fold size.
      apply lookup_seq in Hp as [-> _].
      do 2 f_equal. fold size in Hsize. nia.
Qed.

End CrmPages.

(** * The further properties at work *)

Lemma almacen_oneActive : oneActivePerInventario almacen.
Proof. apply oneActiveb_sound. vm_compute. reflexivity. Qed.

Lemma almacen_reenvia :
  evaluateStockCriticalTx 50000000 "i1" almacen
  = inr (reenvio, trasEvaluar 50000000 "i1" almacen).
Proof. vm_compute. reflexivity. Qed.

Lemma evaluation_guards_witness :
  evaluateStockCriticalTx 7 "i9" almacen
  = inr (noopResult (Some "inventario_not_found"), almacen).
Proof.
  apply (proj1 (evaluation_guards 7 "i9" almacen)). vm_compute. reflexivity.
Defined.


Lemma evaluation_is_local_witness :
  inventarios (trasEvaluar 50000000 "i1" almacen) = inventarios almacen
  /\ is_Some (alerts (trasEvaluar 50000000 "i1" almacen) !! "a1").
Proof.
  destruct (evaluation_is_local 50000000 "i1" almacen
              (trasEvaluar 50000000 "i1" almacen) reenvio almacen_reenvia)
    as (_ & Hi & _ & _ & _ & Ha).
  split; [exact Hi|]. apply Ha. vm_compute. eauto.
Defined.

Lemma evaluation_notifies_once_witness :
  exists n,
    notificaciones (trasEvaluar 50000000 "i1" almacen) = notificaciones almacen ++ [n]
    /\ n_referenciaId n = "i1" /\ n_leido n = false.
Proof.
  destruct (evaluation_notifies_once 50000000 "i1" almacen
              (trasEvaluar 50000000 "i1" almacen) reenvio almacen_reenvia)
    as [Hsend _].
  destruct Hsend as (n & Hn & _ & _ & Hr & Hl); [right; reflexivity|].
  exists n. split; [exact Hn|]. split; [exact Hr|exact Hl].
Defined.



Lemma entrada_then_salida_restores_stock_witness :
  exists res1 s1 res2 s2,
    createMovimientoStock 7 (movimiento Entrada 10) almacen = (Json 201 res1, s1)
    /\ createMovimientoStock 8 (movimiento Salida 10) s1 = (Json 201 res2, s2)
    /\ inventarios s2 = inventarios almacen.
Proof.
  destruct (entrada_then_salida_restores_stock 7 8 10 "i1" None None almacen
              inventarioClavo clavo)
    as (res1 & s1 & res2 & s2 & E1 & E2 & _ & Hi & _);
    [reflexivity..|vm_compute; discriminate|vm_compute; discriminate|].
  exists res1, s1, res2, s2. split; [exact E1|]. split; [exact E2|exact Hi].
Defined.

Lemma rejected_requests_write_nothing_witness :
  (createMovimientoStock 7 (movimiento Salida 3) almacen).2 = almacen
  /\ (ackStockAlert 7 "a9" almacen).2 = almacen.
Proof.
  split.
  - destruct (rejected_requests_write_nothing sinRestricciones almacen
                (createMovimientoStock 7 (movimiento Salida 3) almacen).2
                400 "Stock insuficiente para realizar la salida")
      as (_ & _ & _ & Hmov & _); [lia|].
    apply (Hmov 7 (movimiento Salida 3)). vm_compute. reflexivity.
  - destruct (rejected_requests_write_nothing sinRestricciones almacen
                (ackStockAlert 7 "a9" almacen).2 404 "Alerta no encontrada")
      as (_ & _ & _ & _ & Hack & _); [lia|].
    apply (Hack 7 "a9"). vm_compute. reflexivity.
Defined.

Lemma stock_is_never_negative_witness :
  nonNegative
    (run sinRestricciones tiposEjemplo
         [OpCreateInventario 1000 (nuevoInventario 2 5);
          OpCreateMovimientoStock 2000 (movimiento Salida 5);
          OpImportExcel reloj [filaRara];
          OpUpdateInventario 3000 "i1" (soloStock 0)]
         tienda).
Proof.
  apply (stock_is_never_negative sinRestricciones tiposEjemplo).
  - intros i inv H. vm_compute in H. discriminate.
  - repeat constructor; simpl; try lia; intros n Hn; try discriminate;
      injection Hn as <-; lia.
Defined.

Lemma counts_follow_ack_and_resolve_witness :
  length (alertsWithStatus ACK (alerts (ackStockAlert 7 "a1" almacen).2))
  = S (length (alertsWithStatus ACK (alerts almacen)))
  /\ length (alertsWithStatus RESOLVED (alerts (resolveStockAlert 7 "a1" almacen).2))
     = S (length (alertsWithStatus RESOLVED (alerts almacen))).
Proof.
  destruct (counts_follow_ack_and_resolve 7 "a1" almacen alertaAbierta)
    as (_ & Hack & Hres); [reflexivity|].
  split.
  - destruct Hack as (_ & H & _); [reflexivity|exact H].
  - destruct Hres as (_ & H & _); [discriminate|exact H].
Defined.

Lemma ack_does_not_change_evaluation_witness :
  exists s2,
    evaluateStockCriticalTx 50000000 "i1" (ackStockAlert 10 "a1" almacen).2
    = inr (reenvio, s2).
Proof.
  apply (ack_does_not_change_evaluation 50000000 10 "i1" "a1" almacen
           (trasEvaluar 50000000 "i1" almacen) reenvio).
  - exact almacen_oneActive.
  - exact almacen_reenvia.
Defined.

Lemma tipo_maps_into_the_enum_witness :
  mapTipoToPrismaEnum tiposEjemplo "Flete" = Some "Flete".
Proof.
  apply (proj2 (tipo_maps_into_the_enum tiposEjemplo "Flete")).
  - right. left. reflexivity.
  - reflexivity.
  - discriminate.
Defined.

Lemma parsed_rows_are_well_formed_witness :
  exists r,
    parseImportRow tiposEjemplo filaRara = inr r
    /\ row_sku r <> "" /\ 0 <= row_stock r /\ 0 <= row_minimo r.
Proof.
  destruct (parseImportRow tiposEjemplo filaRara) as [msg|r] eqn:E;
    [vm_compute in E; discriminate|].
  destruct (parsed_rows_are_well_formed tiposEjemplo filaRara r E)
    as (Hsku & _ & _ & _ & Hs & Hm & _).
  exists r. split; [reflexivity|]. split; [exact Hsku|]. split; [exact Hs|exact Hm].
Defined.


Lemma freight_row_removes_inventories_witness :
  let tras := trasImportar sinRestricciones 1000 (filaClavo "Despacho" "Flete" None 0)
                almacen in
  invId tras.1 = None
  /\ exists pid, productos tras.2 !! pid
                 = Some (productoOfRow (filaClavo "Despacho" "Flete" None 0)).
Proof.
  intros tras.
  destruct (freight_row_removes_inventories sinRestricciones 1000
              (filaClavo "Despacho" "Flete" None 0) almacen tras.2 tras.1)
    as (pid & Hp & _ & Hid & _); [reflexivity|vm_compute; reflexivity|].
  split; [exact Hid|]. exists pid. exact Hp.
Defined.

Lemma normalized_codes_are_stable_witness :
  normalizeSku "SKU-7" = Some "SKU-7" /\ Js.isAscii "SKU-7" = true.
Proof.
  destruct (normalized_codes_are_stable " sku 7 " "SKU-7") as [H _];
    [reflexivity|].
  destruct H as (_ & Ha & _ & _ & Hn); [vm_compute; reflexivity|].
  split; [exact Hn|exact Ha].
Defined.

Lemma code_spellings_agree_witness :
  normalizeSku "  sku_7 " = normalizeSku "SKU_7"
  /\ normalizeInvCode ("Inv" +:+ " #" +:+ "0042") = Some ("INV-" +:+ "0042").
Proof.
  destruct code_spellings_agree as [Hcase Hspell]. split.
  - apply (Hcase "  sku_7 " "SKU_7"). vm_compute. reflexivity.
  - destruct (Hspell "Inv" " #" "0042") as (_ & _ & _ & H);
      [reflexivity|reflexivity|]. apply H. reflexivity.
Defined.

Lemma emptyToNull_is_stable_witness :
  emptyToNull (Some "  B-2 ") = Some "B-2" /\ Js.trim "B-2" = "B-2".
Proof.
  assert (E : emptyToNull (Some "  B-2 ") = Some "B-2") by (vm_compute; reflexivity).
  split; [exact E|].
  exact (proj2 (proj1 (emptyToNull_is_stable (Some "  B-2 ")) "B-2" E)).
Defined.

Lemma crm_pages_cover_the_total_witness :
  Z.of_nat
    (length (concat ((fun p => crmData (listCrmCotizaciones sinFechas id todas
                                          (withPage (Z.of_nat p) consulta)
                                          cotizaciones))
                       <$> seq 1 3)))
  = 5.
Proof.
  destruct (crm_pages_cover_the_total sinFechas Z id todas consulta cotizaciones
              [3; 2]
              {| meta_page := 2; meta_pageSize := 2; meta_total := 5;
                 meta_totalPages := 3 |})
    as (_ & _ & _ & _ & _ & _ & H).
  - split; simpl; lia.
  - vm_compute. reflexivity.
  - exact H.
Defined.

Lemma alert_list_and_count_witness :
  queryStatus (Some "todas") = OPEN
  /\ exists rows,
      listStockAlerts (Some "ack") (conAlerta alertaVista) = Json 200 rows
      /\ length rows = 1%nat.
Proof.
  split.
  - destruct (alert_list_and_count None emptyStore)
      as (rows & n & _ & _ & _ & _ & _ & _ & _ & _ & H); [discriminate|].
    apply H; reflexivity.
  - assert (Hq : forall v, Some "ack" = Some v -> Js.isAscii v = true).
    { intros v Hv. injection Hv as <-. reflexivity. }
    destruct (alert_list_and_count (Some "ack") (conAlerta alertaVista) Hq)
      as (rows & n & Hl & Hc & Hlen & _).
    exists rows. split; [exact Hl|].
    pose proof (f_equal (fun r : Response (AlertStatus * Z) =>
                           match r with
                           | Json _ x => x.2
                           | _ => 0
                           end) Hc) as Hn.
    unfold countStockAlerts in Hn. cbv beta iota zeta in Hn. cbn [snd] in Hn.
    apply Nat2Z.inj in Hn. rewrite Hlen, <- Hn. vm_compute. reflexivity.
Defined.
